(** * Index aggregation and derived-metrics engine of the dashboard

    A shallow embedding of [src/lib/polynance-sdk.ts] (class
    [PolynanceService]) and the properties its specification states.

    Modelling conventions.
    - A JavaScript [number] that the data provider delivers (price,
      volumeBase, timestamp) is a finite double and is modelled as the
      rational [Q] it denotes.  The arithmetic of the candles
      ([generateCandleData]) and of the yields ([calculateIndexFields]) is
      binary64: every operation computes exactly and rounds to the nearest
      double ([JS.round64]), and its result is a [number], which adds [NaN]
      and the infinities.  Elsewhere a sum, a product or a quotient of finite
      numbers is the exact one, and [number] is used where the source can
      produce a non-finite number out of finite ones (an invalid [Date], a
      division by zero); what is stated about such a result does not depend
      on its rounding.
    - Objects that the source shares by reference and mutates (Market
      objects held by the market cache and by [index.markets]; the array
      handed to [generateCandleData]) live in an explicit store and are
      named by their position in it.
    - [async] functions are run to completion one after the other, the
      constituents of an index in slot order; a rejected promise is an
      exceptional result.  The side effects a call had before it threw
      persist, as they do in the source.
    - What the JavaScript runtime and the data provider supply is a
      parameter: the clock, [Math.random], [Date] parsing and formatting,
      number-to-string conversion ([Runtime]), and the answers of the
      provider ([SDK]).  [console] output is not modelled. *)

From stdpp Require Import gmap strings list fin_maps.
From Stdlib Require Import Ascii String QArith Qround Qminmax Qabs Qpower Lqa DecimalString Sorted Permutation.

Local Open Scope string_scope.
Local Open Scope list_scope.

(* ===================================================================== *)
(** ** The JavaScript runtime                                             *)
(* ===================================================================== *)

(** A number that may be non-finite. *)
Inductive number : Type :=
  | Num (q : Q)
  | PInf
  | NInf
  | NaN.

(** What the runtime supplies.  [random k] is the value of the [k]-th call of
    [Math.random()]; [now] is the clock in milliseconds; [parseDate s] is the
    time value of [new Date(s)], [None] for an invalid date;
    [settlementDateString d] is
    [toISOString().split("T")[0].replace(/-/g, "")] of today plus [d] days;
    [toISOString t] is [new Date(t).toISOString()]; [numberToString] is the
    conversion of a template literal; [hexTag x] is
    [x.toString(16).substring(2, 10)]. *)
Record Runtime : Type := {
  random : nat -> Q;
  now : Z;
  parseDate : string -> option Z;
  settlementDateString : Z -> string;
  toISOString : Q -> string;
  numberToString : Q -> string;
  hexTag : Q -> string
}.

Module JS.

(** [x || 0] on a finite number. *)
Definition orZero (x : Q) : Q := if Qeq_bool x 0 then 0%Q else x.

Definition Qlt_bool (x y : Q) : bool := negb (Qle_bool y x).

(** [String.prototype.toLowerCase] on the ASCII letters; other bytes are
    kept (no character outside ASCII lowers to an ASCII letter of
    ["inactive"]). *)
Definition lowerAscii (c : ascii) : ascii :=
  let n := nat_of_ascii c in
  if (65 <=? n)%nat && (n <=? 90)%nat then ascii_of_nat (n + 32) else c.

Fixpoint toLowerCase (s : string) : string :=
  match s with
  | EmptyString => EmptyString
  | String c s' => String (lowerAscii c) (toLowerCase s')
  end.

Definition isDigit (c : ascii) : bool :=
  let n := nat_of_ascii c in (48 <=? n)%nat && (n <=? 57)%nat.

(** The longest run of digits at the head of [s], and what follows it. *)
Fixpoint spanDigits (s : string) : string * string :=
  match s with
  | String c s' =>
      if isDigit c then let '(d, r) := spanDigits s' in (String c d, r)
      else (EmptyString, s)
  | EmptyString => (EmptyString, EmptyString)
  end.

(** [Number.parseInt] of a string of digits. *)
Fixpoint digitsValue (acc : Z) (s : string) : Z :=
  match s with
  | String c s' => digitsValue (10 * acc + (Z.of_nat (nat_of_ascii c) - 48)) s'
  | EmptyString => acc
  end.

Fixpoint startsWith (p s : string) : bool :=
  match p, s with
  | EmptyString, _ => true
  | String a p', String b s' => if Ascii.eqb a b then startsWith p' s' else false
  | String _ _, EmptyString => false
  end.

(** [s.match(/(\d+) days?/)]: the first group of the leftmost match.  At a
    start position the greedy [\d+] takes the whole run of digits; a shorter
    run is followed by a digit and cannot be followed by [" day"]. *)
Fixpoint matchDays (s : string) : option string :=
  match s with
  | EmptyString => None
  | String c s' =>
      let '(d, r) := spanDigits s in
      match d with
      | String _ _ => if startsWith " day" r then Some d else matchDays s'
      | EmptyString => matchDays s'
      end
  end.

(** Decimal digits of a natural number. *)
Definition digits (n : Z) : string := NilZero.string_of_uint (N.to_uint (Z.to_N n)).

Fixpoint zeros (k : nat) : string :=
  match k with O => EmptyString | S k' => String "0" (zeros k') end.

Fixpoint takeS (k : nat) (s : string) : string :=
  match k, s with
  | S k', String c s' => String c (takeS k' s')
  | _, _ => EmptyString
  end.

Fixpoint dropS (k : nat) (s : string) : string :=
  match k, s with
  | S k', String _ s' => dropS k' s'
  | _, _ => s
  end.

(** The integer [n] for which [n / 10^d - x] is closest to zero, the larger
    one of two ([x >= 0]). *)
Definition scaled (d : nat) (x : Q) : Z :=
  Qfloor (x * inject_Z (10 ^ Z.of_nat d) + (1 # 2)).

(** [Number.prototype.toFixed(d)] of a non-negative number below [10^21]. *)
Definition fixedDigits (d : nat) (x : Q) : string :=
  let m := digits (scaled d x) in
  match d with
  | O => m
  | S _ =>
      let m' := zeros (S d - String.length m) +:+ m in
      let k := (String.length m' - d)%nat in
      takeS k m' +:+ "." +:+ dropS k m'
  end.

(** [x.toFixed(d)]: the sign, then the digits; from [10^21] on it is the
    plain number-to-string conversion. *)
Definition toFixed (rt : Runtime) (d : nat) (x : Q) : string :=
  let s := if Qlt_bool x 0 then "-" else "" in
  let a := if Qlt_bool x 0 then (- x)%Q else x in
  if Qle_bool (inject_Z (10 ^ 21)) a then s +:+ numberToString rt (Qred a)
  else s +:+ fixedDigits d a.

(** [Number(x.toFixed(d))]: the number that the digits denote; from
    [10^21] on, [x] itself. *)
Definition toFixedValue (d : nat) (x : Q) : Q :=
  let a := if Qlt_bool x 0 then (- x)%Q else x in
  if Qle_bool (inject_Z (10 ^ 21)) a then x
  else if Qlt_bool x 0
  then (- (inject_Z (scaled d a) / inject_Z (10 ^ Z.of_nat d)))%Q
  else (inject_Z (scaled d a) / inject_Z (10 ^ Z.of_nat d))%Q.

(** [toFixed] of a number that may be non-finite. *)
Definition toFixedN (rt : Runtime) (d : nat) (x : number) : string :=
  match x with
  | Num q => toFixed rt d q
  | PInf => "Infinity"
  | NInf => "-Infinity"
  | NaN => "NaN"
  end.

(** The sum of two numbers. *)
Definition nadd (x y : number) : number :=
  match x, y with
  | NaN, _ | _, NaN => NaN
  | PInf, NInf | NInf, PInf => NaN
  | PInf, _ | _, PInf => PInf
  | NInf, _ | _, NInf => NInf
  | Num a, Num b => Num (a + b)
  end.

(** The quotient of two finite numbers. *)
Definition qdiv (a b : Q) : number :=
  if Qeq_bool b 0 then
    if Qeq_bool a 0 then NaN else if Qlt_bool a 0 then NInf else PInf
  else Num (a / b).

(** A number divided or multiplied by a positive finite one. *)
Definition nscale (f : Q -> Q) (x : number) : number :=
  match x with Num a => Num (f a) | other => other end.

(** [x >= 0]. *)
Definition nge0 (x : number) : bool :=
  match x with
  | Num a => Qle_bool 0 a
  | PInf => true
  | NInf | NaN => false
  end.

(** [Math.max(0, x)]. *)
Definition max0 (x : number) : number :=
  match x with
  | Num a => Num (Qmax 0 a)
  | PInf => PInf
  | NInf => Num 0
  | NaN => NaN
  end.

(** *** Binary64 arithmetic

    A finite double is the rational number it denotes.  An operation
    computes exactly and rounds to the nearest double, a tie to the even
    mantissa; a result of [2^1024] or more in magnitude is an infinity.  The
    sign of a zero is not kept. *)

(** [2^e]. *)
Definition pow2 (e : Z) : Q :=
  if (0 <=? e)%Z then inject_Z (2 ^ e) else 1 # Z.to_pos (2 ^ (- e)).

(** The integer [e] with [2^e <= a < 2^(e+1)], for [a > 0]. *)
Definition log2floor (a : Q) : Z :=
  let e0 := (Z.log2 (Qnum a) - Z.log2 (Zpos (Qden a)))%Z in
  if Qle_bool (pow2 e0) a then e0 else (e0 - 1)%Z.

(** The nearest integer, the even one of two. *)
Definition roundHalfEven (x : Q) : Z :=
  let f := Qfloor x in
  match (x - inject_Z f ?= 1 # 2)%Q with
  | Lt => f
  | Gt => (f + 1)%Z
  | Eq => if Z.even f then f else (f + 1)%Z
  end.

(** The weight of the last bit of the mantissa of the double nearest to
    [a > 0]: 53 bits, the last one of weight [2^-1074] at least. *)
Definition ulp (a : Q) : Q := pow2 (Z.max (log2floor a - 52) (-1074)).

(** [a > 0] rounded to a multiple of that weight. *)
Definition magnitude (a : Q) : Q := (inject_Z (roundHalfEven (a / ulp a)) * ulp a)%Q.

(** The double nearest to [q]. *)
Definition round64 (q : Q) : number :=
  if Qeq_bool q 0 then Num 0 else
  let r := magnitude (Qabs q) in
  if Qle_bool (pow2 1024) r then (if Qlt_bool q 0 then NInf else PInf)
  else Num (Qred (if Qlt_bool q 0 then - r else r)).

(** The value of a decimal literal: the double nearest to it. *)
Definition double (q : Q) : Q :=
  match round64 q with Num r => r | _ => 0%Q end.

Definition fneg (x : number) : number :=
  match x with
  | Num a => Num (- a)
  | PInf => NInf
  | NInf => PInf
  | NaN => NaN
  end.

(** [x + y]. *)
Definition fadd (x y : number) : number :=
  match x, y with
  | NaN, _ | _, NaN => NaN
  | PInf, NInf | NInf, PInf => NaN
  | PInf, _ | _, PInf => PInf
  | NInf, _ | _, NInf => NInf
  | Num a, Num b => round64 (a + b)
  end.

(** [x - y]. *)
Definition fsub (x y : number) : number := fadd x (fneg y).

(** Whether a number is negative; a zero is not. *)
Definition negative (x : number) : bool :=
  match x with
  | Num a => Qlt_bool a 0
  | NInf => true
  | PInf | NaN => false
  end.

Definition infinity (neg : bool) : number := if neg then NInf else PInf.

(** [x * y]. *)
Definition fmul (x y : number) : number :=
  match x, y with
  | NaN, _ | _, NaN => NaN
  | Num a, Num b => round64 (a * b)
  | Num a, _ | _, Num a =>
      if Qeq_bool a 0 then NaN else infinity (xorb (negative x) (negative y))
  | _, _ => infinity (xorb (negative x) (negative y))
  end.

(** [x / y]. *)
Definition fdiv (x y : number) : number :=
  match x, y with
  | NaN, _ | _, NaN => NaN
  | Num a, Num b =>
      if Qeq_bool b 0 then
        if Qeq_bool a 0 then NaN else infinity (negative x)
      else round64 (a / b)
  | Num _, _ => Num 0
  | _, Num _ => infinity (xorb (negative x) (negative y))
  | _, _ => NaN
  end.

(** [x <= y] and [x < y]; both are false when one side is [NaN]. *)
Definition nleb (x y : number) : bool :=
  match x, y with
  | NaN, _ | _, NaN => false
  | NInf, _ | _, PInf => true
  | _, NInf | PInf, _ => false
  | Num a, Num b => Qle_bool a b
  end.

Definition nltb (x y : number) : bool :=
  match x, y with
  | NaN, _ | _, NaN => false
  | PInf, _ | _, NInf => false
  | NInf, _ | _, PInf => true
  | Num a, Num b => Qlt_bool a b
  end.

(** [Array.prototype.sort] with the comparator [(a, b) => key a - key b]:
    a stable sort by ascending key. *)
Section Sort.
Context {A : Type} (key : A -> Q).

Fixpoint insertSorted (x : A) (l : list A) : list A :=
  match l with
  | [] => [x]
  | y :: l' =>
      if Qle_bool (key x) (key y) then x :: y :: l'
      else y :: insertSorted x l'
  end.

Definition sort (l : list A) : list A := foldr insertSorted [] l.
End Sort.

End JS.

(* ===================================================================== *)
(** ** Data model                                                         *)
(* ===================================================================== *)

(** A reference to an object of a store: its position in the store. *)
Abbreviation ref := nat.

Module TradeRecord.
Record t : Type := mk {
  price : Q;
  volumeBase : Q;
  timestamp : Q;
  trader : option string
}.
End TradeRecord.

Module OrderBookSummary.
Record t : Type := mk {
  market : string;
  asset_id : string;
  timestamp : Q;
  bids : list (Q * Q);
  asks : list (Q * Q);
  hash : string
}.
End OrderBookSummary.

(** [Record<string, OrderBookSummary>]: the keys in insertion order. *)
Abbreviation Orderbook := (list (string * OrderBookSummary.t)).

Module CandleData.
Record t : Type := mk {
  time : number;
  open : Q;
  high : Q;
  low : Q;
  close : Q;
  volume : number
}.
End CandleData.

Module Market.
Record t : Type := mk {
  id : string;
  name : string;
  proportion : Q;
  price : Q;
  category : string;
  remainingHours : number;
  icon : string;
  priceHistory : option (list (list TradeRecord.t));
  orderbook : option Orderbook;
  volume : Q;
  end_ : string;
  position : option string;
  description : option string
}.

Definition set_position (v : string) (m : t) : t :=
  mk (id m) (name m) (proportion m) (price m) (category m) (remainingHours m)
     (icon m) (priceHistory m) (orderbook m) (volume m) (end_ m) (Some v)
     (description m).

Definition set_proportion (v : Q) (m : t) : t :=
  mk (id m) (name m) v (price m) (category m) (remainingHours m)
     (icon m) (priceHistory m) (orderbook m) (volume m) (end_ m) (position m)
     (description m).

Definition set_priceHistory (v : list (list TradeRecord.t)) (m : t) : t :=
  mk (id m) (name m) (proportion m) (price m) (category m) (remainingHours m)
     (icon m) (Some v) (orderbook m) (volume m) (end_ m) (position m)
     (description m).

Definition set_orderbook (v : Orderbook) (m : t) : t :=
  mk (id m) (name m) (proportion m) (price m) (category m) (remainingHours m)
     (icon m) (priceHistory m) (Some v) (volume m) (end_ m) (position m)
     (description m).

Definition set_volume (v : Q) (m : t) : t :=
  mk (id m) (name m) (proportion m) (price m) (category m) (remainingHours m)
     (icon m) (priceHistory m) (orderbook m) v (end_ m) (position m)
     (description m).
End Market.

Module Index.
(** [markets] holds references to Market objects of the store. *)
Record t : Type := mk {
  id : string;
  name : string;
  makrtesIds : list string;
  positionNames : list Z;
  icons : list string;
  avgPrice : Q;
  confilmYield : Q;
  status : string;
  contractAddress : string;
  resolutionTime : string;
  priceChange24h : option string;
  yieldRange : option string;
  yieldLoss : option string;
  markets : option (list ref);
  daysRemaining : option Z;
  volume : option Q;
  marketCap : option Q;
  settlementDate : option string;
  expired : option bool
}.

(** An index definition: the optional fields are absent. *)
Definition define (id name : string) (makrtesIds : list string)
    (positionNames : list Z) (icons : list string) (avgPrice confilmYield : Q)
    (status contractAddress resolutionTime : string) : t :=
  mk id name makrtesIds positionNames icons avgPrice confilmYield status
     contractAddress resolutionTime None None None None None None None None None.
End Index.

Definition predefinedIndexes : list Index.t :=
  [ Index.define "non-viable-candidate" "Non-Viable Candidate Index"
      ["534197"; "534220"; "528716"; "528717"] [2; 2; 2; 2]%Z [""; ""; ""; ""]
      0 0 "Active" "0xC01BbFC94C41F0D8Fc242cFe8465ea4dcD4f20C5" "3 days";
    Index.define "reliable-forecast" "Reliable Forecast Index"
      ["516909"; "514138"; "544924"; "543148"] [1; 1; 1; 1]%Z [""; ""; ""; ""]
      0 0 "Inactive" "0x787dE5d30d327Ed20b3CaE7227f0aEcAcda2852E" "4 days";
    Index.define "90-percent-index" "90% Index of Yes and No"
      ["544924"; "543148"; "528716"; "528717"] [1; 1; 2; 2]%Z [""; ""; ""; ""]
      0 0 "Active" "0x2f583fa67768b4d0c092ce35455202602ec60c76" "3 days";
    Index.define "polynance-ai-random" "Polynance AI Random Select Index"
      ["516960"; "517124"; "520435"; "20789"] [1; 1; 1; 1]%Z [""; ""; ""; ""]
      0 0 "Active" "0x0557EceeAD263249368B07E12e9f6C1FC59878eB" "3 days ";
    Index.define "cos similar 0.7 `Japan`" "Cos Similarity 0.7 Japan"
      ["522638"; "522637"; "517000"; "532750"] [2; 1; 2; 2]%Z [""; ""; ""; ""]
      0 0 "Active" "0xd189321231B8A71493506eC87b959bed191E8f4d" "3 days " ].

(* ===================================================================== *)
(** ** The data provider                                                  *)
(* ===================================================================== *)

(** A position token of an exchange record; [price] is [Number(token.price)],
    [None] when that is [NaN]. *)
Module Token.
Record t : Type := mk { name : string; price : option Q }.
End Token.

(** The fields of the provider's exchange record that the service reads. *)
Module Exchange.
Record t : Type := mk {
  id : string;
  name : string;
  groupItemTitle : option string;
  end_ : string;
  icon : option string;
  position_tokens : list Token.t;
  description : option string
}.
End Exchange.

(** The answers of the provider: a value, or the message of the error it
    throws. *)
Record SDK : Type := {
  getExchange : string -> string -> Exchange.t + string;
  getPriceHistory : string -> string -> list (list TradeRecord.t) + string;
  getOrderbook : string -> string -> Orderbook + string
}.

(* ===================================================================== *)
(** ** The service state and its computations                             *)
(* ===================================================================== *)

(** The four caches of [PolynanceService], the store of Market objects, and
    the number of [Math.random()] calls made so far.  [cachedMarkets] holds
    references: the cache and every index that was built from it share the
    Market object. *)
Record Service : Type := {
  cachedIndexes : gmap string Index.t;
  cachedMarkets : gmap string ref;
  cachedPriceHistories : gmap string (list TradeRecord.t);
  cachedOrderbooks : gmap string Orderbook;
  heap : list Market.t;
  draws : nat
}.

Definition newService : Service :=
  {| cachedIndexes := ∅; cachedMarkets := ∅; cachedPriceHistories := ∅;
     cachedOrderbooks := ∅; heap := []; draws := 0 |}.

(** A computation on the service: a value or the message of a thrown
    [Error], and the state it leaves. *)
Definition M (A : Type) : Type := Service -> (A + string) * Service.

Definition ret {A} (a : A) : M A := fun s => (inl a, s).

Definition throw {A} (e : string) : M A := fun s => (inr e, s).

Definition bind {A B} (m : M A) (k : A -> M B) : M B :=
  fun s => match m s with
           | (inl a, s') => k a s'
           | (inr e, s') => (inr e, s')
           end.

(** [try { m } catch (error) { h error }]. *)
Definition try_catch {A} (m : M A) (h : string -> M A) : M A :=
  fun s => match m s with
           | (inl a, s') => (inl a, s')
           | (inr e, s') => h e s'
           end.

Definition get_state : M Service := fun s => (inl s, s).

Definition modify (f : Service -> Service) : M unit := fun s => (inl tt, f s).

(** An awaited answer of the provider. *)
Definition await {A} (r : A + string) : M A := fun s => (r, s).

Notation "x <- m ;; k" := (bind m (fun x => k))
  (at level 100, m at level 99, right associativity).
Notation "m ;;; k" := (bind m (fun _ => k))
  (at level 100, right associativity).

(** [Math.random()]. *)
Definition Math_random (rt : Runtime) : M Q :=
  fun s => (inl (random rt (draws s)),
            {| cachedIndexes := cachedIndexes s; cachedMarkets := cachedMarkets s;
               cachedPriceHistories := cachedPriceHistories s;
               cachedOrderbooks := cachedOrderbooks s; heap := heap s;
               draws := S (draws s) |}).

Definition set_heap (h : list Market.t) (s : Service) : Service :=
  {| cachedIndexes := cachedIndexes s; cachedMarkets := cachedMarkets s;
     cachedPriceHistories := cachedPriceHistories s;
     cachedOrderbooks := cachedOrderbooks s; heap := h; draws := draws s |}.

Definition set_cachedMarkets (c : gmap string ref) (s : Service) : Service :=
  {| cachedIndexes := cachedIndexes s; cachedMarkets := c;
     cachedPriceHistories := cachedPriceHistories s;
     cachedOrderbooks := cachedOrderbooks s; heap := heap s; draws := draws s |}.

Definition set_cachedOrderbooks (c : gmap string Orderbook) (s : Service) : Service :=
  {| cachedIndexes := cachedIndexes s; cachedMarkets := cachedMarkets s;
     cachedPriceHistories := cachedPriceHistories s;
     cachedOrderbooks := c; heap := heap s; draws := draws s |}.

Definition set_cachedIndexes (c : gmap string Index.t) (s : Service) : Service :=
  {| cachedIndexes := c; cachedMarkets := cachedMarkets s;
     cachedPriceHistories := cachedPriceHistories s;
     cachedOrderbooks := cachedOrderbooks s; heap := heap s; draws := draws s |}.

(** A new Market object. *)
Definition alloc (m : Market.t) : M ref :=
  fun s => (inl (List.length (heap s)), set_heap (heap s ++ [m]) s).

(** An assignment to a field of the Market object [r]. *)
Definition update (r : ref) (f : Market.t -> Market.t) : M unit :=
  modify (fun s => match heap s !! r with
                   | Some m => set_heap (<[r := f m]> (heap s)) s
                   | None => s
                   end).

(** [xs.map((x, i) => f x i)], the callbacks run one after the other in slot
    order; with [async] callbacks, the array of promises awaited by
    [Promise.all]. *)
Fixpoint mapM_i {A B} (f : A -> nat -> M B) (l : list A) (i : nat) : M (list B) :=
  match l with
  | [] => ret []
  | a :: l' =>
      b <- f a i ;;
      bs <- mapM_i f l' (S i) ;;
      ret (b :: bs)
  end.

(* ===================================================================== *)
(** ** PolynanceService                                                   *)
(* ===================================================================== *)

Definition getPredefinedIndex (indexId : string) : option Index.t :=
  List.find (fun index => String.eqb (Index.id index) indexId) predefinedIndexes.

(** [s || d] on an optional string. *)
Definition orString (s : option string) (d : string) : string :=
  match s with
  | Some (String c r) => String c r
  | Some EmptyString | None => d
  end.

Definition getAveragePrice (exchange : Exchange.t) : Q :=
  match Exchange.position_tokens exchange with
  | [] => 0
  | _ :: _ =>
      let totalPrice :=
        foldl (fun sum token =>
                 let price := match Token.price token with
                              | Some p => JS.orZero p
                              | None => 0
                              end in
                 sum + price)
              0 (Exchange.position_tokens exchange) in
      totalPrice / inject_Z (Z.of_nat (List.length (Exchange.position_tokens exchange)))
  end.

(** Neither [new Date(endDateStr)] nor [getTime()] throws: an unparseable
    string gives an invalid date, whose time value is [NaN].  The [catch] of
    the source is never entered. *)
Definition calculateRemainingHours (rt : Runtime) (endDateStr : string) : number :=
  let endDate := match parseDate rt endDateStr with
                 | Some t => Num (inject_Z t)
                 | None => NaN
                 end in
  let diffMs := JS.nadd endDate (Num (- inject_Z (now rt))) in
  JS.max0 (JS.nscale (fun d => d / (1000 * 60 * 60)) diffMs).

Definition getMarket (rt : Runtime) (sdk : SDK) (provider marketId : string) : M ref :=
  try_catch
    (let cacheKey := provider +:+ "-" +:+ marketId in
     s <- get_state ;;
     match cachedMarkets s !! cacheKey with
     | Some market => ret market
     | None =>
         exchange <- await (getExchange sdk provider marketId) ;;
         market <- alloc
           {| Market.id := Exchange.id exchange;
              Market.name := Exchange.name exchange;
              Market.proportion := 1;
              Market.price := getAveragePrice exchange;
              Market.category := orString (Exchange.groupItemTitle exchange) "General";
              Market.remainingHours := calculateRemainingHours rt (Exchange.end_ exchange);
              Market.icon := orString (Exchange.icon exchange) "";
              Market.priceHistory := None;
              Market.orderbook := None;
              Market.volume := 0;
              Market.end_ := Exchange.end_ exchange;
              Market.position :=
                Some (orString (Token.name <$> head (Exchange.position_tokens exchange))
                               "Unknown");
              Market.description := Exchange.description exchange |} ;;
         modify (fun s => set_cachedMarkets (<[cacheKey := market]> (cachedMarkets s)) s) ;;;
         ret market
     end)
    (fun error => throw ("Failed to fetch market " +:+ marketId +:+ ": " +:+ error)).

Definition getMarketPriceHistory (sdk : SDK) (provider marketId : string)
    : M (list (list TradeRecord.t)) :=
  try_catch
    (let cacheKey := provider +:+ "-" +:+ marketId in
     s <- get_state ;;
     match cachedPriceHistories s !! cacheKey with
     | Some cached => ret [cached]
     | None =>
         priceHistory <- await (getPriceHistory sdk provider marketId) ;;
         s <- get_state ;;
         match cachedMarkets s !! cacheKey, priceHistory with
         | Some market, (_ :: _) as first :: _ =>
             let marketVolume :=
               foldl (fun sum trade => sum + JS.orZero (TradeRecord.volumeBase trade))
                     0 first in
             update market (Market.set_volume marketVolume)
         | _, _ => ret tt
         end ;;;
         ret priceHistory
     end)
    (fun error =>
       throw ("Failed to fetch price history for market " +:+ marketId +:+ ": " +:+ error)).

Definition getMarketOrderbook (sdk : SDK) (provider marketId : string) : M Orderbook :=
  try_catch
    (let cacheKey := provider +:+ "-" +:+ marketId in
     s <- get_state ;;
     match cachedOrderbooks s !! cacheKey with
     | Some cached => ret cached
     | None =>
         orderbook <- await (getOrderbook sdk provider marketId) ;;
         modify (fun s => set_cachedOrderbooks (<[cacheKey := orderbook]> (cachedOrderbooks s)) s) ;;;
         ret orderbook
     end)
    (fun error =>
       throw ("Failed to fetch orderbook for market " +:+ marketId +:+ ": " +:+ error)).

(** [positionType === 1 ? "YES" : "NO"]; the code of a slot without one is
    [undefined]. *)
Definition positionOf (positionType : option Z) : string :=
  match positionType with
  | Some 1%Z => "YES"
  | _ => "NO"
  end.

Definition isYes (positionType : option Z) : bool :=
  match positionType with
  | Some 1%Z => true
  | _ => false
  end.

(** The Market that [createFallbackMarket] builds out of four random
    numbers. *)
Definition fallbackMarket (rt : Runtime) (marketId : string) (totalMarkets : nat)
    (positionType : option Z) (p h v e : Q) : Market.t :=
  {| Market.id := marketId;
     Market.name := "Market " +:+ marketId;
     Market.proportion := 1 / inject_Z (Z.of_nat totalMarkets);
     Market.price := 0.7 + p * 0.25;
     Market.category := "Unknown";
     Market.remainingHours := Num (inject_Z (Qfloor (h * 72)));
     Market.icon := "";
     Market.priceHistory := Some [];
     Market.orderbook := Some [];
     Market.volume := v * 1000000;
     Market.end_ := toISOString rt (Qred (inject_Z (now rt) + e * 86400000 * 7));
     Market.position := Some (positionOf positionType);
     Market.description := None |}.

Definition createFallbackMarket (rt : Runtime) (marketId : string) (index totalMarkets : nat)
    (positionType : option Z) : M ref :=
  p <- Math_random rt ;;
  h <- Math_random rt ;;
  v <- Math_random rt ;;
  e <- Math_random rt ;;
  alloc (fallbackMarket rt marketId totalMarkets positionType p h v e).

(** [Number.parseInt(s)] in base ten: white space, a sign, digits; [None] is
    [NaN]. *)
Fixpoint skipSpaces (s : string) : string :=
  match s with
  | String c s' =>
      let n := nat_of_ascii c in
      if (n =? 32)%nat || ((9 <=? n)%nat && (n <=? 13)%nat) then skipSpaces s' else s
  | EmptyString => s
  end.

Definition parseInt (s : string) : option Z :=
  let s := skipSpaces s in
  let '(neg, s) := match s with
                   | String "-" s' => (true, s')
                   | String "+" s' => (false, s')
                   | _ => (false, s)
                   end in
  match fst (JS.spanDigits s) with
  | EmptyString => None
  | d => Some (if neg : bool then - JS.digitsValue 0 d else JS.digitsValue 0 d)%Z
  end.

(** The Market objects that [index.markets] refers to. *)
Definition marketsOf (s : Service) (index : Index.t) : list Market.t :=
  match Index.markets index with
  | Some refs => omap (fun r => heap s !! r) refs
  | None => []
  end.

Definition createFallbackIndex (rt : Runtime) (indexId : string) : M Index.t :=
  match getPredefinedIndex indexId with
  | None => throw ("Index with ID " +:+ indexId +:+ " not found")
  | Some index =>
      r1 <- Math_random rt ;;
      let avgPrice := 0.75 + r1 * 0.2 in
      r2 <- Math_random rt ;;
      r3 <- Math_random rt ;;
      let priceChange24h :=
        if JS.Qlt_bool 0.5 r2 then "+" +:+ JS.toFixed rt 2 (r3 * 5) +:+ "%"
        else "-" +:+ JS.toFixed rt 2 (r3 * 3) +:+ "%" in
      r4 <- Math_random rt ;;
      let yieldRange := "+" +:+ JS.toFixed rt 1 (5 + r4 * 5) +:+ "%" in
      r5 <- Math_random rt ;;
      let yieldLoss := "-" +:+ JS.toFixed rt 1 (2 + r5 * 3) +:+ "%" in
      r6 <- Math_random rt ;;
      let volume := r6 * 10 in
      let daysRemaining := match parseInt (Index.resolutionTime index) with
                           | Some 0%Z | None => 3%Z
                           | Some d => d
                           end in
      let expired := String.eqb (JS.toLowerCase (Index.status index)) "inactive" in
      let settlementDate := settlementDateString rt daysRemaining in
      markets <- mapM_i (fun marketId i =>
                           createFallbackMarket rt marketId i
                             (List.length (Index.makrtesIds index))
                             (Index.positionNames index !! i))
                        (Index.makrtesIds index) 0 ;;
      ret (Index.mk (Index.id index) (Index.name index) (Index.makrtesIds index)
             (Index.positionNames index) (Index.icons index) avgPrice
             (Index.confilmYield index) (Index.status index)
             (Index.contractAddress index) (Index.resolutionTime index)
             (Some priceChange24h) (Some yieldRange) (Some yieldLoss) (Some markets)
             (Some daysRemaining) (Some volume) (Index.marketCap index)
             (Some settlementDate) (Some expired))
  end.

(** [l.length > 0]. *)
Definition nonEmpty {A} (l : list A) : bool :=
  match l with [] => false | _ :: _ => true end.

(** One step of the [forEach] that accumulates [yieldValue], in binary64. *)
Definition addYield (yieldValue : number) (positionType : option Z) (price : Q) : number :=
  if isYes positionType && JS.Qlt_bool 0 price
  then JS.fadd yieldValue
         (JS.fmul (JS.fsub (JS.fdiv (Num 1) (Num price)) (Num 1)) (Num 100))
  else if negb (isYes positionType) && JS.Qlt_bool price 1
  then JS.fadd yieldValue
         (JS.fmul (JS.fsub (JS.fdiv (Num 1) (JS.fsub (Num 1) (Num price))) (Num 1))
                  (Num 100))
  else yieldValue.

Fixpoint yieldLoop (positionNames : list Z) (markets : list Market.t) (i : nat)
    (yieldValue : number) : number :=
  match markets with
  | [] => yieldValue
  | market :: rest =>
      yieldLoop positionNames rest (S i)
        (addYield yieldValue (positionNames !! i) (Market.price market))
  end.

(** One step of the [forEach] that accumulates [priceChange] and
    [validMarkets]. *)
Definition addPriceChange (acc : number * nat) (market : Market.t) : number * nat :=
  match Market.priceHistory market with
  | Some ((first :: _ :: _) as history :: _) =>
      let oldestPrice := TradeRecord.price first in
      let latestPrice := TradeRecord.price (List.last history first) in
      let marketChange := JS.qdiv (latestPrice - oldestPrice) oldestPrice in
      (JS.nadd (fst acc) marketChange, S (snd acc))
  | _ => acc
  end.

(** The block of [calculateIndexFields] that sets [priceChange24h]. *)
Definition priceChange24hOf (rt : Runtime) (index : Index.t) (markets : list Market.t)
    : M (option string) :=
  if nonEmpty markets then
    let '(priceChange, validMarkets) := foldl addPriceChange (Num 0, 0%nat) markets in
    match validMarkets with
    | S _ =>
        let avgPriceChange :=
          JS.nscale (fun x => x / inject_Z (Z.of_nat validMarkets)) priceChange in
        ret (Some ((if JS.nge0 avgPriceChange then "+" else "")
                   +:+ JS.toFixedN rt 2 (JS.nscale (fun x => x * 100) avgPriceChange)
                   +:+ "%"))
    | O =>
        r <- Math_random rt ;;
        let change := JS.toFixed rt 2 (r * 0.1 - 0.05) in
        ret (Some (if JS.startsWith "-" change then change +:+ "%"
                   else "+" +:+ change +:+ "%"))
    end
  else ret (Index.priceChange24h index).

Definition calculateIndexFields (rt : Runtime) (index : Index.t) : M Index.t :=
  s <- get_state ;;
  let markets := marketsOf s index in
  let count := inject_Z (Z.of_nat (List.length markets)) in
  let hasMarkets := nonEmpty markets in
  let daysRemaining := match JS.matchDays (Index.resolutionTime index) with
                       | Some d => JS.digitsValue 0 d
                       | None => 0%Z
                       end in
  let expired := String.eqb (JS.toLowerCase (Index.status index)) "inactive" in
  let settlementDate := settlementDateString rt daysRemaining in
  let avgPrice :=
    if hasMarkets
    then JS.toFixedValue 2 (foldl (fun sum market => sum + Market.price market) 0 markets / count)
    else Index.avgPrice index in
  let volume :=
    if hasMarkets
    then Some (JS.toFixedValue 2
                 (foldl (fun sum market => sum + Market.volume market) 0 markets / 1000000))
    else Index.volume index in
  priceChange24h <- priceChange24hOf rt index markets ;;
  if negb expired then
    let yieldValue :=
      JS.fdiv (yieldLoop (Index.positionNames index) markets 0 (Num 0)) (Num count) in
    let lossValue := JS.fmul yieldValue (Num 0.5) in
    let yieldRange := if hasMarkets then "+" +:+ JS.toFixedN rt 1 yieldValue +:+ "%" else "+7.5%" in
    let yieldLoss := if hasMarkets then "-" +:+ JS.toFixedN rt 1 lossValue +:+ "%" else "-3.2%" in
    let marketCap := match volume with
                     | Some v => if Qeq_bool v 0 then 0 else v * 2
                     | None => 0
                     end in
    ret (Index.mk (Index.id index) (Index.name index) (Index.makrtesIds index)
           (Index.positionNames index) (Index.icons index) avgPrice
           (Index.confilmYield index) (Index.status index)
           (Index.contractAddress index) (Index.resolutionTime index)
           priceChange24h (Some yieldRange) (Some yieldLoss) (Index.markets index)
           (Some daysRemaining) volume (Some marketCap) (Some settlementDate)
           (Some expired))
  else
    let confilmYield :=
      if Qeq_bool (Index.confilmYield index) 0 then 8.5 else Index.confilmYield index in
    ret (Index.mk (Index.id index) (Index.name index) (Index.makrtesIds index)
           (Index.positionNames index) (Index.icons index) avgPrice
           confilmYield (Index.status index)
           (Index.contractAddress index) (Index.resolutionTime index)
           (Some "+0.00%")
           (Some ("+" +:+ numberToString rt (Qred confilmYield) +:+ "%"))
           (Index.yieldLoss index) (Index.markets index)
           (Some daysRemaining) (Some 0.05) (Some 0.1) (Some settlementDate)
           (Some expired)).

(** The [try] block of the callback of [index.makrtesIds.map] in
    [getIndexWithData]. *)
Definition fetchMarketData (rt : Runtime) (sdk : SDK) (index : Index.t)
    (marketId : string) (i : nat) : M ref :=
  market <- getMarket rt sdk "polymarket" marketId ;;
  update market (Market.set_position (positionOf (Index.positionNames index !! i))) ;;;
  update market (Market.set_proportion
                   (1 / inject_Z (Z.of_nat (List.length (Index.makrtesIds index))))) ;;;
  priceHistory <- getMarketPriceHistory sdk "polymarket" marketId ;;
  update market (Market.set_priceHistory priceHistory) ;;;
  orderbook <- getMarketOrderbook sdk "polymarket" marketId ;;
  update market (Market.set_orderbook orderbook) ;;;
  ret market.

(** The callback: the [try] block, and the fallback market of its [catch]. *)
Definition fetchConstituent (rt : Runtime) (sdk : SDK) (index : Index.t)
    (marketId : string) (i : nat) : M ref :=
  try_catch
    (fetchMarketData rt sdk index marketId i)
    (fun error =>
       createFallbackMarket rt marketId i (List.length (Index.makrtesIds index))
         (Index.positionNames index !! i)).

Definition set_markets (markets : list ref) (index : Index.t) : Index.t :=
  Index.mk (Index.id index) (Index.name index) (Index.makrtesIds index)
    (Index.positionNames index) (Index.icons index) (Index.avgPrice index)
    (Index.confilmYield index) (Index.status index)
    (Index.contractAddress index) (Index.resolutionTime index)
    (Index.priceChange24h index) (Index.yieldRange index) (Index.yieldLoss index)
    (Some markets) (Index.daysRemaining index) (Index.volume index)
    (Index.marketCap index) (Index.settlementDate index) (Index.expired index).

Definition getIndexWithData (rt : Runtime) (sdk : SDK) (indexId : string) : M Index.t :=
  try_catch
    (s <- get_state ;;
     match cachedIndexes s !! indexId with
     | Some cached => ret cached
     | None =>
         match getPredefinedIndex indexId with
         | None => throw ("Index with ID " +:+ indexId +:+ " not found")
         | Some predefinedIndex =>
             let index := predefinedIndex in
             markets <- mapM_i (fetchConstituent rt sdk index) (Index.makrtesIds index) 0 ;;
             let index := set_markets markets index in
             index <- calculateIndexFields rt index ;;
             modify (fun s => set_cachedIndexes (<[indexId := index]> (cachedIndexes s)) s) ;;;
             ret index
         end
     end)
    (fun error => createFallbackIndex rt indexId).

(** The body of the loop [for (let i = days; i >= 0; i--)] of
    [generateMockPriceHistory], from [i] down to [0]. *)
Fixpoint mockLoop (rt : Runtime) (nowS : Z) (i : nat) (price : Q)
    (mockData : list TradeRecord.t) : M (list TradeRecord.t) :=
  r1 <- Math_random rt ;;
  let change := r1 * 0.06 - 0.03 in
  let price := Qmax 0.5 (Qmin 0.99 (price + price * change)) in
  r2 <- Math_random rt ;;
  r3 <- Math_random rt ;;
  let mockData :=
    mockData ++
    [ {| TradeRecord.price := price;
         TradeRecord.volumeBase := r2 * 10000;
         TradeRecord.timestamp := inject_Z (nowS - Z.of_nat i * 86400);
         TradeRecord.trader := Some ("0x" +:+ hexTag rt (Qred r3)) |} ] in
  match i with
  | O => ret mockData
  | S i' => mockLoop rt nowS i' price mockData
  end.

Definition generateMockPriceHistory (rt : Runtime) (days : nat) : M (list TradeRecord.t) :=
  let nowS := (now rt / 1000)%Z in
  r0 <- Math_random rt ;;
  mockLoop rt nowS days (0.75 + r0 * 0.2) [].

(** The record that [getIndexPriceHistory] pushes for [record], with the
    random number [r] in its trader tag. *)
Definition tagRecord (rt : Runtime) (r : Q) (record : TradeRecord.t) : TradeRecord.t :=
  {| TradeRecord.price := TradeRecord.price record;
     TradeRecord.volumeBase := JS.orZero (TradeRecord.volumeBase record);
     TradeRecord.timestamp := TradeRecord.timestamp record;
     TradeRecord.trader := Some ("0x" +:+ hexTag rt (Qred r)) |}.

(** [positionHistory.forEach(record => allRecords.push({...}))]: the fields
    of a trade record are numbers, the test of the source always passes. *)
Fixpoint pushRecords (rt : Runtime) (positionHistory allRecords : list TradeRecord.t)
    : M (list TradeRecord.t) :=
  match positionHistory with
  | [] => ret allRecords
  | record :: rest =>
      r <- Math_random rt ;;
      pushRecords rt rest (allRecords ++ [tagRecord rt r record])
  end.

(** The trade array that [getIndexPriceHistory] reads from one market:
    nothing unless the first array of [priceHistory] has a record; else the
    array of the position side, the first array when that one is missing. *)
Definition positionHistoryOf (positionType : option Z) (market : Market.t)
    : list TradeRecord.t :=
  match Market.priceHistory market with
  | Some (((_ :: _) as first :: _) as priceHistory) =>
      let positionIndex := if isYes positionType then 0%nat else 1%nat in
      match priceHistory !! positionIndex with
      | Some positionHistory => positionHistory
      | None => first
      end
  | _ => []
  end.

(** [index.markets.forEach((market, i) => ...)] of [getIndexPriceHistory]. *)
Fixpoint collectRecords (rt : Runtime) (positionNames : list Z) (markets : list Market.t)
    (i : nat) (allRecords : list TradeRecord.t) : M (list TradeRecord.t) :=
  match markets with
  | [] => ret allRecords
  | market :: rest =>
      allRecords <- pushRecords rt (positionHistoryOf (positionNames !! i) market) allRecords ;;
      collectRecords rt positionNames rest (S i) allRecords
  end.

Definition getIndexPriceHistory (rt : Runtime) (index : Index.t) : M (list TradeRecord.t) :=
  s <- get_state ;;
  match marketsOf s index with
  | [] => generateMockPriceHistory rt 30
  | _ :: _ =>
      allRecords <- collectRecords rt (Index.positionNames index) (marketsOf s index) 0 [] ;;
      match allRecords with
      | [] => generateMockPriceHistory rt 30
      | _ :: _ => ret (JS.sort TradeRecord.timestamp allRecords)
      end
  end.

(* ===================================================================== *)
(** ** Candles                                                            *)
(* ===================================================================== *)

(** The arrays of trade records that exist, by reference: [sort] works in
    place on the array it is called on. *)
Abbreviation Arrays := (list (list TradeRecord.t)).

(** [[...a]]: a new array with the elements of [a]. *)
Definition spread (a : ref) (arrays : Arrays) : ref * Arrays :=
  (List.length arrays, arrays ++ [default [] (arrays !! a)]).

(** [a.sort((x, y) => x.timestamp - y.timestamp)]. *)
Definition sortInPlace (a : ref) (arrays : Arrays) : Arrays :=
  match arrays !! a with
  | Some l => <[a := JS.sort TradeRecord.timestamp l]> arrays
  | None => arrays
  end.

(** [Math.max(...xs)] and [Math.min(...xs)] of a non-empty array. *)
Definition maxOf (x : Q) (xs : list Q) : Q := foldl Qmax x xs.
Definition minOf (x : Q) (xs : list Q) : Q := foldl Qmin x xs.

(** [record.timestamp * 1000]. *)
Definition msOf (record : TradeRecord.t) : number :=
  JS.fmul (Num (TradeRecord.timestamp record)) (Num 1000).

(** [intervalHours * 60 * 60 * 1000]. *)
Definition intervalMsOf (intervalHours : Q) : number :=
  JS.fmul (JS.fmul (JS.fmul (Num intervalHours) (Num 60)) (Num 60)) (Num 1000).

(** The records of the interval that starts at [time], in milliseconds. *)
Definition intervalRecordsOf (sortedRecords : list TradeRecord.t) (intervalMs time : number)
    : list TradeRecord.t :=
  let candleStart := time in
  let candleEnd := JS.fadd time intervalMs in
  List.filter
    (fun record => JS.nleb candleStart (msOf record) && JS.nltb (msOf record) candleEnd)
    sortedRecords.

(** The candle of a non-empty interval. *)
Definition candleOf (time : number) (first : TradeRecord.t) (others : list TradeRecord.t)
    : CandleData.t :=
  let intervalRecords := first :: others in
  {| CandleData.time := JS.fdiv time (Num 1000);
     CandleData.open := TradeRecord.price first;
     CandleData.high := maxOf (TradeRecord.price first) (map TradeRecord.price others);
     CandleData.low := minOf (TradeRecord.price first) (map TradeRecord.price others);
     CandleData.close := TradeRecord.price (List.last intervalRecords first);
     CandleData.volume :=
       foldl (fun sum r => JS.fadd sum (Num (JS.orZero (TradeRecord.volumeBase r))))
             (Num 0) intervalRecords |}.

(** The loop [for (let time = startTime; time <= endTime; time += intervalMs)]
    with at most [fuel] rounds; [None] when they do not suffice. *)
Fixpoint candleLoop (fuel : nat) (sortedRecords : list TradeRecord.t)
    (intervalMs endTime time : number) (candles : list CandleData.t)
    : option (list CandleData.t) :=
  if JS.nleb time endTime then
    match fuel with
    | O => None
    | S fuel' =>
        let candles :=
          match intervalRecordsOf sortedRecords intervalMs time with
          | first :: others => candles ++ [candleOf time first others]
          | [] => candles
          end in
        candleLoop fuel' sortedRecords intervalMs endTime (JS.fadd time intervalMs) candles
    end
  else Some candles.

(** [generateCandleData(tradeRecords, intervalHours)] on the array
    [tradeRecords], its loop run for at most [fuel] rounds; the result is
    [None] when the loop has not ended by then. *)
Definition generateCandleData (fuel : nat) (tradeRecords : ref) (intervalHours : Q)
    (arrays : Arrays) : option (list CandleData.t) * Arrays :=
  match arrays !! tradeRecords with
  | None | Some [] => (Some [], arrays)
  | Some (_ :: _) =>
      let intervalMs := intervalMsOf intervalHours in
      let '(copy, arrays) := spread tradeRecords arrays in
      let arrays := sortInPlace copy arrays in
      match arrays !! copy with
      | Some ((first :: _) as sortedRecords) =>
          let startTime := msOf first in
          let endTime := msOf (List.last sortedRecords first) in
          (candleLoop fuel sortedRecords intervalMs endTime startTime [], arrays)
      | _ => (Some [], arrays)
      end
  end.

(* ===================================================================== *)
(** ** Concrete data for the examples                                     *)
(* ===================================================================== *)

(** A runtime whose clock stands at 2023-11-14T22:13:20Z, whose random
    numbers are all [1/2], and whose [Date] parses one ISO string. *)
Definition exampleRuntime : Runtime :=
  {| random := fun _ => 0.5;
     now := 1700000000000;
     parseDate := fun s => if String.eqb s "2023-11-15T00:00:00.000Z"
                           then Some 1700006400000%Z else None;
     settlementDateString := fun d => "day+" +:+ JS.digits d;
     toISOString := fun _ => "2023-11-18T10:13:20.000Z";
     numberToString := fun q => JS.digits (Qfloor q);
     hexTag := fun _ => "80000000" |}.

Definition trade (price volumeBase timestamp : Q) : TradeRecord.t :=
  TradeRecord.mk price volumeBase timestamp None.

(** A provider that answers every request. *)
Definition exampleSDK (volume : Q) : SDK :=
  {| getExchange := fun _ marketId =>
       inl (Exchange.mk marketId ("Market " +:+ marketId) None
              "2023-11-15T00:00:00.000Z" None
              [Token.mk "Yes" (Some 0.8); Token.mk "No" (Some 0.2)] None);
     getPriceHistory := fun _ _ =>
       inl [[trade 0.5 volume 1; trade 0.6 volume 3]; [trade 0.4 5 2]];
     getOrderbook := fun _ _ => inl [] |}.

(** A provider that fails every request. *)
Definition failingSDK : SDK :=
  {| getExchange := fun _ _ => inr "network error";
     getPriceHistory := fun _ _ => inr "network error";
     getOrderbook := fun _ _ => inr "network error" |}.

(* ===================================================================== *)
(** ** Specifications of computations on the service                      *)
(* ===================================================================== *)

(** [triple P m Q E]: from a state with [P], the computation [m] ends in a
    state with [Q a] when it returns [a], and with [E] when it throws. *)
Definition triple {A} (P : Service -> Prop) (m : M A)
    (Q : A -> Service -> Prop) (E : Service -> Prop) : Prop :=
  forall s, P s ->
    match m s with
    | (inl a, s') => Q a s'
    | (inr _, s') => E s'
    end.

(** [keeps I m]: the computation [m] keeps [I], whether it returns or
    throws. *)
Definition keeps {A} (I : Service -> Prop) (m : M A) : Prop :=
  triple I m (fun _ => I) I.

(** An invariant that does not read the store of Market objects or the count
    of random draws is kept by the steps that only write those. *)
Definition caches_only (I : Service -> Prop) : Prop :=
  forall s h d,
    I s ->
    I {| cachedIndexes := cachedIndexes s; cachedMarkets := cachedMarkets s;
         cachedPriceHistories := cachedPriceHistories s;
         cachedOrderbooks := cachedOrderbooks s; heap := h; draws := d |}.

(** The order of an array sorted by ascending [key]. *)
Definition ascending {A} (key : A -> Q) : A -> A -> Prop :=
  fun a b => (key a <= key b)%Q.

(** *** Buckets and their candles, in the words of the specification *)

(** The start, in milliseconds, of the [k]-th bucket: the first one starts at
    the first timestamp, and each next one where the one before ends, its
    start plus the width. *)
Definition timeAt (startTime intervalMs : number) (k : nat) : number :=
  Nat.iter k (fun time => JS.fadd time intervalMs) startTime.

(** The loop of [generateCandleData] makes [n] rounds: its variable is at or
    before [endTime] when each of them starts, and is not after them. *)
Definition endsAfter (startTime intervalMs endTime : number) (n : nat) : Prop :=
  (forall k, (k < n)%nat -> JS.nleb (timeAt startTime intervalMs k) endTime = true) /\
  JS.nleb (timeAt startTime intervalMs n) endTime = false.

(** The trades of the [k]-th bucket, in the order of the series. *)
Definition bucketOf (series : list TradeRecord.t) (startTime intervalMs : number) (k : nat)
    : list TradeRecord.t :=
  List.filter
    (fun r =>
       JS.nleb (timeAt startTime intervalMs k) (msOf r)
       && JS.nltb (msOf r) (timeAt startTime intervalMs (S k)))
    series.

(** [c] is the candle of the [k]-th bucket: the bucket has a trade, and [c]
    opens at its first price, closes at its last, has its highest and lowest
    price and the sum of its volumes, added up in order, and starts where
    the bucket does, in seconds. *)
Definition candleOfBucket (series : list TradeRecord.t) (startTime intervalMs : number)
    (k : nat) (c : CandleData.t) : Prop :=
  exists first others,
    bucketOf series startTime intervalMs k = first :: others /\
    let prices := map TradeRecord.price (first :: others) in
    CandleData.time c = JS.fdiv (timeAt startTime intervalMs k) (Num 1000) /\
    CandleData.open c = TradeRecord.price first /\
    CandleData.close c = TradeRecord.price (List.last (first :: others) first) /\
    (In (CandleData.high c) prices /\ Forall (fun p => (p <= CandleData.high c)%Q) prices) /\
    (In (CandleData.low c) prices /\ Forall (fun p => (CandleData.low c <= p)%Q) prices) /\
    CandleData.volume c
    = foldl (fun sum r => JS.fadd sum (Num (JS.orZero (TradeRecord.volumeBase r))))
            (Num 0) (first :: others).

(** The candle, if any, that the round of the loop at [time] pushes. *)
Definition candlesAt (sortedRecords : list TradeRecord.t) (intervalMs time : number)
    : list CandleData.t :=
  match intervalRecordsOf sortedRecords intervalMs time with
  | first :: others => [candleOf time first others]
  | [] => []
  end.

(** Three trades of one array, not in time order. *)
Definition exampleTrades : Arrays :=
  [[trade 0.5 10 3600; trade 0.6 20 0; trade 0.7 1 36000]].

(** *** The yield of an index, in the words of the specification *)

(** The yield that one constituent contributes, if any: a YES constituent
    with a positive price, a NO constituent with a price below one. *)
Definition yieldContribution (positionType : option Z) (price : Q) : option number :=
  if isYes positionType then
    if JS.Qlt_bool 0 price
    then Some (JS.fmul (JS.fsub (JS.fdiv (Num 1) (Num price)) (Num 1)) (Num 100))
    else None
  else
    if JS.Qlt_bool price 1
    then Some (JS.fmul (JS.fsub (JS.fdiv (Num 1) (JS.fsub (Num 1) (Num price))) (Num 1))
                       (Num 100))
    else None.

(** The contributions of the constituents from slot [i] on, in slot order. *)
Fixpoint yieldContributions (positionNames : list Z) (markets : list Market.t) (i : nat)
    : list number :=
  match markets with
  | [] => []
  | market :: rest =>
      match yieldContribution (positionNames !! i) (Market.price market) with
      | Some c => c :: yieldContributions positionNames rest (S i)
      | None => yieldContributions positionNames rest (S i)
      end
  end.

(** The sum of numbers, added up in order. *)
Definition sumOf (l : list number) : number := foldl JS.fadd (Num 0) l.

(** Scenario A of the specification: two constituents, YES at [0.80] and NO
    at [0.30]. *)
Definition scenarioMarket (id : string) (price : Q) : Market.t :=
  {| Market.id := id; Market.name := "Market " +:+ id; Market.proportion := 0.5;
     Market.price := price; Market.category := "General";
     Market.remainingHours := Num 24; Market.icon := "";
     Market.priceHistory := Some []; Market.orderbook := Some [];
     Market.volume := 0; Market.end_ := "2023-11-15T00:00:00.000Z";
     Market.position := None; Market.description := None |}.

Definition scenarioA : Service :=
  set_heap [scenarioMarket "a" (JS.double 0.80); scenarioMarket "b" (JS.double 0.30)]
    newService.

Definition scenarioAIndex : Index.t :=
  set_markets [0%nat; 1%nat]
    (Index.define "scenario-a" "Scenario A" ["a"; "b"] [1; 2]%Z [""; ""] 0 0
       "Active" "0x0" "3 days").

(** Three constituents, NO at [0.64], YES at [0.18] and YES at [0.96]. *)
Definition scenarioC : Service :=
  set_heap [scenarioMarket "a" (JS.double 0.64); scenarioMarket "b" (JS.double 0.18);
            scenarioMarket "c" (JS.double 0.96)]
    newService.

Definition scenarioCIndex : Index.t :=
  set_markets [0%nat; 1%nat; 2%nat]
    (Index.define "scenario-c" "Scenario C" ["a"; "b"; "c"] [2; 1; 1]%Z [""; ""; ""] 0 0
       "Active" "0x0" "3 days").

(** *** The combined series, in the words of the specification *)

(** The state after [n] more calls of [Math.random()]. *)
Definition advance (n : nat) (s : Service) : Service :=
  {| cachedIndexes := cachedIndexes s; cachedMarkets := cachedMarkets s;
     cachedPriceHistories := cachedPriceHistories s;
     cachedOrderbooks := cachedOrderbooks s; heap := heap s;
     draws := (n + draws s)%nat |}.

(** The records of [l], each with the trader tag of the next random number,
    from the [d]-th on. *)
Fixpoint tagAll (rt : Runtime) (d : nat) (l : list TradeRecord.t) : list TradeRecord.t :=
  match l with
  | [] => []
  | record :: rest => tagRecord rt (random rt d) record :: tagAll rt (S d) rest
  end.

(** The trades that the constituents from slot [i] on contribute, in slot
    order: for each one the array that [positionHistoryOf] selects. *)
Fixpoint selectedTrades (positionNames : list Z) (markets : list Market.t) (i : nat)
    : list TradeRecord.t :=
  match markets with
  | [] => []
  | market :: rest =>
      positionHistoryOf (positionNames !! i) market
      ++ selectedTrades positionNames rest (S i)
  end.

(** A trade record without its trader tag. *)
Definition untag (record : TradeRecord.t) : TradeRecord.t :=
  TradeRecord.mk (TradeRecord.price record) (TradeRecord.volumeBase record)
    (TradeRecord.timestamp record) None.

(** The trade array of the position side as the specification words it: the
    first array for code [1], the second for any other code, the first when
    the selected one is absent; nothing when there is no price history. *)
Definition sideOf (positionType : option Z) (market : Market.t) : list TradeRecord.t :=
  match Market.priceHistory market with
  | Some priceHistory =>
      match priceHistory !! (if isYes positionType then 0%nat else 1%nat) with
      | Some side => side
      | None => default [] (priceHistory !! 0%nat)
      end
  | None => []
  end.

Fixpoint sideTrades (positionNames : list Z) (markets : list Market.t) (i : nat)
    : list TradeRecord.t :=
  match markets with
  | [] => []
  | market :: rest =>
      sideOf (positionNames !! i) market ++ sideTrades positionNames rest (S i)
  end.

(** [market.priceHistory[0]?.length > 0]: the market has a price history
    whose first array has a trade. *)
Definition hasFirstTrades (market : Market.t) : bool :=
  match Market.priceHistory market with
  | Some ((_ :: _) :: _) => true
  | _ => false
  end.

(** The combined series of the constituents from slot [i] on: for each
    market whose first array has a trade, the array of its position side. *)
Fixpoint guardedSideTrades (positionNames : list Z) (markets : list Market.t) (i : nat)
    : list TradeRecord.t :=
  match markets with
  | [] => []
  | market :: rest =>
      (if hasFirstTrades market then sideOf (positionNames !! i) market else [])
      ++ guardedSideTrades positionNames rest (S i)
  end.

(** A trade as [getIndexPriceHistory] copies it, before the trader tag:
    [volumeBase || 0], and no trader. *)
Definition copied (record : TradeRecord.t) : TradeRecord.t :=
  TradeRecord.mk (TradeRecord.price record) (JS.orZero (TradeRecord.volumeBase record))
    (TradeRecord.timestamp record) None.

(** [r] carries a trader tag made of a random number. *)
Definition tagged (rt : Runtime) (r : TradeRecord.t) : Prop :=
  exists k, TradeRecord.trader r = Some ("0x" +:+ hexTag rt (Qred (random rt k))).

(** An index of one NO constituent whose price history has no trade on the
    first side and one on the second. *)
Definition oneSided : Service :=
  set_heap
    [ Market.set_priceHistory [[]; [trade 0.45 1 4]] (scenarioMarket "b" 0.30) ]
    newService.

Definition oneSidedIndex : Index.t :=
  set_markets [0%nat]
    (Index.define "one-sided" "One sided" ["b"] [2]%Z [""] 0 0 "Active" "0x0" "3 days").

(** Scenario B of the specification: A (YES) traded at times 1 and 3 on the
    first side, B (NO) at time 2 on the first and at time 4 on the second. *)
Definition scenarioB : Service :=
  set_heap
    [ Market.set_priceHistory [[trade 0.5 1 1; trade 0.6 1 3]; []] (scenarioMarket "a" 0.5);
      Market.set_priceHistory [[trade 0.4 1 2]; [trade 0.45 1 4]] (scenarioMarket "b" 0.4) ]
    newService.

Definition scenarioBIndex : Index.t :=
  set_markets [0%nat; 1%nat]
    (Index.define "scenario-b" "Scenario B" ["a"; "b"] [1; 2]%Z [""; ""] 0 0
       "Active" "0x0" "3 days").

(** *** The frame of a resolution *)

(** [touched s0 keys r]: in the state [s0] the market cache holds the Market
    object [r] under one of the keys [keys]. *)
Definition touched (s0 : Service) (keys : string -> Prop) (r : ref) : Prop :=
  exists k, keys k /\ cachedMarkets s0 !! k = Some r.

(** [within s0 keys r]: the object [r] is one that a resolution started in
    [s0] may write: it is [touched], or it did not exist in [s0]. *)
Definition within (s0 : Service) (keys : string -> Prop) (r : ref) : Prop :=
  touched s0 keys r \/ (List.length (heap s0) <= r)%nat.

(** [Frame s0 keys s]: what a resolution that started in [s0] and works on
    the cache keys [keys] has kept up to [s]: the Market objects of [s0]
    still exist; those that are not [touched] are as they were; every entry
    of the market cache is an entry of [s0] or refers to a new object; the
    index cache is as it was. *)
Record Frame (s0 : Service) (keys : string -> Prop) (s : Service) : Prop := {
  frame_length : (List.length (heap s0) <= List.length (heap s))%nat;
  frame_heap : forall r, (r < List.length (heap s0))%nat -> ~ touched s0 keys r ->
               heap s !! r = heap s0 !! r;
  frame_markets : forall k r, cachedMarkets s !! k = Some r ->
                  cachedMarkets s0 !! k = Some r \/ (List.length (heap s0) <= r)%nat;
  frame_indexes : cachedIndexes s = cachedIndexes s0
}.


(** *** Failing fetches and fallback markets *)

(** The fetch of the constituent [marketId] fails in the state [s]: its
    market, its price history or its order book is not in the cache and the
    provider fails to deliver it.  These are the three calls of the [try]
    block that can throw. *)
Definition fetchFails (sdk : SDK) (s : Service) (marketId : string) : Prop :=
  let cacheKey := "polymarket" +:+ "-" +:+ marketId in
  (cachedMarkets s !! cacheKey = None /\
   exists e, getExchange sdk "polymarket" marketId = inr e) \/
  (cachedPriceHistories s !! cacheKey = None /\
   exists e, getPriceHistory sdk "polymarket" marketId = inr e) \/
  (cachedOrderbooks s !! cacheKey = None /\
   exists e, getOrderbook sdk "polymarket" marketId = inr e).

(** Every reference that the market cache holds is to a Market object that
    exists. *)
Definition wellFormed (s : Service) : Prop :=
  forall k r, cachedMarkets s !! k = Some r -> (r < List.length (heap s))%nat.

(** The object [r] is the Market [market], and the market cache does not
    refer to it. *)
Definition unshared (r : ref) (market : Market.t) (s : Service) : Prop :=
  heap s !! r = Some market /\ forall k, cachedMarkets s !! k <> Some r.

(** A provider that delivers the markets and the order books, and fails to
    deliver any price history. *)
Definition historylessSDK : SDK :=
  {| getExchange := getExchange (exampleSDK 10);
     getPriceHistory := fun _ _ => inr "network error";
     getOrderbook := getOrderbook (exampleSDK 10) |}.

(* ===================================================================== *)
(** ** The order book of an index and the basic fields                    *)
(* ===================================================================== *)

(** [getPredefinedIndexes()]: a new array with the predefined indexes. *)
Definition getPredefinedIndexes : list Index.t := predefinedIndexes.





(* ===================================================================== *)
(** * Properties                                                          *)
(* ===================================================================== *)

(** ** Reasoning about computations on the service *)

Lemma triple_ret {A} (P : Service -> Prop) (a : A) (Q : A -> Service -> Prop) E :
  (forall s, P s -> Q a s) -> triple P (ret a) Q E.
Proof. intros H s Hs. simpl. auto. Qed.

Lemma triple_throw {A} (P : Service -> Prop) e (Q : A -> Service -> Prop) (E : Service -> Prop) :
  (forall s, P s -> E s) -> triple P (throw e) Q E.
Proof. intros H s Hs. simpl. auto. Qed.

Lemma triple_await {A} (P : Service -> Prop) (r : A + string) (Q : A -> Service -> Prop)
    (E : Service -> Prop) :
  (forall a s, r = inl a -> P s -> Q a s) ->
  (forall e s, r = inr e -> P s -> E s) ->
  triple P (await r) Q E.
Proof. intros H1 H2 s Hs. unfold await. destruct r; eauto. Qed.

Lemma triple_bind {A B} (P : Service -> Prop) (m : M A) (k : A -> M B)
    (R : A -> Service -> Prop) (Q : B -> Service -> Prop) (E : Service -> Prop) :
  triple P m R E ->
  (forall a, triple (R a) (k a) Q E) ->
  triple P (bind m k) Q E.
Proof.
  intros Hm Hk s Hs. unfold bind. specialize (Hm s Hs).
  destruct (m s) as [[a|e] s']; [apply Hk, Hm | exact Hm].
Qed.

Lemma triple_try_catch {A} (P : Service -> Prop) (m : M A) (h : string -> M A)
    (Q : A -> Service -> Prop) (E E' : Service -> Prop) :
  triple P m Q E' ->
  (forall e, triple E' (h e) Q E) ->
  triple P (try_catch m h) Q E.
Proof.
  intros Hm Hh s Hs. unfold try_catch. specialize (Hm s Hs).
  destruct (m s) as [[a|e] s']; [exact Hm | apply Hh, Hm].
Qed.

Lemma triple_get_state (P : Service -> Prop) (Q : Service -> Service -> Prop) E :
  (forall s, P s -> Q s s) -> triple P get_state Q E.
Proof. intros H s Hs. simpl. auto. Qed.

Lemma triple_modify (P : Service -> Prop) f (Q : unit -> Service -> Prop) E :
  (forall s, P s -> Q tt (f s)) -> triple P (modify f) Q E.
Proof. intros H s Hs. simpl. auto. Qed.

Lemma triple_weaken {A} (P P' : Service -> Prop) (m : M A)
    (Q Q' : A -> Service -> Prop) (E E' : Service -> Prop) :
  triple P' m Q' E' ->
  (forall s, P s -> P' s) ->
  (forall a s, Q' a s -> Q a s) ->
  (forall s, E' s -> E s) ->
  triple P m Q E.
Proof.
  intros H HP HQ HE s Hs. specialize (H s (HP s Hs)).
  destruct (m s) as [[a|e] s']; auto.
Qed.

Lemma keeps_bind {A B} I (m : M A) (k : A -> M B) :
  keeps I m -> (forall a, keeps I (k a)) -> keeps I (bind m k).
Proof. intros Hm Hk. eapply triple_bind; [exact Hm | exact Hk]. Qed.

Lemma keeps_try_catch {A} I (m : M A) (h : string -> M A) :
  keeps I m -> (forall e, keeps I (h e)) -> keeps I (try_catch m h).
Proof. intros Hm Hh. eapply triple_try_catch; [exact Hm | exact Hh]. Qed.

Lemma keeps_ret {A} I (a : A) : keeps I (ret a).
Proof. apply triple_ret. auto. Qed.

Lemma keeps_throw {A} I e : keeps I (@throw A e).
Proof. apply triple_throw. auto. Qed.

Lemma keeps_await {A} I (r : A + string) : keeps I (await r).
Proof. apply triple_await; auto. Qed.

Lemma keeps_get_state I : keeps I get_state.
Proof. apply triple_get_state. auto. Qed.

Lemma keeps_modify (I : Service -> Prop) f :
  (forall s, I s -> I (f s)) -> keeps I (modify f).
Proof. intros H. apply triple_modify. exact H. Qed.

Lemma keeps_snd {A} (I : Service -> Prop) (m : M A) s :
  keeps I m -> I s -> I (snd (m s)).
Proof. intros H Hs. specialize (H s Hs). destruct (m s) as [[a|e] s']; exact H. Qed.

(** The steps that a proof of [keeps] shares. *)
Ltac keeps_step :=
  lazymatch goal with
  | |- keeps _ (bind _ _) => apply keeps_bind; [| intros ?]
  | |- keeps _ (try_catch _ _) => apply keeps_try_catch; [| intros ?]
  | |- keeps _ (ret _) => apply keeps_ret
  | |- keeps _ (throw _) => apply keeps_throw
  | |- keeps _ (await _) => apply keeps_await
  | |- keeps _ get_state => apply keeps_get_state
  | |- keeps _ (match ?x with _ => _ end) => destruct x
  | |- keeps _ (if ?x then _ else _) => destruct x
  | |- keeps _ (let '(_, _) := ?x in _) => destruct x
  end.

Lemma keeps_update I r f : caches_only I -> keeps I (update r f).
Proof.
  intros HI. apply keeps_modify. intros s Hs.
  destruct (heap s !! r); [apply (HI s _ (draws s) Hs) | exact Hs].
Qed.

Lemma keeps_alloc I m : caches_only I -> keeps I (alloc m).
Proof. intros HI s Hs. simpl. apply (HI s _ (draws s) Hs). Qed.

Lemma keeps_Math_random I rt : caches_only I -> keeps I (Math_random rt).
Proof. intros HI s Hs. simpl. apply (HI s (heap s) _ Hs). Qed.

Lemma caches_only_priceHistories c :
  caches_only (fun s => cachedPriceHistories s = c).
Proof. intros s h d Hs. exact Hs. Qed.

Lemma getMarketPriceHistory_keeps_cache sdk provider marketId c :
  keeps (fun s => cachedPriceHistories s = c)
        (getMarketPriceHistory sdk provider marketId).
Proof.
  unfold getMarketPriceHistory.
  repeat first
    [ keeps_step
    | apply keeps_update, caches_only_priceHistories ].
Qed.

(** C4, the code does not do what the claim says: [getMarketPriceHistory]
    reads the cache of price histories and never writes it.  Whatever the
    call does, that cache is after the call what it was before it, so a
    price history that was fetched is not memoized. *)
Theorem getMarketPriceHistory_never_memoizes sdk provider marketId s :
  cachedPriceHistories (snd (getMarketPriceHistory sdk provider marketId s))
  = cachedPriceHistories s.
Proof.
  apply (keeps_snd (fun s' => cachedPriceHistories s' = cachedPriceHistories s)).
  - apply getMarketPriceHistory_keeps_cache.
  - reflexivity.
Qed.
(** ** Remaining hours *)

Lemma calculateRemainingHours_parsed rt endDateStr t :
  parseDate rt endDateStr = Some t ->
  calculateRemainingHours rt endDateStr
  = Num (Qmax 0 ((inject_Z t + - inject_Z (now rt)) / (1000 * 60 * 60))).
Proof. intros H. unfold calculateRemainingHours. rewrite H. reflexivity. Qed.

(** C3: for an end date that [Date] cannot parse, [calculateRemainingHours]
    does not throw and does not return [0]: the time value of the invalid
    date is [NaN], and so is the result. *)
Theorem calculateRemainingHours_unparseable rt endDateStr :
  parseDate rt endDateStr = None ->
  calculateRemainingHours rt endDateStr = NaN.
Proof. intros H. unfold calculateRemainingHours. rewrite H. reflexivity. Qed.

Lemma calculateRemainingHours_unparseable_witness :
  calculateRemainingHours exampleRuntime "not a date" = NaN.
Proof. apply calculateRemainingHours_unparseable. reflexivity. Defined.

(** A second lookup of a price history that was fetched goes to the provider
    again: it returns what the provider answers then. *)
Lemma getMarketPriceHistory_refetches sdk1 sdk2 provider marketId s ph2 :
  cachedPriceHistories s !! (provider +:+ "-" +:+ marketId) = None ->
  getPriceHistory sdk2 provider marketId = inl ph2 ->
  fst (getMarketPriceHistory sdk2 provider marketId
         (snd (getMarketPriceHistory sdk1 provider marketId s))) = inl ph2.
Proof.
  intros Hc H2.
  pose proof (getMarketPriceHistory_keeps_cache sdk1 provider marketId
                (cachedPriceHistories s)) as Hk.
  apply (keeps_snd _ _ s) in Hk; [|reflexivity].
  set (s1 := snd (getMarketPriceHistory sdk1 provider marketId s)) in *.
  unfold getMarketPriceHistory, try_catch, bind, get_state, await, ret, throw.
  rewrite Hk, Hc, H2.
  destruct (cachedMarkets s1 !! _) as [r|].
  - destruct ph2 as [|[|t0 first] rest]; reflexivity.
  - destruct ph2 as [|[|t0 first] rest]; reflexivity.
Qed.

(** The order-book cache is written by a successful fetch and read by the
    next lookup, which does not ask the provider. *)
Lemma getMarketOrderbook_memoizes sdk provider marketId s ob :
  fst (getMarketOrderbook sdk provider marketId s) = inl ob ->
  cachedOrderbooks (snd (getMarketOrderbook sdk provider marketId s))
    !! (provider +:+ "-" +:+ marketId) = Some ob.
Proof.
  unfold getMarketOrderbook, try_catch, bind, get_state, await, ret, throw, modify.
  destruct (cachedOrderbooks s !! _) eqn:Hc; simpl.
  - intros [= <-]. exact Hc.
  - destruct (getOrderbook sdk provider marketId) as [o|e]; simpl.
    + intros [= <-]. apply lookup_insert_eq.
    + discriminate.
Qed.

Lemma getMarketOrderbook_cached sdk provider marketId s ob :
  cachedOrderbooks s !! (provider +:+ "-" +:+ marketId) = Some ob ->
  getMarketOrderbook sdk provider marketId s = (inl ob, s).
Proof.
  intros Hc.
  unfold getMarketOrderbook, try_catch, bind, get_state, ret. simpl.
  rewrite Hc. reflexivity.
Qed.

(** ** Sorting by a key *)

Section SortFacts.
Context {A : Type} (key : A -> Q).

Lemma insertSorted_perm x l : Permutation (JS.insertSorted key x l) (x :: l).
Proof.
  induction l as [|y l IH]; simpl; [reflexivity|].
  destruct (Qle_bool (key x) (key y)); [reflexivity|].
  rewrite IH. apply perm_swap.
Qed.

Lemma sort_perm l : Permutation (JS.sort key l) l.
Proof.
  induction l as [|x l IH]; simpl; [reflexivity|].
  rewrite insertSorted_perm. apply perm_skip, IH.
Qed.

Lemma sort_length l : List.length (JS.sort key l) = List.length l.
Proof. apply Permutation_length, sort_perm. Qed.

Lemma insertSorted_sorted x l :
  StronglySorted (ascending key) l -> StronglySorted (ascending key) (JS.insertSorted key x l).
Proof.
  induction 1 as [|y l Hs IH Hy]; simpl.
  - constructor; constructor.
  - destruct (Qle_bool (key x) (key y)) eqn:Hxy.
    + apply Qle_bool_iff in Hxy.
      constructor; [constructor; assumption|].
      constructor; [exact Hxy|].
      eapply Forall_impl; [exact Hy|].
      intros z Hz. unfold ascending in *. lra.
    + assert (key y <= key x)%Q as Hyx.
      { destruct (Qlt_le_dec (key y) (key x)) as [Hlt|Hle]; [lra|].
        apply Qle_bool_iff in Hle. congruence. }
      constructor; [exact IH|].
      eapply Permutation_Forall; [symmetry; apply insertSorted_perm|].
      constructor; assumption.
Qed.

Lemma sort_sorted l : StronglySorted (ascending key) (JS.sort key l).
Proof.
  induction l as [|x l IH]; simpl; [constructor|].
  apply insertSorted_sorted, IH.
Qed.

(** Sorting keeps an array that is already in order as it is. *)
Lemma sort_sorted_id l : StronglySorted (ascending key) l -> JS.sort key l = l.
Proof.
  induction 1 as [|x l Hs IH Hx]; simpl; [reflexivity|].
  rewrite IH. destruct l as [|y l]; simpl; [reflexivity|].
  apply Forall_cons in Hx as [Hxy _].
  apply Qle_bool_iff in Hxy. rewrite Hxy. reflexivity.
Qed.

Lemma sort_nil_inv l : JS.sort key l = [] -> l = [].
Proof.
  intros H. apply Permutation_nil. rewrite <- H. apply sort_perm.
Qed.
End SortFacts.

(** ** Binary64 rounding is monotone *)

Lemma pow2_Qpower e : (JS.pow2 e == 2 ^ e)%Q.
Proof.
  unfold JS.pow2. destruct (Z.leb_spec 0 e) as [H|H].
  - exact (Zpower_Qpower 2 e H).
  - assert (0 < 2 ^ (- e))%Z as Hp by (apply Z.pow_pos_nonneg; lia).
    replace e with (- (- e))%Z at 2 by lia.
    rewrite Qpower_opp.
    assert (inject_Z (2 ^ (- e)) == 2 ^ (- e))%Q as <- by (apply (Zpower_Qpower 2); lia).
    unfold Qinv, inject_Z. simpl Qnum.
    destruct (2 ^ (- e))%Z as [|p|p] eqn:E; try lia. reflexivity.
Qed.

Lemma pow2_pos e : (0 < JS.pow2 e)%Q.
Proof. rewrite pow2_Qpower. apply Qpower_0_lt. reflexivity. Qed.

Lemma pow2_add a b : (JS.pow2 (a + b) == JS.pow2 a * JS.pow2 b)%Q.
Proof. rewrite !pow2_Qpower. apply Qpower_plus. discriminate. Qed.

Lemma pow2_nonneg_Z n : (0 <= n)%Z -> JS.pow2 n = inject_Z (2 ^ n).
Proof. intros H. unfold JS.pow2. destruct (Z.leb_spec 0 n); [reflexivity | lia]. Qed.

Lemma pow2_le a b : (a <= b)%Z -> (JS.pow2 a <= JS.pow2 b)%Q.
Proof.
  intros H. replace b with (a + (b - a))%Z by lia. rewrite pow2_add.
  rewrite (pow2_nonneg_Z (b - a)) by lia.
  assert (1 <= 2 ^ (b - a))%Z as H1 by (apply (Z.pow_le_mono_r 2 0 (b - a)); lia).
  assert (1 <= inject_Z (2 ^ (b - a)))%Q as H2 by (rewrite <- (Zle_Qle 1); exact H1).
  pose proof (pow2_pos a). nra.
Qed.

Lemma pow2_lt_inv a b : (JS.pow2 a < JS.pow2 b)%Q -> (a < b)%Z.
Proof.
  intros H. destruct (Z.lt_ge_cases a b) as [Hlt|Hge]; [exact Hlt|].
  apply pow2_le in Hge. lra.
Qed.

Lemma log2floor_spec a :
  (0 < a)%Q -> (JS.pow2 (JS.log2floor a) <= a < JS.pow2 (JS.log2floor a + 1))%Q.
Proof.
  intros Ha. destruct a as [n d]. unfold JS.log2floor. simpl Qnum. simpl Qden.
  assert (0 < n)%Z as Hn by (unfold Qlt in Ha; simpl in Ha; lia).
  pose proof (Z.log2_spec n Hn) as [Hn1 Hn2].
  pose proof (Z.log2_spec (Zpos d) eq_refl) as [Hd1 Hd2].
  pose proof (Z.log2_nonneg n) as Hln. pose proof (Z.log2_nonneg (Zpos d)) as Hld.
  set (ln := Z.log2 n) in *. set (ld := Z.log2 (Zpos d)) in *.
  assert (n # d == inject_Z n / inject_Z (Zpos d))%Q as Hq by apply Qmake_Qdiv.
  assert (0 < inject_Z (Zpos d))%Q as Hdp by (rewrite <- (Zlt_Qlt 0); lia).
  assert ((n # d) * inject_Z (Zpos d) == inject_Z n)%Q as Hm.
  { rewrite Hq. field. lra. }
  assert (JS.pow2 ln <= inject_Z n)%Q as A1.
  { rewrite pow2_nonneg_Z by exact Hln. rewrite <- Zle_Qle. exact Hn1. }
  assert (inject_Z n < JS.pow2 (ln + 1))%Q as A2.
  { rewrite pow2_nonneg_Z by lia. rewrite <- Zlt_Qlt. exact Hn2. }
  assert (JS.pow2 ld <= inject_Z (Zpos d))%Q as A3.
  { rewrite pow2_nonneg_Z by exact Hld. rewrite <- Zle_Qle. exact Hd1. }
  assert (inject_Z (Zpos d) < JS.pow2 (ld + 1))%Q as A4.
  { rewrite pow2_nonneg_Z by lia. rewrite <- Zlt_Qlt. exact Hd2. }
  assert (JS.pow2 ln == JS.pow2 (ln - ld) * JS.pow2 ld)%Q as B1.
  { rewrite <- pow2_add. replace (ln - ld + ld)%Z with ln by lia. reflexivity. }
  assert (JS.pow2 (ln + 1) == JS.pow2 (ln - ld + 1) * JS.pow2 ld)%Q as B2.
  { rewrite <- pow2_add. replace (ln - ld + 1 + ld)%Z with (ln + 1)%Z by lia. reflexivity. }
  assert (JS.pow2 (ln - ld + 1) == 2 * JS.pow2 (ln - ld))%Q as B3.
  { rewrite Z.add_comm, pow2_add. reflexivity. }
  assert (JS.pow2 (ld + 1) == 2 * JS.pow2 ld)%Q as B4.
  { rewrite Z.add_comm, pow2_add. reflexivity. }
  assert (JS.pow2 (ln - ld) == 2 * JS.pow2 (ln - ld - 1))%Q as B5.
  { replace (ln - ld)%Z with (1 + (ln - ld - 1))%Z at 1 by lia. rewrite pow2_add. reflexivity. }
  pose proof (pow2_pos (ln - ld)). pose proof (pow2_pos ld). pose proof (pow2_pos (ln - ld - 1)).
  destruct (Qle_bool (JS.pow2 (ln - ld)) (n # d)) eqn:Hc.
  - apply Qle_bool_iff in Hc. split; [exact Hc|].
    rewrite B3. nra.
  - assert (n # d < JS.pow2 (ln - ld))%Q as Hlt.
    { destruct (Qlt_le_dec (n # d) (JS.pow2 (ln - ld))) as [L|L]; [exact L|].
      apply Qle_bool_iff in L. congruence. }
    replace (ln - ld - 1 + 1)%Z with (ln - ld)%Z by lia.
    split; [|exact Hlt]. nra.
Qed.
Lemma roundHalfEven_cases x :
  JS.roundHalfEven x = Qfloor x /\ (x - inject_Z (Qfloor x) <= 1 # 2)%Q
  \/ JS.roundHalfEven x = (Qfloor x + 1)%Z /\ (1 # 2 <= x - inject_Z (Qfloor x))%Q.
Proof.
  unfold JS.roundHalfEven.
  destruct (Qcompare_spec (x - inject_Z (Qfloor x)) (1 # 2)) as [H|H|H].
  - destruct (Z.even (Qfloor x)); [left | right]; (split; [reflexivity | lra]).
  - left. split; [reflexivity | lra].
  - right. split; [reflexivity | lra].
Qed.

Lemma roundHalfEven_mono x y : (x <= y)%Q -> (JS.roundHalfEven x <= JS.roundHalfEven y)%Z.
Proof.
  intros H. pose proof (Qfloor_resp_le _ _ H) as Hf.
  destruct (Z.eq_dec (Qfloor x) (Qfloor y)) as [E|N].
  - unfold JS.roundHalfEven. rewrite <- E.
    destruct (Qcompare_spec (x - inject_Z (Qfloor x)) (1 # 2)) as [Hx|Hx|Hx];
      destruct (Qcompare_spec (y - inject_Z (Qfloor x)) (1 # 2)) as [Hy|Hy|Hy];
      try (destruct (Z.even (Qfloor x))); try lia; lra.
  - destruct (roundHalfEven_cases x) as [[-> _]|[-> _]];
      destruct (roundHalfEven_cases y) as [[-> _]|[-> _]]; lia.
Qed.

Lemma roundHalfEven_Z n : JS.roundHalfEven (inject_Z n) = n.
Proof.
  unfold JS.roundHalfEven. rewrite Qfloor_Z.
  destruct (Qcompare_spec (inject_Z n - inject_Z n) (1 # 2)) as [H|H|H].
  - lra.
  - reflexivity.
  - lra.
Qed.

Lemma roundHalfEven_le x n : (x <= inject_Z n)%Q -> (JS.roundHalfEven x <= n)%Z.
Proof. intros H. rewrite <- (roundHalfEven_Z n). apply roundHalfEven_mono, H. Qed.

Lemma roundHalfEven_ge x n : (inject_Z n <= x)%Q -> (n <= JS.roundHalfEven x)%Z.
Proof. intros H. rewrite <- (roundHalfEven_Z n). apply roundHalfEven_mono, H. Qed.

Lemma ulp_pos a : (0 < JS.ulp a)%Q.
Proof. apply pow2_pos. Qed.

Lemma magnitude_mono a b :
  (0 < a)%Q -> (a <= b)%Q ->
  (JS.magnitude a <= JS.magnitude b)%Q.
Proof.
  intros Ha Hab. unfold JS.magnitude, JS.ulp.
  assert (0 < b)%Q as Hb by lra.
  destruct (log2floor_spec a Ha) as [La Ua]. destruct (log2floor_spec b Hb) as [Lb Ub].
  set (ea := JS.log2floor a) in *. set (eb := JS.log2floor b) in *.
  assert (ea <= eb)%Z as Hee.
  { assert (ea < eb + 1)%Z by (apply pow2_lt_inv; lra). lia. }
  set (Ea := Z.max (ea - 52) (-1074)). set (Eb := Z.max (eb - 52) (-1074)).
  pose proof (pow2_pos Ea) as Pa. pose proof (pow2_pos Eb) as Pb.
  destruct (Z.eq_dec Ea Eb) as [E|N].
  - rewrite <- E.
    assert (a / JS.pow2 Ea <= b / JS.pow2 Ea)%Q as Hq.
    { apply Qmult_le_compat_r; [exact Hab|]. apply Qlt_le_weak, Qinv_lt_0_compat, Pa. }
    apply roundHalfEven_mono in Hq.
    apply Qmult_le_compat_r; [|lra]. rewrite <- Zle_Qle. exact Hq.
  - assert (Ea < Eb)%Z as Hlt by (unfold Ea, Eb in *; lia).
    assert (Eb = eb - 52)%Z as HEb by (unfold Ea, Eb in *; lia).
    assert (ea + 1 <= eb)%Z as Hea by (unfold Ea, Eb in *; lia).
    assert (0 <= eb - Ea)%Z as Hd by (unfold Ea, Eb in *; lia).
    assert (JS.pow2 eb == inject_Z (2 ^ (eb - Ea)) * JS.pow2 Ea)%Q as P1.
    { rewrite <- (pow2_nonneg_Z _ Hd), <- pow2_add.
      replace (eb - Ea + Ea)%Z with eb by lia. reflexivity. }
    assert (JS.pow2 eb == inject_Z (2 ^ 52) * JS.pow2 Eb)%Q as P2.
    { rewrite <- (pow2_nonneg_Z 52) by lia. rewrite <- pow2_add.
      replace (52 + Eb)%Z with eb by lia. reflexivity. }
    pose proof (pow2_le (ea + 1) eb Hea) as Hp.
    assert (a / JS.pow2 Ea <= inject_Z (2 ^ (eb - Ea)))%Q as Q1.
    { apply Qle_shift_div_r; [exact Pa|]. rewrite <- P1. lra. }
    assert (inject_Z (2 ^ 52) <= b / JS.pow2 Eb)%Q as Q2.
    { apply Qle_shift_div_l; [exact Pb|]. rewrite <- P2. lra. }
    apply roundHalfEven_le in Q1. apply roundHalfEven_ge in Q2.
    rewrite Zle_Qle in Q1, Q2.
    apply Qle_trans with (JS.pow2 eb).
    + rewrite P1. apply Qmult_le_compat_r; [exact Q1 | lra].
    + rewrite P2. apply Qmult_le_compat_r; [exact Q2 | lra].
Qed.

Lemma magnitude_nonneg a :
  (0 < a)%Q ->
  (0 <= JS.magnitude a)%Q.
Proof.
  intros Ha. pose proof (ulp_pos a) as Hu. unfold JS.magnitude.
  apply Qmult_le_0_compat; [|lra].
  rewrite <- (Zle_Qle 0). apply roundHalfEven_ge. change (inject_Z 0) with 0%Q.
  apply Qle_shift_div_l; [exact Hu | lra].
Qed.

(** ** The order of numbers *)

Lemma Qlt_bool_iff a b : JS.Qlt_bool a b = true <-> (a < b)%Q.
Proof.
  unfold JS.Qlt_bool. destruct (Qle_bool b a) eqn:H; simpl.
  - apply Qle_bool_iff in H. split; [discriminate | lra].
  - split; [|reflexivity]. intros _.
    destruct (Qlt_le_dec a b) as [Hlt|Hle]; [exact Hlt|].
    apply Qle_bool_iff in Hle. congruence.
Qed.

Lemma Qlt_bool_false a b : JS.Qlt_bool a b = false <-> (b <= a)%Q.
Proof.
  unfold JS.Qlt_bool. rewrite negb_false_iff. apply Qle_bool_iff.
Qed.

Lemma Qle_bool_false a b : Qle_bool a b = false <-> (b < a)%Q.
Proof.
  rewrite <- Qlt_bool_iff. unfold JS.Qlt_bool. rewrite negb_true_iff. reflexivity.
Qed.

Lemma round64_zero q : (q == 0)%Q -> JS.round64 q = Num 0.
Proof.
  intros H. unfold JS.round64. apply Qeq_bool_iff in H. rewrite H. reflexivity.
Qed.

Lemma round64_positive q :
  (0 < q)%Q ->
  JS.round64 q
  = if Qle_bool (JS.pow2 1024) (JS.magnitude (Qabs q)) then PInf
    else Num (Qred (JS.magnitude (Qabs q))).
Proof.
  intros H. unfold JS.round64.
  destruct (Qeq_bool q 0) eqn:E; [apply Qeq_bool_iff in E; lra|].
  assert (JS.Qlt_bool q 0 = false) as -> by (apply Qlt_bool_false; lra).
  reflexivity.
Qed.

Lemma round64_negative q :
  (q < 0)%Q ->
  JS.round64 q
  = if Qle_bool (JS.pow2 1024) (JS.magnitude (Qabs q)) then NInf
    else Num (Qred (- JS.magnitude (Qabs q))).
Proof.
  intros H. unfold JS.round64.
  destruct (Qeq_bool q 0) eqn:E; [apply Qeq_bool_iff in E; lra|].
  assert (JS.Qlt_bool q 0 = true) as -> by (apply Qlt_bool_iff; lra).
  reflexivity.
Qed.

Lemma round64_not_NaN q : JS.round64 q <> NaN.
Proof.
  unfold JS.round64.
  destruct (Qeq_bool q 0); [discriminate|].
  destruct (Qle_bool _ _); destruct (JS.Qlt_bool q 0); discriminate.
Qed.

(** Rounding keeps the order. *)
Lemma round64_mono q1 q2 :
  (q1 <= q2)%Q -> JS.nleb (JS.round64 q1) (JS.round64 q2) = true.
Proof.
  intros H.
  assert (forall q, (0 < q)%Q -> (0 < Qabs q)%Q /\ (Qabs q == q)%Q) as Hpos.
  { intros q Hq. pose proof (Qabs_pos q). lra. }
  assert (forall q, (q < 0)%Q -> (0 < Qabs q)%Q /\ (Qabs q == - q)%Q) as Hneg.
  { intros q Hq. pose proof (Qabs_neg q). lra. }
  destruct (Q_dec q1 0) as [[N1|P1]|Z1]; destruct (Q_dec q2 0) as [[N2|P2]|Z2];
    try lra;
    try rewrite (round64_negative q1 N1); try rewrite (round64_positive q1 P1);
    try rewrite (round64_zero q1 Z1);
    try rewrite (round64_negative q2 N2); try rewrite (round64_positive q2 P2);
    try rewrite (round64_zero q2 Z2);
    try (destruct (Hneg q1 N1) as [A1 B1]); try (destruct (Hpos q1 P1) as [A1 B1]);
    try (destruct (Hneg q2 N2) as [A2 B2]); try (destruct (Hpos q2 P2) as [A2 B2]);
    try pose proof (magnitude_nonneg _ A1) as M1;
    try pose proof (magnitude_nonneg _ A2) as M2.
  - assert (JS.magnitude (Qabs q2) <= JS.magnitude (Qabs q1))%Q as Hm
      by (apply magnitude_mono; lra).
    destruct (Qle_bool _ (JS.magnitude (Qabs q1))) eqn:O1;
      destruct (Qle_bool _ (JS.magnitude (Qabs q2))) eqn:O2; simpl; try reflexivity.
    + apply Qle_bool_iff in O2. apply Qle_bool_false in O1. lra.
    + apply Qle_bool_iff. rewrite !Qred_correct. lra.
  - destruct (Qle_bool _ (JS.magnitude (Qabs q1))) eqn:O1;
      destruct (Qle_bool _ (JS.magnitude (Qabs q2))) eqn:O2; simpl; try reflexivity.
    apply Qle_bool_iff. rewrite !Qred_correct. lra.
  - destruct (Qle_bool _ (JS.magnitude (Qabs q1))) eqn:O1; simpl; try reflexivity.
    apply Qle_bool_iff. rewrite !Qred_correct. lra.
  - assert (JS.magnitude (Qabs q1) <= JS.magnitude (Qabs q2))%Q as Hm
      by (apply magnitude_mono; lra).
    destruct (Qle_bool _ (JS.magnitude (Qabs q1))) eqn:O1;
      destruct (Qle_bool _ (JS.magnitude (Qabs q2))) eqn:O2; simpl; try reflexivity.
    + apply Qle_bool_iff in O1. apply Qle_bool_false in O2. lra.
    + apply Qle_bool_iff. rewrite !Qred_correct. lra.
  - destruct (Qle_bool _ (JS.magnitude (Qabs q2))) eqn:O2; simpl; try reflexivity.
    apply Qle_bool_iff. rewrite !Qred_correct. lra.
  - reflexivity.
Qed.

Lemma nleb_not_NaN x y : JS.nleb x y = true -> x <> NaN /\ y <> NaN.
Proof. destruct x, y; simpl; intros H; split; congruence. Qed.

Lemma nltb_not_NaN x y : JS.nltb x y = true -> x <> NaN /\ y <> NaN.
Proof. destruct x, y; simpl; intros H; split; congruence. Qed.

Lemma nleb_refl x : x <> NaN -> JS.nleb x x = true.
Proof. destruct x; simpl; intros H; try congruence. apply Qle_bool_iff. lra. Qed.

Lemma nleb_trans x y z : JS.nleb x y = true -> JS.nleb y z = true -> JS.nleb x z = true.
Proof.
  destruct x, y, z; simpl; try congruence.
  rewrite !Qle_bool_iff. lra.
Qed.

Lemma nleb_nltb_trans x y z : JS.nleb x y = true -> JS.nltb y z = true -> JS.nltb x z = true.
Proof.
  destruct x, y, z; simpl; try congruence.
  rewrite Qle_bool_iff, !Qlt_bool_iff. lra.
Qed.

Lemma nltb_nleb x y : JS.nltb x y = true -> JS.nleb x y = true.
Proof.
  destruct x, y; simpl; try congruence.
  rewrite Qle_bool_iff, Qlt_bool_iff. lra.
Qed.

(** Two numbers that are not [NaN] are in order one way or the other. *)
Lemma nltb_false x y : x <> NaN -> y <> NaN -> JS.nltb x y = false -> JS.nleb y x = true.
Proof.
  destruct x, y; simpl; try congruence.
  rewrite Qlt_bool_false, Qle_bool_iff. auto.
Qed.

Lemma nleb_false x y : x <> NaN -> y <> NaN -> JS.nleb x y = false -> JS.nltb y x = true.
Proof.
  destruct x, y; simpl; try congruence.
  rewrite Qle_bool_false, Qlt_bool_iff. auto.
Qed.

Lemma nltb_irrefl x y : JS.nltb x y = true -> JS.nleb y x = false.
Proof.
  destruct x, y; simpl; try congruence.
  rewrite Qle_bool_false, Qlt_bool_iff. auto.
Qed.

(** Adding a finite number keeps the order. *)
Lemma fadd_mono x y w :
  JS.nleb x y = true -> JS.nleb (JS.fadd x (Num w)) (JS.fadd y (Num w)) = true.
Proof.
  destruct x as [a| | |], y as [b| | |]; simpl; try congruence; intros H.
  - apply round64_mono. apply Qle_bool_iff in H. lra.
  - pose proof (round64_not_NaN (a + w)). destruct (JS.round64 (a + w)); simpl; congruence.
  - pose proof (round64_not_NaN (b + w)). destruct (JS.round64 (b + w)); simpl; congruence.
Qed.

Lemma fadd_Num_not_NaN x w : x <> NaN -> JS.fadd x (Num w) <> NaN.
Proof.
  destruct x; simpl; try congruence. intros _. apply round64_not_NaN.
Qed.

(** ** Candles *)

(** What [generateCandleData] leaves of the arrays: the old ones, and behind
    them the sorted copy when the argument has a record. *)
Lemma generateCandleData_arrays fuel tradeRecords intervalHours arrays :
  snd (generateCandleData fuel tradeRecords intervalHours arrays)
  = match arrays !! tradeRecords with
    | Some (first :: others) =>
        arrays ++ [JS.sort TradeRecord.timestamp (first :: others)]
    | _ => arrays
    end.
Proof.
  unfold generateCandleData.
  destruct (arrays !! tradeRecords) as [[|first others]|] eqn:Ha; try reflexivity.
  unfold spread, sortInPlace. rewrite Ha. simpl default.
  rewrite (list_lookup_middle arrays [] (first :: others) _ eq_refl).
  assert (<[List.length arrays := JS.sort TradeRecord.timestamp (first :: others)]>
            (arrays ++ [first :: others])
          = arrays ++ [JS.sort TradeRecord.timestamp (first :: others)]) as ->.
  { rewrite insert_app_r_alt by reflexivity. rewrite Nat.sub_diag. reflexivity. }
  destruct ((arrays ++ _) !! _) as [[|? ?]|]; reflexivity.
Qed.

(** C10: [generateCandleData] sorts a copy: every array that existed before
    the call, the argument among them, has the same records in the same order
    after it, however many rounds the loop is run for. *)
Theorem generateCandleData_keeps_argument fuel tradeRecords intervalHours arrays :
  take (List.length arrays) (snd (generateCandleData fuel tradeRecords intervalHours arrays))
  = arrays
  /\ snd (generateCandleData fuel tradeRecords intervalHours arrays) !! tradeRecords
     = arrays !! tradeRecords.
Proof.
  rewrite generateCandleData_arrays.
  destruct (arrays !! tradeRecords) as [[|first others]|] eqn:Ha.
  - split; [apply firstn_all | exact Ha].
  - split.
    + rewrite take_app_length. reflexivity.
    + rewrite lookup_app_l; [exact Ha|]. eapply lookup_lt_Some, Ha.
  - split; [apply firstn_all | exact Ha].
Qed.

(** [sort] itself works in place: called on the argument instead of a copy,
    it would reorder the caller's array. *)
Lemma sortInPlace_writes a arrays l :
  arrays !! a = Some l ->
  sortInPlace a arrays !! a = Some (JS.sort TradeRecord.timestamp l).
Proof.
  unfold sortInPlace. intros Ha. rewrite Ha.
  apply list_lookup_insert_eq. eapply lookup_lt_Some, Ha.
Qed.

Lemma timeAt_succ startTime intervalMs k :
  timeAt startTime intervalMs (S k) = JS.fadd (timeAt startTime intervalMs k) intervalMs.
Proof. reflexivity. Qed.

Lemma intervalRecordsOf_bucket sortedRecords startTime intervalMs k :
  intervalRecordsOf sortedRecords intervalMs (timeAt startTime intervalMs k)
  = bucketOf sortedRecords startTime intervalMs k.
Proof. reflexivity. Qed.

(** The loop, unrolled: when the loop variable is at or before [endTime] for
    [n] rounds and not after them, the loop pushes the candles of these
    rounds in order, given fuel for them. *)
Lemma candleLoop_unrolled sortedRecords startTime intervalMs endTime :
  forall n k fuel candles,
    (forall j, (k <= j < k + n)%nat ->
               JS.nleb (timeAt startTime intervalMs j) endTime = true) ->
    JS.nleb (timeAt startTime intervalMs (k + n)) endTime = false ->
    (n <= fuel)%nat ->
    candleLoop fuel sortedRecords intervalMs endTime (timeAt startTime intervalMs k) candles
    = Some (candles ++
            flat_map (fun j => candlesAt sortedRecords intervalMs (timeAt startTime intervalMs j))
                     (seq k n)).
Proof.
  induction n as [|n IH]; intros k fuel candles Hin Hout Hfuel.
  - rewrite Nat.add_0_r in Hout.
    destruct fuel; simpl; rewrite Hout, app_nil_r; reflexivity.
  - destruct fuel as [|fuel]; [lia|]. simpl candleLoop.
    rewrite (Hin k) by lia. rewrite <- timeAt_succ. rewrite IH.
    + simpl seq. simpl flat_map. unfold candlesAt at 2.
      destruct (intervalRecordsOf _ _ _) as [|first others].
      * reflexivity.
      * rewrite <- app_assoc. reflexivity.
    + intros j Hj. apply Hin. lia.
    + replace (S k + n)%nat with (k + S n)%nat by lia. exact Hout.
    + lia.
Qed.

(** With fuel for fewer rounds than the loop makes, the model gives no
    result. *)
Lemma candleLoop_short sortedRecords startTime intervalMs endTime :
  forall fuel k candles,
    (forall j, (k <= j <= k + fuel)%nat ->
               JS.nleb (timeAt startTime intervalMs j) endTime = true) ->
    candleLoop fuel sortedRecords intervalMs endTime (timeAt startTime intervalMs k) candles
    = None.
Proof.
  induction fuel as [|fuel IH]; intros k candles Hin; simpl candleLoop;
    rewrite (Hin k) by lia; [reflexivity|].
  rewrite <- timeAt_succ. apply IH. intros j Hj. apply Hin. lia.
Qed.

(** A width that the addition does not notice: the loop variable stays where
    it is, and the loop does not end. *)
Lemma candleLoop_stall sortedRecords intervalMs endTime time :
  JS.fadd time intervalMs = time -> JS.nleb time endTime = true ->
  forall fuel candles,
    candleLoop fuel sortedRecords intervalMs endTime time candles = None.
Proof.
  intros Hstall Hle. induction fuel as [|fuel IH]; intros candles; simpl; rewrite Hle.
  - reflexivity.
  - rewrite Hstall. apply IH.
Qed.

Lemma msOf_not_NaN r : msOf r <> NaN.
Proof. apply round64_not_NaN. Qed.

Lemma msOf_mono a b :
  (TradeRecord.timestamp a <= TradeRecord.timestamp b)%Q ->
  JS.nleb (msOf a) (msOf b) = true.
Proof. intros H. apply round64_mono. lra. Qed.

(** A time between the first bucket's start and the loop's last time lies
    in one of the buckets. *)
Lemma bucket_covers startTime intervalMs t :
  forall n,
    (forall k, (k < n)%nat -> timeAt startTime intervalMs k <> NaN) ->
    JS.nleb startTime t = true ->
    JS.nltb t (timeAt startTime intervalMs n) = true ->
    exists k, (k < n)%nat /\
              JS.nleb (timeAt startTime intervalMs k) t = true /\
              JS.nltb t (timeAt startTime intervalMs (S k)) = true.
Proof.
  induction n as [|n IH]; intros Hnan Hlo Hhi.
  - apply nltb_irrefl in Hhi. simpl in Hhi. congruence.
  - destruct (JS.nltb t (timeAt startTime intervalMs n)) eqn:Hn.
    + destruct IH as (k & Hk & H1 & H2); [intros k Hk; apply Hnan; lia | exact Hlo | reflexivity |].
      exists k. split; [lia|]. split; assumption.
    + exists n. split; [lia|]. split; [|exact Hhi].
      apply nltb_false; [|apply Hnan; lia|exact Hn].
      apply nleb_not_NaN in Hlo. apply Hlo.
Qed.

(** A loop variable that does not move up at the first step never does. *)
Lemma timeAt_stuck startTime intervalMs :
  JS.nleb (JS.fadd startTime intervalMs) startTime = true ->
  forall k, JS.nleb (timeAt startTime intervalMs k) startTime = true.
Proof.
  intros H. destruct (nleb_not_NaN _ _ H) as [H1 H0].
  destruct intervalMs as [w| | |].
  - assert (forall k, JS.nleb (timeAt startTime (Num w) (S k)) (timeAt startTime (Num w) k)
                      = true) as Hdown.
    { induction k as [|k IH]; [exact H|].
      rewrite (timeAt_succ _ _ (S k)), (timeAt_succ _ _ k). apply fadd_mono, IH. }
    induction k as [|k IH]; [apply nleb_refl, H0|].
    eapply nleb_trans; [apply Hdown | exact IH].
  - destruct startTime; simpl in H; try congruence.
    assert (forall k, timeAt PInf PInf k = PInf) as Hk.
    { induction k as [|k IH]; [reflexivity|]. rewrite timeAt_succ, IH. reflexivity. }
    intros k. rewrite Hk. reflexivity.
  - assert (forall k, timeAt startTime NInf (S k) = NInf) as Hk.
    { induction k as [|k IH].
      - destruct startTime; simpl in *; congruence.
      - rewrite timeAt_succ, IH. reflexivity. }
    intros [|k]; [apply nleb_refl, H0|]. rewrite Hk.
    destruct startTime; simpl in *; congruence.
  - destruct startTime; simpl in H; congruence.
Qed.

(** [Math.max] and [Math.min] of the prices of an interval. *)
Lemma Qmax_cases a b : Qmax a b = a \/ Qmax a b = b.
Proof.
  unfold Qmax, GenericMinMax.gmax. destruct (a ?= b)%Q; auto.
Qed.

Lemma Qmin_cases a b : Qmin a b = a \/ Qmin a b = b.
Proof.
  unfold Qmin, GenericMinMax.gmin. destruct (a ?= b)%Q; auto.
Qed.

Lemma maxOf_spec xs : forall x,
  In (maxOf x xs) (x :: xs) /\ Forall (fun p => (p <= maxOf x xs)%Q) (x :: xs).
Proof.
  unfold maxOf. induction xs as [|y ys IH]; intros x; simpl.
  - split; [left; reflexivity|]. constructor; [lra | constructor].
  - destruct (IH (Qmax x y)) as [Hin Hall]. split.
    + destruct Hin as [Hin|Hin]; [|right; right; exact Hin].
      rewrite <- Hin. destruct (Qmax_cases x y) as [E|E]; rewrite E; auto.
    + apply Forall_cons in Hall as [Hm Hys].
      pose proof (Q.le_max_l x y). pose proof (Q.le_max_r x y).
      constructor; [lra|]. constructor; [lra | exact Hys].
Qed.

Lemma minOf_spec xs : forall x,
  In (minOf x xs) (x :: xs) /\ Forall (fun p => (minOf x xs <= p)%Q) (x :: xs).
Proof.
  unfold minOf. induction xs as [|y ys IH]; intros x; simpl.
  - split; [left; reflexivity|]. constructor; [lra | constructor].
  - destruct (IH (Qmin x y)) as [Hin Hall]. split.
    + destruct Hin as [Hin|Hin]; [|right; right; exact Hin].
      rewrite <- Hin. destruct (Qmin_cases x y) as [E|E]; rewrite E; auto.
    + apply Forall_cons in Hall as [Hm Hys].
      pose proof (Q.le_min_l x y). pose proof (Q.le_min_r x y).
      constructor; [lra|]. constructor; [lra | exact Hys].
Qed.

Lemma sorted_first_least {A} (key : A -> Q) first rest r :
  StronglySorted (ascending key) (first :: rest) ->
  In r (first :: rest) -> (key first <= key r)%Q.
Proof.
  intros Hs [<-|Hin]; [lra|].
  apply StronglySorted_inv in Hs as [_ Hall].
  rewrite Forall_forall in Hall. apply Hall, list_elem_of_In, Hin.
Qed.

Lemma sorted_last_greatest {A} (key : A -> Q) l d r :
  StronglySorted (ascending key) l -> In r l -> (key r <= key (List.last l d))%Q.
Proof.
  induction 1 as [|x l Hs IH Hx]; intros Hin; [destruct Hin|].
  destruct l as [|y l'].
  - destruct Hin as [<-|[]]. simpl. lra.
  - change (List.last (x :: y :: l') d) with (List.last (y :: l') d).
    destruct Hin as [<-|Hin]; [|apply IH, Hin].
    assert (In (List.last (y :: l') d) (y :: l')) as Hl.
    { clear. revert y. induction l' as [|z l' IH]; intros y; [left; reflexivity|].
      right. apply IH. }
    rewrite Forall_forall in Hx. apply Hx, list_elem_of_In, Hl.
Qed.

Lemma filter_seq_increasing (f : nat -> bool) n : forall a,
  StronglySorted lt (List.filter f (seq a n)).
Proof.
  induction n as [|n IH]; intros a; simpl; [constructor|].
  destruct (f a); [|apply IH].
  constructor; [apply IH|].
  apply Forall_forall. intros k Hk. apply list_elem_of_In, filter_In in Hk as [Hk _].
  apply in_seq in Hk. lia.
Qed.

Lemma candles_of_buckets sortedRecords startTime intervalMs js :
  Forall2 (candleOfBucket sortedRecords startTime intervalMs)
    (List.filter (fun j => nonEmpty (bucketOf sortedRecords startTime intervalMs j)) js)
    (flat_map (fun j => candlesAt sortedRecords intervalMs (timeAt startTime intervalMs j)) js).
Proof.
  induction js as [|j js IH]; simpl; [constructor|].
  unfold candlesAt at 1. rewrite intervalRecordsOf_bucket.
  destruct (bucketOf sortedRecords startTime intervalMs j) as [|first others] eqn:Hb; simpl.
  - exact IH.
  - constructor; [|exact IH].
    exists first, others. split; [exact Hb|]. cbv zeta. simpl CandleData.time.
    simpl CandleData.open. simpl CandleData.close. simpl CandleData.high.
    simpl CandleData.low. simpl CandleData.volume.
    split; [reflexivity|split; [reflexivity|split; [reflexivity|split; [|split]]]].
    + apply (maxOf_spec (map TradeRecord.price others) (TradeRecord.price first)).
    + apply (minOf_spec (map TradeRecord.price others) (TradeRecord.price first)).
    + reflexivity.
Qed.

Lemma last_default {A} (l : list A) : forall a d d',
  List.last (a :: l) d = List.last (a :: l) d'.
Proof.
  induction l as [|b l IH]; intros a d d'; [reflexivity|].
  change (List.last (b :: l) d = List.last (b :: l) d'). apply IH.
Qed.

(** The value of [generateCandleData] on an array with a record: the loop
    over the sorted copy. *)
Lemma generateCandleData_value fuel tradeRecords intervalHours (arrays : Arrays) x l :
  arrays !! tradeRecords = Some (x :: l) ->
  exists first rest,
    JS.sort TradeRecord.timestamp (x :: l) = first :: rest /\
    fst (generateCandleData fuel tradeRecords intervalHours arrays)
    = candleLoop fuel (first :: rest) (intervalMsOf intervalHours)
        (msOf (List.last (first :: rest) first)) (msOf first) [].
Proof.
  intros Ha. unfold generateCandleData, spread, sortInPlace. rewrite Ha. simpl default.
  rewrite (list_lookup_middle arrays [] (x :: l) _ eq_refl).
  rewrite list_lookup_insert_eq by (rewrite length_app; simpl; lia).
  destruct (JS.sort TradeRecord.timestamp (x :: l)) as [|first rest] eqn:Hs.
  - apply sort_nil_inv in Hs. discriminate.
  - exists first, rest. split; reflexivity.
Qed.

(** C7: for a series with a record and a bucket width for which the loop
    ends, after [n] rounds, [generateCandleData] returns candles, made as
    follows.  The series is sorted by timestamp; the buckets start at the
    first timestamp, in milliseconds, and each next one where the one before
    ends, at its start plus the width as binary64 addition gives it; there
    is one candle for each of the [n] buckets that has a trade and none for
    a bucket without, in the order of the buckets; the candle of a bucket
    opens at the price of its first trade, closes at the price of its last,
    has the highest and the lowest price of the bucket, the sum of its
    volumes, and the start of the bucket in seconds.  Unless the loop ends
    on a time that is not a number, every trade lies in one of the buckets,
    and a single trade gives one candle whose open, high, low and close are
    its price. *)
Theorem generateCandleData_candles tradeRecords intervalHours (arrays : Arrays) x l n :
  arrays !! tradeRecords = Some (x :: l) ->
  (let sorted := JS.sort TradeRecord.timestamp (x :: l) in
   endsAfter (msOf (List.hd x sorted)) (intervalMsOf intervalHours)
             (msOf (List.last sorted x)) n) ->
  exists candles sorted first rest,
    (forall fuel, (n <= fuel)%nat ->
       fst (generateCandleData fuel tradeRecords intervalHours arrays) = Some candles) /\
    (forall fuel, (fuel < n)%nat ->
       fst (generateCandleData fuel tradeRecords intervalHours arrays) = None) /\
    sorted = first :: rest /\
    sorted = JS.sort TradeRecord.timestamp (x :: l) /\
    StronglySorted (ascending TradeRecord.timestamp) sorted /\
    Permutation sorted (x :: l) /\
    let intervalMs := intervalMsOf intervalHours in
    let startTime := msOf first in
    (exists ks,
       StronglySorted lt ks /\
       (forall k, In k ks <-> (k < n)%nat /\ bucketOf sorted startTime intervalMs k <> []) /\
       Forall2 (candleOfBucket sorted startTime intervalMs) ks candles) /\
    (timeAt startTime intervalMs n <> NaN ->
     (forall r, In r sorted ->
        exists k, (k < n)%nat /\ In r (bucketOf sorted startTime intervalMs k)) /\
     (l = [] ->
      exists c, candles = [c] /\
        CandleData.open c = TradeRecord.price x /\ CandleData.high c = TradeRecord.price x /\
        CandleData.low c = TradeRecord.price x /\ CandleData.close c = TradeRecord.price x)).
Proof.
  intros Ha Hends. cbv zeta in Hends.
  pose proof (sort_sorted TradeRecord.timestamp (x :: l)) as Hsorted.
  pose proof (sort_perm TradeRecord.timestamp (x :: l)) as Hperm.
  destruct (JS.sort TradeRecord.timestamp (x :: l)) as [|first rest] eqn:Hsort.
  { apply sort_nil_inv in Hsort. discriminate. }
  simpl List.hd in Hends.
  assert (List.last (first :: rest) x = List.last (first :: rest) first) as Hlast
    by apply last_default.
  rewrite Hlast in Hends.
  set (intervalMs := intervalMsOf intervalHours) in *.
  set (startTime := msOf first) in *.
  set (endTime := msOf (List.last (first :: rest) first)) in *.
  destruct Hends as [Hin Hout].
  assert (forall fuel,
            fst (generateCandleData fuel tradeRecords intervalHours arrays)
            = candleLoop fuel (first :: rest) intervalMs endTime startTime []) as Hval.
  { intros fuel.
    destruct (generateCandleData_value fuel tradeRecords intervalHours arrays x l Ha)
      as (first' & rest' & Hs' & Hv).
    rewrite Hsort in Hs'. injection Hs' as <- <-. exact Hv. }
  assert (forall r, In r (first :: rest) ->
            JS.nleb startTime (msOf r) = true /\ JS.nleb (msOf r) endTime = true) as Hrange.
  { intros r Hr. split; apply msOf_mono.
    - apply (sorted_first_least _ _ _ _ Hsorted Hr).
    - apply (sorted_last_greatest _ _ first _ Hsorted Hr). }
  eexists (flat_map (fun j => candlesAt (first :: rest) intervalMs
                                (timeAt startTime intervalMs j)) (seq 0 n)),
          (first :: rest), first, rest.
  split; [|split; [|split; [reflexivity|split; [reflexivity|split; [exact Hsorted|
           split; [exact Hperm|]]]]]].
  - intros fuel Hfuel. rewrite Hval.
    apply (candleLoop_unrolled (first :: rest) startTime intervalMs endTime n 0 fuel []).
    + intros j Hj. apply Hin. lia.
    + exact Hout.
    + exact Hfuel.
  - intros fuel Hfuel. rewrite Hval.
    apply (candleLoop_short (first :: rest) startTime intervalMs endTime fuel 0 []).
    intros j Hj. apply Hin. lia.
  - cbv zeta. fold intervalMs startTime. split.
    + exists (List.filter (fun j => nonEmpty (bucketOf (first :: rest) startTime intervalMs j))
                          (seq 0 n)).
      split; [apply filter_seq_increasing|]. split; [|apply candles_of_buckets].
      intros k. rewrite filter_In, in_seq.
      destruct (bucketOf (first :: rest) startTime intervalMs k); simpl.
      * split; [intros [_ H]; discriminate | intros [_ H]; congruence].
      * split; [intros [H _]; split; [lia|discriminate]
               | intros [H _]; split; [lia|reflexivity]].
    + intros Hnan.
      assert (JS.nltb endTime (timeAt startTime intervalMs n) = true) as Hpast.
      { apply nleb_false; [exact Hnan| |exact Hout]. apply msOf_not_NaN. }
      split.
      * intros r Hr. destruct (Hrange r Hr) as [Hlo Hhi].
        destruct (bucket_covers startTime intervalMs (msOf r) n) as (k & Hk & Hk1 & Hk2).
        -- intros k Hk. apply (nleb_not_NaN _ _ (Hin k Hk)).
        -- exact Hlo.
        -- eapply nleb_nltb_trans; [exact Hhi | exact Hpast].
        -- exists k. split; [exact Hk|]. unfold bucketOf. apply filter_In.
           split; [exact Hr|]. rewrite Hk1, Hk2. reflexivity.
      * intros ->. simpl in Hsort. injection Hsort as <- <-.
        change endTime with startTime in *.
        assert (JS.nleb (timeAt startTime intervalMs 1) startTime = false) as Hup.
        { destruct (JS.nleb (timeAt startTime intervalMs 1) startTime) eqn:E; [|reflexivity].
          rewrite (timeAt_stuck startTime intervalMs E n) in Hout. discriminate. }
        assert (n = 1%nat) as ->.
        { destruct n as [|[|n]]; [|reflexivity|].
          - simpl in Hout. rewrite nleb_refl in Hout by apply msOf_not_NaN. discriminate.
          - rewrite (Hin 1%nat) in Hup by lia. discriminate. }
        simpl flat_map. unfold candlesAt.
        assert (intervalRecordsOf [x] intervalMs startTime = [x]) as ->.
        { unfold intervalRecordsOf. simpl List.filter.
          change (msOf x) with startTime.
          rewrite nleb_refl by apply msOf_not_NaN.
          change (JS.fadd startTime intervalMs) with (timeAt startTime intervalMs 1).
          rewrite Hpast. reflexivity. }
        eexists. split; [reflexivity|]. repeat split; reflexivity.
Qed.

Lemma generateCandleData_candles_witness :
  exampleTrades !! 0%nat = Some [trade 0.5 10 3600; trade 0.6 20 0; trade 0.7 1 36000]
  /\ endsAfter (Num 0) (Num 14400000) (Num 36000000) 3
  /\ exists candles,
       fst (generateCandleData 3 0 4 exampleTrades) = Some candles
       /\ fst (generateCandleData 2 0 4 exampleTrades) = None
       /\ List.length candles = 2%nat.
Proof.
  assert (endsAfter (Num 0) (Num 14400000) (Num 36000000) 3) as Hends.
  { split; [|reflexivity]. intros [|[|[|k]]] Hk; [reflexivity..|lia]. }
  split; [reflexivity|]. split; [exact Hends|].
  destruct (generateCandleData_candles 0 4 exampleTrades
              (trade 0.5 10 3600) [trade 0.6 20 0; trade 0.7 1 36000] 3
              eq_refl Hends)
    as (candles & sorted & first & rest & Hsome & Hnone & _).
  exists candles. split; [apply Hsome; lia|]. split; [apply Hnone; lia|].
  specialize (Hsome 3%nat (le_n 3)). vm_compute in Hsome.
  injection Hsome as <-. reflexivity.
Defined.

(** C7, the claim as stated fails: a width of 1e-12 hours is positive, and
    so is its length in milliseconds; added to the time of a trade of
    November 2023 it gives that time again, and the loop over a series of
    this one trade does not end: no number of rounds gives candles. *)
Lemma generateCandleData_tiny_width_loops :
  (0 < JS.double (1 # 1000000000000))%Q
  /\ ~ exists fuel candles,
         fst (generateCandleData fuel 0 (JS.double (1 # 1000000000000))
                [[trade 0.5 10 1700000000]])
         = Some candles.
Proof.
  split; [reflexivity|]. intros (fuel & candles & H).
  destruct (generateCandleData_value fuel 0 (JS.double (1 # 1000000000000))
              [[trade 0.5 10 1700000000]] (trade 0.5 10 1700000000) [] eq_refl)
    as (first & rest & Hs & Hv).
  simpl in Hs. injection Hs as <- <-. rewrite Hv in H.
  rewrite candleLoop_stall in H; [discriminate| |]; vm_compute; reflexivity.
Qed.

(** The width in milliseconds is the product that binary64 gives: 2.23 hours
    are 8028000.000000001 ms, and a trade 8028 seconds after the first one
    falls into the first bucket; 0.13 hours are 468000.00000000006 ms, and
    after a trade at 1700000000 s the second bucket starts at 1700000468000
    ms, so that a trade at 1700000468 s falls into it. *)
Lemma generateCandleData_rounded_width :
  (exists c, fst (generateCandleData 2 0 (JS.double 2.23)
                    [[trade 0.5 10 0; trade 0.6 20 8028]]) = Some [c]
             /\ CandleData.open c = 0.5 /\ CandleData.close c = 0.6)
  /\ (exists c1 c2, fst (generateCandleData 2 0 (JS.double 0.13)
                          [[trade 0.5 10 1700000000; trade 0.6 20 1700000468]])
                    = Some [c1; c2]
                    /\ CandleData.close c1 = 0.5 /\ CandleData.open c2 = 0.6).
Proof.
  split.
  - vm_compute. eexists. repeat split.
  - vm_compute. eexists _, _. repeat split.
Qed.

(** ** Composite fields *)

(** The block that sets [priceChange24h] returns, and writes nothing but the
    count of random draws. *)
Lemma priceChange24hOf_returns rt index markets s :
  exists v s',
    priceChange24hOf rt index markets s = (inl v, s') /\
    heap s' = heap s /\ cachedIndexes s' = cachedIndexes s /\
    cachedMarkets s' = cachedMarkets s /\
    cachedPriceHistories s' = cachedPriceHistories s /\
    cachedOrderbooks s' = cachedOrderbooks s.
Proof.
  unfold priceChange24hOf.
  destruct (nonEmpty markets); [|eexists _, s; repeat split].
  destruct (foldl addPriceChange (Num 0, 0%nat) markets) as [priceChange [|validMarkets]].
  - eexists _, _. split; [reflexivity|]. repeat split.
  - eexists _, s. repeat split.
Qed.

(** C8: for an index whose status is ["inactive"] in any casing,
    [calculateIndexFields] sets [expired] and then, whatever the constituents
    are, [confilmYield] to [8.5] unless it is set (non-zero), [yieldRange] to
    ["+<confilmYield>%"], [priceChange24h] to ["+0.00%"], [volume] to [0.05]
    and [marketCap] to [0.1]. *)
Theorem calculateIndexFields_expired rt index s :
  String.eqb (JS.toLowerCase (Index.status index)) "inactive" = true ->
  exists index' s',
    calculateIndexFields rt index s = (inl index', s') /\
    Index.expired index' = Some true /\
    Index.confilmYield index'
      = (if Qeq_bool (Index.confilmYield index) 0 then 8.5 else Index.confilmYield index) /\
    Index.yieldRange index'
      = Some ("+" +:+ numberToString rt (Qred (Index.confilmYield index')) +:+ "%") /\
    Index.priceChange24h index' = Some "+0.00%" /\
    Index.volume index' = Some 0.05 /\
    Index.marketCap index' = Some 0.1.
Proof.
  intros Hexp. unfold calculateIndexFields, bind, get_state. rewrite Hexp.
  destruct (priceChange24hOf_returns rt index (marketsOf s index) s) as (v & s' & -> & _).
  eexists _, s'. split; [reflexivity|]. repeat split.
Qed.

Lemma calculateIndexFields_expired_witness :
  String.eqb (JS.toLowerCase "Inactive") "inactive" = true
  /\ exists index' s',
       calculateIndexFields exampleRuntime
         (Index.define "reliable-forecast" "Reliable Forecast Index"
            ["516909"; "514138"; "544924"; "543148"] [1; 1; 1; 1]%Z [""; ""; ""; ""]
            0 0 "Inactive" "0x787dE5d30d327Ed20b3CaE7227f0aEcAcda2852E" "4 days")
         newService = (inl index', s')
       /\ Index.priceChange24h index' = Some "+0.00%"
       /\ Index.volume index' = Some 0.05
       /\ Index.marketCap index' = Some 0.1.
Proof.
  split; [reflexivity|].
  destruct (calculateIndexFields_expired exampleRuntime
              (Index.define "reliable-forecast" "Reliable Forecast Index"
                 ["516909"; "514138"; "544924"; "543148"] [1; 1; 1; 1]%Z [""; ""; ""; ""]
                 0 0 "Inactive" "0x787dE5d30d327Ed20b3CaE7227f0aEcAcda2852E" "4 days")
              newService eq_refl)
    as (index' & s' & H & _ & _ & _ & Hp & Hv & Hm).
  exists index', s'. repeat split; assumption.
Defined.

(** The loop adds up the contributions, in slot order. *)
Lemma yieldLoop_sum positionNames markets : forall i yieldValue,
  yieldLoop positionNames markets i yieldValue
  = foldl JS.fadd yieldValue (yieldContributions positionNames markets i).
Proof.
  induction markets as [|market rest IH]; intros i yieldValue; simpl; [reflexivity|].
  rewrite IH. unfold addYield, yieldContribution.
  destruct (isYes (positionNames !! i)); simpl;
    destruct (JS.Qlt_bool _ _); reflexivity.
Qed.

(** C9: for an index that is not expired and has [n > 0] constituents,
    [calculateIndexFields] adds up, in slot order, the contributions
    [(1/price - 1)*100] of the YES constituents with [price > 0] and
    [(1/(1-price) - 1)*100] of the NO constituents with [price < 1], divides
    the sum by [n], and writes [yieldRange] as ["+"], the quotient with one
    decimal, ["%"], and [yieldLoss] as ["-"], half the quotient with one
    decimal, ["%"]; every operation is the binary64 one. *)
Theorem calculateIndexFields_yield rt index s :
  String.eqb (JS.toLowerCase (Index.status index)) "inactive" = false ->
  marketsOf s index <> [] ->
  exists index' s',
    calculateIndexFields rt index s = (inl index', s') /\
    let n := Num (inject_Z (Z.of_nat (List.length (marketsOf s index)))) in
    let yieldValue :=
      JS.fdiv (sumOf (yieldContributions (Index.positionNames index) (marketsOf s index) 0)) n in
    let lossValue := JS.fmul yieldValue (Num 0.5) in
    Index.yieldRange index' = Some ("+" +:+ JS.toFixedN rt 1 yieldValue +:+ "%") /\
    Index.yieldLoss index' = Some ("-" +:+ JS.toFixedN rt 1 lossValue +:+ "%").
Proof.
  intros Hexp Hne. unfold calculateIndexFields, bind, get_state. rewrite Hexp.
  destruct (priceChange24hOf_returns rt index (marketsOf s index) s) as (v & s' & -> & _).
  eexists _, s'. split; [reflexivity|]. cbv zeta. simpl Index.yieldRange. simpl Index.yieldLoss.
  assert (nonEmpty (marketsOf s index) = true) as ->
    by (destruct (marketsOf s index); [congruence | reflexivity]).
  rewrite yieldLoop_sum. split; reflexivity.
Qed.

Lemma calculateIndexFields_yield_witness :
  String.eqb (JS.toLowerCase (Index.status scenarioAIndex)) "inactive" = false
  /\ marketsOf scenarioA scenarioAIndex <> []
  /\ exists index' s',
       calculateIndexFields exampleRuntime scenarioAIndex scenarioA = (inl index', s')
       /\ Index.yieldRange index' = Some "+33.9%"
       /\ Index.yieldLoss index' = Some "-17.0%".
Proof.
  split; [reflexivity|]. split; [discriminate|].
  destruct (calculateIndexFields_yield exampleRuntime scenarioAIndex scenarioA eq_refl)
    as (index' & s' & H & Hr & Hl); [discriminate|].
  exists index', s'. split; [exact H|]. split.
  - rewrite Hr. vm_compute. reflexivity.
  - rewrite Hl. vm_compute. reflexivity.
Defined.

(** The rounding of the operations shows in the last digit: the exact half
    yield of Scenario C is [-106.25], which [toFixed(1)] would print as
    ["-106.3"]; the double that the operations give is below it. *)
Lemma calculateIndexFields_yield_rounding :
  exists index' s',
    calculateIndexFields exampleRuntime scenarioCIndex scenarioC = (inl index', s')
    /\ Index.yieldRange index' = Some "+212.5%"
    /\ Index.yieldLoss index' = Some "-106.2%".
Proof. vm_compute. eexists _, _. repeat split. Qed.

(** ** The price history of an index *)

Lemma Math_random_advance rt s :
  Math_random rt s = (inl (random rt (draws s)), advance 1 s).
Proof. reflexivity. Qed.

Lemma advance_advance n m s : advance n (advance m s) = advance (n + m) s.
Proof. unfold advance. simpl. f_equal. lia. Qed.

Lemma advance_0 s : advance 0 s = s.
Proof. destruct s. reflexivity. Qed.

Lemma mockLoop_spec rt nowS : forall i price mockData s,
  exists l,
    mockLoop rt nowS i price mockData s = (inl (mockData ++ l), advance (3 * S i) s) /\
    List.length l = S i /\
    (forall k r, l !! k = Some r ->
       TradeRecord.timestamp r = inject_Z (nowS - Z.of_nat (i - k) * 86400) /\
       (0.5 <= TradeRecord.price r <= 0.99)%Q /\
       exists d, TradeRecord.trader r = Some ("0x" +:+ hexTag rt (Qred (random rt d)))).
Proof.
  induction i as [|i IH]; intros price mockData s.
  - eexists [_]. split; [|split].
    + unfold mockLoop, bind. rewrite !Math_random_advance. simpl.
      rewrite !advance_advance. reflexivity.
    + reflexivity.
    + intros [|k] r Hr; [|discriminate]. injection Hr as <-. simpl.
      split; [reflexivity|]. split; [|eauto].
      pose proof (Q.le_max_l 0.5 (Qmin 0.99 (price + price * (random rt (draws s) * 0.06 - 0.03)))).
      pose proof (Q.le_min_l 0.99 (price + price * (random rt (draws s) * 0.06 - 0.03))).
      split; [assumption|]. apply Q.max_lub; [lra | assumption].
  - simpl mockLoop. unfold bind at 1. rewrite Math_random_advance.
    unfold bind at 1. rewrite Math_random_advance.
    unfold bind at 1. rewrite Math_random_advance.
    rewrite !advance_advance. simpl Nat.add.
    edestruct IH as (l & -> & Hlen & Hl).
    eexists (_ :: l). split; [|split].
    + rewrite <- app_assoc. simpl. rewrite advance_advance. do 2 f_equal. f_equal. lia.
    + simpl. rewrite Hlen. reflexivity.
    + intros [|k] r Hr.
      * injection Hr as <-. simpl.
        split; [reflexivity|]. split; [|eauto].
        pose proof (Q.le_max_l 0.5 (Qmin 0.99 (price + price * (random rt (draws s) * 0.06 - 0.03)))).
        pose proof (Q.le_min_l 0.99 (price + price * (random rt (draws s) * 0.06 - 0.03))).
        split; [assumption|]. apply Q.max_lub; [lra | assumption].
      * simpl in Hr. apply Hl in Hr. exact Hr.
Qed.

(** [generateMockPriceHistory(days)] returns [days + 1] records: one for each
    of the days from [days] days ago to today. *)
Lemma generateMockPriceHistory_spec rt days s :
  exists l,
    generateMockPriceHistory rt days s = (inl l, advance (3 * S days + 1) s) /\
    List.length l = S days /\
    (forall k r, l !! k = Some r ->
       TradeRecord.timestamp r
       = inject_Z ((now rt / 1000) - Z.of_nat (days - k) * 86400) /\
       (0.5 <= TradeRecord.price r <= 0.99)%Q /\
       exists d, TradeRecord.trader r = Some ("0x" +:+ hexTag rt (Qred (random rt d)))).
Proof.
  unfold generateMockPriceHistory, bind. rewrite Math_random_advance.
  destruct (mockLoop_spec rt (now rt / 1000) days (0.75 + random rt (draws s) * 0.2) []
              (advance 1 s)) as (l & -> & Hlen & Hl).
  exists l. rewrite advance_advance. split; [reflexivity|]. split; assumption.
Qed.

Lemma tagAll_app rt l1 : forall d l2,
  tagAll rt d (l1 ++ l2) = tagAll rt d l1 ++ tagAll rt (List.length l1 + d) l2.
Proof.
  induction l1 as [|r l1 IH]; intros d l2; simpl; [reflexivity|].
  rewrite IH. do 3 f_equal. lia.
Qed.

Lemma tagAll_length rt l : forall d, List.length (tagAll rt d l) = List.length l.
Proof. induction l as [|r l IH]; intros d; simpl; [reflexivity | rewrite IH; reflexivity]. Qed.

Lemma pushRecords_spec rt positionHistory : forall allRecords s,
  pushRecords rt positionHistory allRecords s
  = (inl (allRecords ++ tagAll rt (draws s) positionHistory),
     advance (List.length positionHistory) s).
Proof.
  induction positionHistory as [|record rest IH]; intros allRecords s.
  - simpl. rewrite app_nil_r, advance_0. reflexivity.
  - simpl pushRecords. unfold bind. rewrite Math_random_advance. rewrite IH.
    rewrite <- app_assoc, advance_advance. simpl. do 3 f_equal. lia.
Qed.

Lemma collectRecords_spec rt positionNames markets : forall i allRecords s,
  collectRecords rt positionNames markets i allRecords s
  = (inl (allRecords ++ tagAll rt (draws s) (selectedTrades positionNames markets i)),
     advance (List.length (selectedTrades positionNames markets i)) s).
Proof.
  induction markets as [|market rest IH]; intros i allRecords s.
  - simpl. rewrite app_nil_r, advance_0. reflexivity.
  - simpl collectRecords. unfold bind. rewrite pushRecords_spec, IH.
    simpl selectedTrades. rewrite tagAll_app, length_app, <- app_assoc, advance_advance.
    simpl draws. do 2 f_equal. lia.
Qed.

(** What [getIndexPriceHistory] returns: the mock series when the index has
    no market or the markets contribute no trade, else the contributed trades,
    tagged and sorted. *)
Lemma getIndexPriceHistory_value rt index s :
  getIndexPriceHistory rt index s
  = match selectedTrades (Index.positionNames index) (marketsOf s index) 0 with
    | [] => generateMockPriceHistory rt 30 s
    | selected =>
        (inl (JS.sort TradeRecord.timestamp (tagAll rt (draws s) selected)),
         advance (List.length selected) s)
    end.
Proof.
  unfold getIndexPriceHistory, bind at 1, get_state.
  destruct (marketsOf s index) as [|market rest] eqn:Hm.
  - change (selectedTrades (Index.positionNames index) [] 0) with (@nil TradeRecord.t).
    reflexivity.
  - unfold bind at 1. rewrite collectRecords_spec.
    change ([] ++ ?l) with l.
    destruct (selectedTrades _ _ _) as [|record others].
    + change (tagAll rt (draws s) []) with (@nil TradeRecord.t). cbv iota.
      change (List.length (@nil TradeRecord.t)) with 0%nat. rewrite advance_0. reflexivity.
    + reflexivity.
Qed.

Lemma tagAll_untag rt l : forall d, map untag (tagAll rt d l) = map copied l.
Proof. induction l as [|r l IH]; intros d; simpl; [reflexivity | rewrite IH; reflexivity]. Qed.

Lemma tagAll_tagged rt l : forall d, Forall (tagged rt) (tagAll rt d l).
Proof.
  induction l as [|r l IH]; intros d; simpl; constructor; [eexists; reflexivity | apply IH].
Qed.

(** The array that the code reads from a market is the one of the position
    side, provided the first array of the market has a trade. *)
Lemma positionHistoryOf_side positionType market :
  positionHistoryOf positionType market
  = if hasFirstTrades market then sideOf positionType market else [].
Proof.
  unfold positionHistoryOf, hasFirstTrades, sideOf.
  destruct (Market.priceHistory market) as [[|[|t0 first] rest]|]; reflexivity.
Qed.

Lemma selectedTrades_guarded positionNames markets : forall i,
  selectedTrades positionNames markets i = guardedSideTrades positionNames markets i.
Proof.
  induction markets as [|market rest IH]; intros i; simpl; [reflexivity|].
  rewrite IH, positionHistoryOf_side. reflexivity.
Qed.

(** C5: when the constituents whose first trade array has a record
    contribute a trade, [getIndexPriceHistory] returns the trades of their
    position sides (code [1]: the first array; any other code: the second,
    or the first when there is no second), every trade once, each with a
    trader tag, sorted by ascending timestamp.  A constituent whose first
    array is empty or missing contributes nothing. *)
Theorem getIndexPriceHistory_combined rt index s :
  guardedSideTrades (Index.positionNames index) (marketsOf s index) 0 <> [] ->
  exists l,
    fst (getIndexPriceHistory rt index s) = inl l /\
    StronglySorted (ascending TradeRecord.timestamp) l /\
    Permutation (map untag l)
      (map copied (guardedSideTrades (Index.positionNames index) (marketsOf s index) 0)) /\
    Forall (tagged rt) l.
Proof.
  intros Hne. rewrite getIndexPriceHistory_value, selectedTrades_guarded.
  destruct (guardedSideTrades _ _ _) as [|record others] eqn:Hsel; [congruence|].
  eexists. split; [reflexivity|]. split; [apply sort_sorted|]. split.
  - rewrite <- (tagAll_untag rt (record :: others) (draws s)).
    apply Permutation_map, sort_perm.
  - eapply Permutation_Forall; [symmetry; apply sort_perm | apply tagAll_tagged].
Qed.

Lemma getIndexPriceHistory_combined_witness :
  guardedSideTrades (Index.positionNames scenarioBIndex)
    (marketsOf scenarioB scenarioBIndex) 0 <> []
  /\ exists l,
       fst (getIndexPriceHistory exampleRuntime scenarioBIndex scenarioB) = inl l
       /\ map untag l = [trade 0.5 1 1; trade 0.6 1 3; trade 0.45 1 4].
Proof.
  split; [discriminate|].
  destruct (getIndexPriceHistory_combined exampleRuntime scenarioBIndex scenarioB)
    as (l & Hl & _); [discriminate|].
  exists l. split; [exact Hl|].
  assert (inl l = fst (getIndexPriceHistory exampleRuntime scenarioBIndex scenarioB)) as E
    by (symmetry; exact Hl).
  vm_compute in E. injection E as ->. reflexivity.
Defined.

(** C5, the claim as stated fails: for a NO constituent with no trade on the
    first side and one on the second, the series of the position side has
    that trade, and [getIndexPriceHistory] returns the mock series of 31
    records instead. *)
Lemma getIndexPriceHistory_skips_second_side :
  sideTrades (Index.positionNames oneSidedIndex) (marketsOf oneSided oneSidedIndex) 0
  = [trade 0.45 1 4]
  /\ exists l,
       fst (getIndexPriceHistory exampleRuntime oneSidedIndex oneSided) = inl l
       /\ List.length l = 31%nat.
Proof.
  split; [reflexivity|].
  rewrite getIndexPriceHistory_value. simpl selectedTrades.
  destruct (generateMockPriceHistory_spec exampleRuntime 30 oneSided) as (l & -> & Hlen & _).
  exists l. split; [reflexivity | exact Hlen].
Qed.

(** C6: [getIndexPriceHistory] never returns an empty series; for an index
    without markets, and for one whose markets contribute no trade, it
    returns 31 records, one for each day from 30 days ago to today, with a
    price between [0.5] and [0.99] and a trader tag. *)
Theorem getIndexPriceHistory_mock rt index s :
  (exists l, fst (getIndexPriceHistory rt index s) = inl l /\ l <> []) /\
  (guardedSideTrades (Index.positionNames index) (marketsOf s index) 0 = [] ->
   exists l,
     fst (getIndexPriceHistory rt index s) = inl l /\
     List.length l = 31%nat /\
     forall k r, l !! k = Some r ->
       TradeRecord.timestamp r = inject_Z (now rt / 1000 - Z.of_nat (30 - k) * 86400) /\
       (0.5 <= TradeRecord.price r <= 0.99)%Q /\
       tagged rt r).
Proof.
  rewrite getIndexPriceHistory_value, selectedTrades_guarded.
  destruct (generateMockPriceHistory_spec rt 30 s) as (l & Hl & Hlen & Hrec).
  destruct (guardedSideTrades _ _ _) as [|record others] eqn:Hsel.
  - rewrite Hl. split.
    + exists l. split; [reflexivity|]. intros ->. discriminate Hlen.
    + intros _. exists l. split; [reflexivity|]. split; [exact Hlen | exact Hrec].
  - split; [|discriminate].
    eexists. split; [reflexivity|]. intros H. apply sort_nil_inv in H. discriminate.
Qed.

Lemma getIndexPriceHistory_mock_witness :
  guardedSideTrades (Index.positionNames oneSidedIndex)
    (marketsOf oneSided oneSidedIndex) 0 = []
  /\ exists l,
       fst (getIndexPriceHistory exampleRuntime oneSidedIndex oneSided) = inl l
       /\ List.length l = 31%nat.
Proof.
  split; [reflexivity|].
  destruct (getIndexPriceHistory_mock exampleRuntime oneSidedIndex oneSided) as [_ H].
  destruct (H eq_refl) as (l & Hl & Hlen & _).
  exists l. split; assumption.
Defined.

(** C6, the claim as stated fails: the mock series of an index without
    markets has 31 records, not 30. *)
Lemma getIndexPriceHistory_mock_has_31 :
  exists l,
    fst (getIndexPriceHistory exampleRuntime
           (Index.define "empty" "Empty" [] [] [] 0 0 "Active" "0x0" "3 days")
           newService) = inl l
    /\ List.length l = 31%nat /\ List.length l <> 30%nat.
Proof.
  rewrite getIndexPriceHistory_value. simpl selectedTrades.
  destruct (generateMockPriceHistory_spec exampleRuntime 30 newService) as (l & -> & Hlen & _).
  exists l. split; [reflexivity|]. split; [exact Hlen | lia].
Qed.

(** ** Full resolution *)

Lemma triple_returns {A} (P : Service -> Prop) (m : M A) (Q : A -> Service -> Prop) s :
  triple P m Q (fun _ => False) -> P s ->
  exists a s', m s = (inl a, s') /\ Q a s'.
Proof.
  intros H Hs. specialize (H s Hs). destruct (m s) as [[a|e] s']; [eauto | destruct H].
Qed.

Lemma triple_any {A} (P : Service -> Prop) (m : M A) :
  triple P m (fun _ _ => True) (fun _ => True).
Proof. intros s _. destruct (m s) as [[a|e] s']; exact I. Qed.

Lemma triple_and {A} (P : Service -> Prop) (m : M A) (Q1 Q2 : A -> Service -> Prop)
    (E1 E2 : Service -> Prop) :
  triple P m Q1 E1 -> triple P m Q2 E2 ->
  triple P m (fun a s => Q1 a s /\ Q2 a s) (fun s => E1 s /\ E2 s).
Proof.
  intros H1 H2 s Hs. specialize (H1 s Hs). specialize (H2 s Hs).
  destruct (m s) as [[a|e] s']; split; assumption.
Qed.

(** [createFallbackMarket] draws four random numbers and puts one new Market
    at the end of the store. *)
Lemma createFallbackMarket_spec rt marketId i totalMarkets positionType s :
  createFallbackMarket rt marketId i totalMarkets positionType s
  = (inl (List.length (heap s)),
     set_heap (heap s ++ [fallbackMarket rt marketId totalMarkets positionType
                            (random rt (draws s)) (random rt (1 + draws s))
                            (random rt (2 + draws s)) (random rt (3 + draws s))])
              (advance 4 s)).
Proof. reflexivity. Qed.

(** A market that is not in the cache and that the provider does not deliver
    makes [getMarket] throw, and leaves the state as it was. *)
Lemma getMarket_fails rt sdk provider marketId s e :
  cachedMarkets s !! (provider +:+ "-" +:+ marketId) = None ->
  getExchange sdk provider marketId = inr e ->
  getMarket rt sdk provider marketId s
  = (inr ("Failed to fetch market " +:+ marketId +:+ ": " +:+ e), s).
Proof.
  intros Hc He. unfold getMarket, try_catch, bind, get_state, await, throw.
  rewrite Hc, He. reflexivity.
Qed.

(** The callback of a constituent never throws: its [catch] returns a
    fallback market. *)
Lemma fetchConstituent_never_throws rt sdk index marketId i :
  triple (fun _ => True) (fetchConstituent rt sdk index marketId i)
         (fun _ _ => True) (fun _ => False).
Proof.
  unfold fetchConstituent. eapply triple_try_catch; [apply triple_any|].
  intros e s _. rewrite createFallbackMarket_spec. exact I.
Qed.

Lemma caches_only_indexes c : caches_only (fun s => cachedIndexes s = c).
Proof. intros s h d Hs. exact Hs. Qed.

(** Only [getIndexWithData] itself writes the index cache. *)
Lemma fetchConstituent_keeps_indexes rt sdk index marketId i c :
  keeps (fun s => cachedIndexes s = c) (fetchConstituent rt sdk index marketId i).
Proof.
  unfold fetchConstituent, fetchMarketData, getMarket, getMarketPriceHistory,
    getMarketOrderbook, createFallbackMarket.
  repeat first
    [ keeps_step
    | apply keeps_update, caches_only_indexes
    | apply keeps_alloc, caches_only_indexes
    | apply keeps_Math_random, caches_only_indexes
    | apply keeps_modify; intros ? ?; assumption ].
Qed.

Lemma fetchConstituent_returns rt sdk index marketId i s :
  exists r s',
    fetchConstituent rt sdk index marketId i s = (inl r, s') /\
    cachedIndexes s' = cachedIndexes s.
Proof.
  destruct (triple_returns _ _ _ s
              (fetchConstituent_never_throws rt sdk index marketId i) I)
    as (r & s1 & Hr & _).
  pose proof (keeps_snd _ _ s
                (fetchConstituent_keeps_indexes rt sdk index marketId i (cachedIndexes s))
                eq_refl) as Hk.
  rewrite Hr in Hk. eauto.
Qed.

Lemma mapM_i_fetch_returns rt sdk index ids : forall i s,
  exists refs s',
    mapM_i (fetchConstituent rt sdk index) ids i s = (inl refs, s') /\
    List.length refs = List.length ids /\
    cachedIndexes s' = cachedIndexes s.
Proof.
  induction ids as [|marketId ids IH]; intros i s.
  - exists [], s. repeat split.
  - simpl mapM_i. unfold bind at 1.
    destruct (fetchConstituent_returns rt sdk index marketId i s) as (r & s1 & -> & Hc1).
    unfold bind at 1.
    destruct (IH (S i) s1) as (refs & s2 & -> & Hlen & Hc2).
    exists (r :: refs), s2. split; [reflexivity|]. split; [simpl; lia | congruence].
Qed.

(** [calculateIndexFields] returns; it writes no cache and no Market, keeps
    the definition and the markets of the index, and sets the derived
    fields. *)
Lemma calculateIndexFields_returns rt index s :
  exists index' s',
    calculateIndexFields rt index s = (inl index', s') /\
    heap s' = heap s /\ cachedIndexes s' = cachedIndexes s /\
    cachedMarkets s' = cachedMarkets s /\
    Index.markets index' = Index.markets index /\
    Index.id index' = Index.id index /\
    Index.makrtesIds index' = Index.makrtesIds index /\
    Index.positionNames index' = Index.positionNames index /\
    is_Some (Index.daysRemaining index') /\
    is_Some (Index.expired index') /\
    is_Some (Index.settlementDate index') /\
    is_Some (Index.yieldRange index') /\
    is_Some (Index.marketCap index').
Proof.
  unfold calculateIndexFields, bind, get_state.
  destruct (priceChange24hOf_returns rt index (marketsOf s index) s)
    as (v & s' & -> & Hh & Hi & Hm & _).
  destruct (negb _); eexists _, s'; (split; [reflexivity|]); simpl; repeat split; eauto.
Qed.

Lemma getPredefinedIndex_id indexId definition :
  getPredefinedIndex indexId = Some definition -> Index.id definition = indexId.
Proof.
  unfold getPredefinedIndex. intros H. apply find_some in H as [_ H].
  apply String.eqb_eq, H.
Qed.

(** What [getIndexWithData] does for a predefined index that is not in the
    index cache. *)
Lemma getIndexWithData_fresh rt sdk indexId definition s :
  getPredefinedIndex indexId = Some definition ->
  cachedIndexes s !! indexId = None ->
  exists refs s1 index s2,
    mapM_i (fetchConstituent rt sdk definition) (Index.makrtesIds definition) 0 s
    = (inl refs, s1) /\
    calculateIndexFields rt (set_markets refs definition) s1 = (inl index, s2) /\
    getIndexWithData rt sdk indexId s
    = (inl index, set_cachedIndexes (<[indexId := index]> (cachedIndexes s2)) s2).
Proof.
  intros Hdef Hc.
  destruct (mapM_i_fetch_returns rt sdk definition (Index.makrtesIds definition) 0 s)
    as (refs & s1 & Hmap & _ & _).
  destruct (calculateIndexFields_returns rt (set_markets refs definition) s1)
    as (index & s2 & Hcalc & _).
  exists refs, s1, index, s2. split; [exact Hmap|]. split; [exact Hcalc|].
  unfold getIndexWithData, try_catch, bind at 1, get_state. rewrite Hc, Hdef.
  unfold bind at 1. rewrite Hmap. unfold bind at 1. rewrite Hcalc. reflexivity.
Qed.


(** ** What a resolution leaves alone *)

Section FrameFacts.
Variables (s0 : Service) (keys : string -> Prop).

Lemma Frame_refl : Frame s0 keys s0.
Proof. constructor; auto. Qed.

Lemma Frame_update r f :
  within s0 keys r -> keeps (Frame s0 keys) (update r f).
Proof.
  intros Hr. apply keeps_modify. intros s [Hlen Hheap Hmk Hix].
  destruct (heap s !! r) as [m|] eqn:Hm; [|constructor; assumption].
  constructor; simpl; try assumption.
  - rewrite length_insert. exact Hlen.
  - intros r' Hr' Hnt. rewrite list_lookup_insert_ne; [apply Hheap; assumption|].
    intros ->. destruct Hr as [Ht|Hge]; [exact (Hnt Ht) | lia].
Qed.

Lemma Frame_alloc m :
  triple (Frame s0 keys) (alloc m)
    (fun r s => Frame s0 keys s /\ (List.length (heap s0) <= r)%nat) (Frame s0 keys).
Proof.
  intros s [Hlen Hheap Hmk Hix]. simpl. split; [|exact Hlen].
  constructor; simpl; try assumption.
  - rewrite length_app. lia.
  - intros r Hr Hnt. rewrite lookup_app_l by lia. apply Hheap; assumption.
Qed.

Lemma Frame_Math_random rt : keeps (Frame s0 keys) (Math_random rt).
Proof. intros s [Hlen Hheap Hmk Hix]. simpl. constructor; assumption. Qed.

Lemma Frame_set_cachedMarkets k r :
  (List.length (heap s0) <= r)%nat ->
  keeps (Frame s0 keys)
        (modify (fun s => set_cachedMarkets (<[k := r]> (cachedMarkets s)) s)).
Proof.
  intros Hr. apply keeps_modify. intros s [Hlen Hheap Hmk Hix].
  constructor; simpl; try assumption.
  intros k' r' Hk'. destruct (decide (k = k')) as [->|Hne].
  - rewrite lookup_insert_eq in Hk'. injection Hk' as <-. right. exact Hr.
  - rewrite lookup_insert_ne in Hk' by exact Hne. apply Hmk, Hk'.
Qed.

Lemma Frame_set_cachedOrderbooks (f : Service -> gmap string Orderbook) :
  keeps (Frame s0 keys) (modify (fun s => set_cachedOrderbooks (f s) s)).
Proof.
  apply keeps_modify. intros s [Hlen Hheap Hmk Hix]. constructor; assumption.
Qed.

(** The Market that [getMarket] returns for one of the keys is one that the
    resolution may write. *)
Lemma Frame_getMarket rt sdk provider marketId :
  keys (provider +:+ "-" +:+ marketId) ->
  triple (Frame s0 keys) (getMarket rt sdk provider marketId)
    (fun r s => Frame s0 keys s /\ within s0 keys r) (Frame s0 keys).
Proof.
  intros Hk. unfold getMarket.
  eapply triple_try_catch with (E' := Frame s0 keys);
    [|intros e; apply triple_throw; auto].
  eapply triple_bind with (R := fun s1 s => Frame s0 keys s /\ s1 = s).
  { apply triple_get_state. auto. }
  intros s1. destruct (cachedMarkets s1 !! _) as [r|] eqn:Hc.
  - apply triple_ret. intros s [Hs <-]. split; [exact Hs|].
    destruct (frame_markets _ _ _ Hs _ _ Hc) as [H|H]; [left; eexists; split; [exact Hk | exact H] | right; exact H].
  - eapply triple_bind with (R := fun _ s => Frame s0 keys s).
    { apply triple_await; intros; tauto. }
    intros exchange. eapply triple_bind; [apply Frame_alloc|].
    intros r. cbv beta.
    eapply triple_bind with (R := fun _ s => Frame s0 keys s /\ (List.length (heap s0) <= r)%nat).
    + intros s [Hs Hr].
      pose proof (Frame_set_cachedMarkets (provider +:+ "-" +:+ marketId) r Hr s Hs) as H.
      simpl in *. split; [exact H | exact Hr].
    + intros _. apply triple_ret. intros s [Hs Hr]. split; [exact Hs | right; exact Hr].
Qed.

Lemma Frame_getMarketPriceHistory sdk provider marketId :
  keys (provider +:+ "-" +:+ marketId) ->
  keeps (Frame s0 keys) (getMarketPriceHistory sdk provider marketId).
Proof.
  intros Hk. unfold getMarketPriceHistory.
  apply keeps_try_catch; [|intros e; apply keeps_throw].
  apply keeps_bind; [apply keeps_get_state|]. intros s1.
  destruct (cachedPriceHistories s1 !! _); [apply keeps_ret|].
  apply keeps_bind; [apply keeps_await|]. intros priceHistory.
  eapply triple_bind with (R := fun s2 s => Frame s0 keys s /\ s2 = s).
  { apply triple_get_state. auto. }
  intros s2.
  eapply triple_bind with (R := fun _ s => Frame s0 keys s); [|intros; apply keeps_ret].
  destruct (cachedMarkets s2 !! _) as [r|] eqn:Hc;
    [|intros s [Hs _]; destruct priceHistory as [|[|? ?] ?]; exact Hs].
  destruct priceHistory as [|[|t0 first] rest]; try (intros s [Hs _]; exact Hs).
  intros s [Hs ->].
  refine (Frame_update r _ _ s Hs).
  destruct (frame_markets _ _ _ Hs _ _ Hc) as [H|H]; [left; eexists; split; [exact Hk | exact H] | right; exact H].
Qed.

Lemma Frame_getMarketOrderbook sdk provider marketId :
  keeps (Frame s0 keys) (getMarketOrderbook sdk provider marketId).
Proof.
  unfold getMarketOrderbook.
  repeat first [ keeps_step
               | apply (Frame_set_cachedOrderbooks
                          (fun s => <[_ := _]> (cachedOrderbooks s))) ].
Qed.

Lemma Frame_createFallbackMarket rt marketId i totalMarkets positionType :
  keeps (Frame s0 keys) (createFallbackMarket rt marketId i totalMarkets positionType).
Proof.
  unfold createFallbackMarket.
  do 4 (apply keeps_bind; [apply Frame_Math_random | intros ?]).
  eapply triple_weaken; [apply Frame_alloc | auto | intros ? ? [H _]; exact H | auto].
Qed.

Lemma Frame_fetchConstituent rt sdk index marketId i :
  keys ("polymarket" +:+ "-" +:+ marketId) ->
  keeps (Frame s0 keys) (fetchConstituent rt sdk index marketId i).
Proof.
  intros Hk. unfold fetchConstituent, fetchMarketData.
  apply keeps_try_catch; [|intros e; apply Frame_createFallbackMarket].
  eapply triple_bind; [apply (Frame_getMarket rt sdk "polymarket" marketId Hk)|].
  intros r. cbv beta.
  assert (forall f, triple (fun s => Frame s0 keys s /\ within s0 keys r) (update r f)
                      (fun _ s => Frame s0 keys s /\ within s0 keys r) (Frame s0 keys))
    as Hupd.
  { intros f s [Hs Hr]. pose proof (Frame_update r f Hr s Hs) as H.
    unfold update, modify in *. simpl in *. split; [exact H | exact Hr]. }
  assert (forall A (m : M A), keeps (Frame s0 keys) m ->
            triple (fun s => Frame s0 keys s /\ within s0 keys r) m
              (fun _ s => Frame s0 keys s /\ within s0 keys r) (Frame s0 keys))
    as Hkeep.
  { intros A m Hm s [Hs Hr]. specialize (Hm s Hs).
    destruct (m s) as [[a|e] s']; [split; assumption | exact Hm]. }
  eapply triple_bind; [apply Hupd|]. intros ?; cbv beta.
  eapply triple_bind; [apply Hupd|]. intros ?; cbv beta.
  eapply triple_bind;
    [apply Hkeep, (Frame_getMarketPriceHistory sdk "polymarket" marketId Hk)|].
  intros priceHistory; cbv beta.
  eapply triple_bind; [apply Hupd|]. intros ?; cbv beta.
  eapply triple_bind; [apply Hkeep, Frame_getMarketOrderbook|].
  intros orderbook; cbv beta.
  eapply triple_bind; [apply Hupd|]. intros ?; cbv beta.
  apply triple_ret. intros s [Hs _]. exact Hs.
Qed.


End FrameFacts.




(** ** Fallback markets *)

Lemma wellFormed_update r f : keeps wellFormed (update r f).
Proof.
  apply keeps_modify. intros s Hs. destruct (heap s !! r); [|exact Hs].
  intros k r' Hk. simpl. rewrite length_insert. apply (Hs k r' Hk).
Qed.

Lemma wellFormed_alloc m :
  triple wellFormed (alloc m)
    (fun r s => wellFormed s /\ (r < List.length (heap s))%nat) wellFormed.
Proof.
  intros s Hs. simpl. split.
  - intros k r Hk. simpl. rewrite length_app. specialize (Hs k r Hk). lia.
  - rewrite length_app. simpl. lia.
Qed.

Lemma wellFormed_Math_random rt : keeps wellFormed (Math_random rt).
Proof. intros s Hs. exact Hs. Qed.

Lemma wellFormed_getMarket rt sdk provider marketId :
  keeps wellFormed (getMarket rt sdk provider marketId).
Proof.
  unfold getMarket. apply keeps_try_catch; [|intros e; apply keeps_throw].
  apply keeps_bind; [apply keeps_get_state|]. intros s1.
  destruct (cachedMarkets s1 !! _); [apply keeps_ret|].
  apply keeps_bind; [apply keeps_await|]. intros exchange.
  eapply triple_bind; [apply wellFormed_alloc|]. intros r. cbv beta.
  eapply triple_bind with (R := fun _ s => wellFormed s); [|intros ?; apply keeps_ret].
  apply triple_modify. intros s [Hs Hr] k r' Hk. simpl in *.
  destruct (decide (provider +:+ "-" +:+ marketId = k)) as [<-|Hne].
  - rewrite lookup_insert_eq in Hk. injection Hk as <-. exact Hr.
  - rewrite lookup_insert_ne in Hk by exact Hne. apply (Hs k r' Hk).
Qed.

Lemma wellFormed_getMarketPriceHistory sdk provider marketId :
  keeps wellFormed (getMarketPriceHistory sdk provider marketId).
Proof.
  unfold getMarketPriceHistory.
  repeat first [ keeps_step | apply wellFormed_update ].
Qed.

Lemma wellFormed_getMarketOrderbook sdk provider marketId :
  keeps wellFormed (getMarketOrderbook sdk provider marketId).
Proof.
  unfold getMarketOrderbook.
  repeat first [ keeps_step | apply keeps_modify; intros s Hs; exact Hs ].
Qed.

Lemma wellFormed_fetchMarketData rt sdk index marketId i :
  keeps wellFormed (fetchMarketData rt sdk index marketId i).
Proof.
  unfold fetchMarketData.
  repeat first
    [ keeps_step
    | apply wellFormed_getMarket
    | apply wellFormed_getMarketPriceHistory
    | apply wellFormed_getMarketOrderbook
    | apply wellFormed_update ].
Qed.

(** What reads the caches only, and neither the market cache nor the order
    book cache, is kept by the three lookups. *)
Lemma getMarket_keeps (I : Service -> Prop) rt sdk provider marketId :
  caches_only I -> (forall s c, I s -> I (set_cachedMarkets c s)) ->
  keeps I (getMarket rt sdk provider marketId).
Proof.
  intros HI Hm. unfold getMarket.
  repeat first
    [ keeps_step
    | apply keeps_alloc, HI
    | apply keeps_modify; intros s Hs; apply Hm, Hs ].
Qed.

Lemma getMarketPriceHistory_keeps (I : Service -> Prop) sdk provider marketId :
  caches_only I -> keeps I (getMarketPriceHistory sdk provider marketId).
Proof.
  intros HI. unfold getMarketPriceHistory.
  repeat first [ keeps_step | apply keeps_update, HI ].
Qed.

Lemma keeps_normal {A} (I : Service -> Prop) (m : M A) :
  keeps I m -> triple I m (fun _ => I) (fun _ => True).
Proof. intros H. eapply triple_weaken; [exact H | auto | auto | auto]. Qed.

(** The [try] block throws when the price history is not in the cache and
    the provider fails to deliver it, and when the order book is not in the
    cache and the provider fails to deliver it. *)
Lemma fetchMarketData_throws_history rt sdk index marketId i e :
  getPriceHistory sdk "polymarket" marketId = inr e ->
  triple (fun s => cachedPriceHistories s !! ("polymarket" +:+ "-" +:+ marketId) = None)
         (fetchMarketData rt sdk index marketId i)
         (fun _ _ => False) (fun _ => True).
Proof.
  intros He. unfold fetchMarketData.
  set (I := fun s => cachedPriceHistories s !! ("polymarket" +:+ "-" +:+ marketId) = None).
  assert (caches_only I) as HI by (intros s h d Hs; exact Hs).
  eapply triple_bind;
    [apply keeps_normal, getMarket_keeps; [exact HI | intros s c Hs; exact Hs]|].
  intros market.
  eapply triple_bind; [apply keeps_normal, keeps_update, HI|]. intros ?; cbv beta.
  eapply triple_bind; [apply keeps_normal, keeps_update, HI|]. intros ?; cbv beta.
  eapply triple_bind with (R := fun _ _ => False); [|intros priceHistory s []].
  intros s Hs. unfold getMarketPriceHistory, try_catch, bind, get_state, await, throw.
  unfold I in Hs. rewrite Hs, He. exact Logic.I.
Qed.

Lemma fetchMarketData_throws_orderbook rt sdk index marketId i e :
  getOrderbook sdk "polymarket" marketId = inr e ->
  triple (fun s => cachedOrderbooks s !! ("polymarket" +:+ "-" +:+ marketId) = None)
         (fetchMarketData rt sdk index marketId i)
         (fun _ _ => False) (fun _ => True).
Proof.
  intros He. unfold fetchMarketData.
  set (I := fun s => cachedOrderbooks s !! ("polymarket" +:+ "-" +:+ marketId) = None).
  assert (caches_only I) as HI by (intros s h d Hs; exact Hs).
  eapply triple_bind;
    [apply keeps_normal, getMarket_keeps; [exact HI | intros s c Hs; exact Hs]|].
  intros market.
  eapply triple_bind; [apply keeps_normal, keeps_update, HI|]. intros ?; cbv beta.
  eapply triple_bind; [apply keeps_normal, keeps_update, HI|]. intros ?; cbv beta.
  eapply triple_bind; [apply keeps_normal, getMarketPriceHistory_keeps, HI|].
  intros priceHistory.
  eapply triple_bind; [apply keeps_normal, keeps_update, HI|]. intros ?; cbv beta.
  eapply triple_bind with (R := fun _ _ => False); [|intros orderbook s []].
  intros s Hs. unfold getMarketOrderbook, try_catch, bind, get_state, await, throw.
  unfold I in Hs. rewrite Hs, He. exact Logic.I.
Qed.

(** A constituent whose fetch fails makes the [try] block throw. *)
Lemma fetchMarketData_throws rt sdk index marketId i :
  triple (fun s => fetchFails sdk s marketId) (fetchMarketData rt sdk index marketId i)
         (fun _ _ => False) (fun _ => True).
Proof.
  intros s [[Hc [e He]] | [[Hc [e He]] | [Hc [e He]]]].
  - unfold fetchMarketData, bind at 1.
    rewrite (getMarket_fails rt sdk "polymarket" marketId s e Hc He). exact I.
  - exact (fetchMarketData_throws_history rt sdk index marketId i e He s Hc).
  - exact (fetchMarketData_throws_orderbook rt sdk index marketId i e He s Hc).
Qed.

Lemma caches_only_fetchFails sdk marketId :
  caches_only (fun s => fetchFails sdk s marketId).
Proof. intros s h d Hs. exact Hs. Qed.

(** A market enters the cache only when the provider delivers it: a fetch
    that fails stays one that fails. *)
Lemma fetchFails_getMarket rt sdk marketId other :
  keeps (fun s => fetchFails sdk s other) (getMarket rt sdk "polymarket" marketId).
Proof.
  unfold getMarket. apply keeps_try_catch; [|intros e; apply keeps_throw].
  apply keeps_bind; [apply keeps_get_state|]. intros s1.
  destruct (cachedMarkets s1 !! _); [apply keeps_ret|].
  eapply triple_bind
    with (R := fun _ s => fetchFails sdk s other /\
                          exists exchange, getExchange sdk "polymarket" marketId = inl exchange).
  { apply triple_await; [intros a s E H; split; [exact H | eauto] | intros e s _ H; exact H]. }
  intros exchange.
  eapply triple_bind
    with (R := fun _ s => fetchFails sdk s other /\
                          exists exchange, getExchange sdk "polymarket" marketId = inl exchange).
  { intros s [H Hex]. simpl. split; [exact H | exact Hex]. }
  intros r.
  eapply triple_bind with (R := fun _ s => fetchFails sdk s other);
    [|intros ?; apply keeps_ret].
  apply triple_modify. intros s [H [ex Hex]].
  destruct H as [[Hc [e He]]|[H|H]]; [left | right; left; exact H | right; right; exact H].
  split; [|eauto]. simpl.
  assert ("polymarket" +:+ "-" +:+ marketId <> "polymarket" +:+ "-" +:+ other) as Hne
    by (intros Heq; injection Heq as Heq; change (marketId = other) in Heq;
        rewrite Heq in Hex; congruence).
  rewrite lookup_insert_ne by exact Hne. exact Hc.
Qed.

(** When the [try] block throws, every fetch that failed before it still
    fails after it: the order book cache is written by the last call that
    can throw, when it returns. *)
Lemma fetchMarketData_keeps_fetchFails rt sdk index marketId i other :
  triple (fun s => fetchFails sdk s other) (fetchMarketData rt sdk index marketId i)
         (fun _ _ => True) (fun s => fetchFails sdk s other).
Proof.
  unfold fetchMarketData.
  pose proof (caches_only_fetchFails sdk other) as HI.
  eapply triple_bind; [apply fetchFails_getMarket|]. intros market.
  eapply triple_bind; [apply keeps_update, HI|]. intros ?; cbv beta.
  eapply triple_bind; [apply keeps_update, HI|]. intros ?; cbv beta.
  eapply triple_bind; [apply getMarketPriceHistory_keeps, HI|]. intros priceHistory.
  eapply triple_bind; [apply keeps_update, HI|]. intros ?; cbv beta.
  eapply triple_bind with (R := fun _ _ => True).
  - unfold getMarketOrderbook.
    eapply triple_try_catch with (E' := fun s => fetchFails sdk s other);
      [|intros e; apply triple_throw; auto].
    eapply triple_bind with (R := fun _ s => fetchFails sdk s other);
      [apply triple_get_state; auto|].
    intros s1. destruct (cachedOrderbooks s1 !! _); [apply triple_ret; auto|].
    eapply triple_bind with (R := fun _ _ => True); [apply triple_await; auto|].
    intros orderbook.
    eapply triple_bind with (R := fun _ _ => True); [apply triple_modify; auto|].
    intros ?. apply triple_ret. auto.
  - intros orderbook.
    eapply triple_bind with (R := fun _ _ => True); [apply triple_modify; auto|].
    intros ?. apply triple_ret. auto.
Qed.

(** A Market object that the market cache does not refer to is out of the
    reach of a resolution. *)
Lemma unshared_Frame s0 s r market :
  Frame s0 (fun _ => True) s -> unshared r market s0 -> unshared r market s.
Proof.
  intros [Hlen Hheap Hmk Hix] [Hr Hno].
  assert (r < List.length (heap s0))%nat as Hlt by (eapply lookup_lt_Some, Hr).
  split.
  - rewrite Hheap; [exact Hr | exact Hlt |].
    intros (k & _ & Hk). exact (Hno k Hk).
  - intros k Hk. destruct (Hmk k r Hk) as [H|H]; [exact (Hno k H) | lia].
Qed.

(** A constituent whose fetch fails gets a fallback market: a new Market
    object that the market cache does not refer to. *)
Lemma fetchConstituent_fallback rt sdk index marketId i s :
  wellFormed s -> fetchFails sdk s marketId ->
  exists r s' p h v e,
    fetchConstituent rt sdk index marketId i s = (inl r, s') /\
    wellFormed s' /\
    (forall other, fetchFails sdk s other -> fetchFails sdk s' other) /\
    Frame s (fun _ => True) s' /\
    unshared r (fallbackMarket rt marketId (List.length (Index.makrtesIds index))
                  (Index.positionNames index !! i) p h v e) s'.
Proof.
  intros Hwf Hff.
  pose proof (Frame_fetchConstituent s (fun _ => True) rt sdk index marketId i I s
                (Frame_refl s (fun _ => True))) as HF.
  revert HF. unfold fetchConstituent, try_catch.
  pose proof (fetchMarketData_throws rt sdk index marketId i s Hff) as H1.
  pose proof (wellFormed_fetchMarketData rt sdk index marketId i s Hwf) as H2.
  assert (forall other, fetchFails sdk s other ->
            match fetchMarketData rt sdk index marketId i s with
            | (inl _, _) => True
            | (inr _, s1) => fetchFails sdk s1 other
            end) as H3
    by (intros other Ho; exact (fetchMarketData_keeps_fetchFails rt sdk index marketId i other s Ho)).
  destruct (fetchMarketData rt sdk index marketId i s) as [[r0|e0] s1]; [destruct H1|].
  rewrite createFallbackMarket_spec. intros HF.
  eexists _, _, _, _, _, _. split; [reflexivity|].
  split; [|split; [|split; [exact HF|]]].
  - intros k r Hk. simpl. rewrite length_app. specialize (H2 k r Hk). lia.
  - intros other Ho. exact (H3 other Ho).
  - split.
    + simpl. apply list_lookup_middle. reflexivity.
    + intros k Hk. simpl in Hk. specialize (H2 k _ Hk). lia.
Qed.

(** When the fetch of every constituent fails, the callbacks give every slot
    a fallback market of its own. *)
Lemma mapM_i_fetch_fallback rt sdk index ids : forall i s,
  wellFormed s ->
  (forall marketId, In marketId ids -> fetchFails sdk s marketId) ->
  exists refs s',
    mapM_i (fetchConstituent rt sdk index) ids i s = (inl refs, s') /\
    (forall r market, unshared r market s -> unshared r market s') /\
    forall j marketId, ids !! j = Some marketId ->
      exists r p h v e,
        refs !! j = Some r /\
        unshared r (fallbackMarket rt marketId (List.length (Index.makrtesIds index))
                      (Index.positionNames index !! (i + j)%nat) p h v e) s'.
Proof.
  induction ids as [|marketId ids IH]; intros i s Hwf Hfail.
  - exists [], s. split; [reflexivity|]. split; [auto|]. intros j m Hj. discriminate.
  - destruct (fetchConstituent_fallback rt sdk index marketId i s Hwf
                (Hfail marketId (or_introl eq_refl)))
      as (r & s1 & p & h & v & e & Hr & Hwf1 & Hff1 & HF1 & Hu1).
    destruct (IH (S i) s1 Hwf1) as (refs & s' & Hmap & Hkeep & Hfb).
    { intros m Hm. apply Hff1, Hfail. right. exact Hm. }
    exists (r :: refs), s'. split; [|split].
    + simpl mapM_i. unfold bind at 1. rewrite Hr. unfold bind at 1. rewrite Hmap.
      reflexivity.
    + intros r0 m0 H0. apply Hkeep. exact (unshared_Frame s s1 r0 m0 HF1 H0).
    + intros [|j] m Hj.
      * injection Hj as <-. rewrite Nat.add_0_r.
        exists r, p, h, v, e. split; [reflexivity|]. apply Hkeep, Hu1.
      * simpl in Hj. destruct (Hfb j m Hj) as (r' & p' & h' & v' & e' & Hl & Hu).
        exists r', p', h', v', e'. split; [exact Hl|].
        replace (i + S j)%nat with (S i + j)%nat by lia. exact Hu.
Qed.

(** C1: for the id of a predefined index, [getIndexWithData] returns an
    Index and does not throw.  When the index is not in the cache, the Index
    it returns is memoized, keeps the id and the constituents of the
    definition, has one market per constituent slot and its derived fields
    set; and when the fetch of every constituent fails, whichever of its
    three provider calls it is that fails and whether or not its market is
    in the cache, every slot holds a fallback market for the market id and
    the position code of that slot. *)
Theorem getIndexWithData_predefined rt sdk indexId definition s :
  getPredefinedIndex indexId = Some definition ->
  (exists index, fst (getIndexWithData rt sdk indexId s) = inl index) /\
  (cachedIndexes s !! indexId = None ->
   exists index s' refs,
     getIndexWithData rt sdk indexId s = (inl index, s') /\
     cachedIndexes s' !! indexId = Some index /\
     Index.id index = indexId /\
     Index.makrtesIds index = Index.makrtesIds definition /\
     Index.markets index = Some refs /\
     List.length refs = List.length (Index.makrtesIds definition) /\
     is_Some (Index.daysRemaining index) /\ is_Some (Index.expired index) /\
     is_Some (Index.settlementDate index) /\ is_Some (Index.yieldRange index) /\
     is_Some (Index.marketCap index) /\
     (wellFormed s ->
      (forall marketId, In marketId (Index.makrtesIds definition) ->
         fetchFails sdk s marketId) ->
      forall i marketId, Index.makrtesIds definition !! i = Some marketId ->
        exists r p h v e,
          refs !! i = Some r /\
          heap s' !! r
          = Some (fallbackMarket rt marketId (List.length (Index.makrtesIds definition))
                    (Index.positionNames definition !! i) p h v e))).
Proof.
  intros Hdef.
  assert (cachedIndexes s !! indexId = None ->
          exists index s' refs,
            getIndexWithData rt sdk indexId s = (inl index, s') /\
            cachedIndexes s' !! indexId = Some index /\
            Index.id index = indexId /\
            Index.makrtesIds index = Index.makrtesIds definition /\
            Index.markets index = Some refs /\
            List.length refs = List.length (Index.makrtesIds definition) /\
            is_Some (Index.daysRemaining index) /\ is_Some (Index.expired index) /\
            is_Some (Index.settlementDate index) /\ is_Some (Index.yieldRange index) /\
            is_Some (Index.marketCap index) /\
            (wellFormed s ->
             (forall marketId, In marketId (Index.makrtesIds definition) ->
                fetchFails sdk s marketId) ->
             forall i marketId, Index.makrtesIds definition !! i = Some marketId ->
               exists r p h v e,
                 refs !! i = Some r /\
                 heap s' !! r
                 = Some (fallbackMarket rt marketId
                           (List.length (Index.makrtesIds definition))
                           (Index.positionNames definition !! i) p h v e))) as Hfresh.
  { intros Hc.
    destruct (getIndexWithData_fresh rt sdk indexId definition s Hdef Hc)
      as (refs & s1 & index & s2 & Hmap & Hcalc & Hget).
    destruct (mapM_i_fetch_returns rt sdk definition (Index.makrtesIds definition) 0 s)
      as (refs' & s1' & Hmap' & Hlen & _).
    rewrite Hmap in Hmap'. injection Hmap' as <- <-.
    destruct (calculateIndexFields_returns rt (set_markets refs definition) s1)
      as (index' & s2' & Hcalc' & Hheap & _ & _ & Hmk & Hid & Hids & _ & Hd & He & Hs & Hy & Hm).
    rewrite Hcalc in Hcalc'. injection Hcalc' as <- <-.
    exists index, (set_cachedIndexes (<[indexId := index]> (cachedIndexes s2)) s2), refs.
    split; [exact Hget|]. split; [apply lookup_insert_eq|].
    split; [rewrite Hid; exact (getPredefinedIndex_id indexId definition Hdef)|].
    split; [exact Hids|]. split; [exact Hmk|]. split; [exact Hlen|].
    do 5 (split; [assumption|]).
    intros Hwf Hfail i marketId Hi.
    destruct (mapM_i_fetch_fallback rt sdk definition (Index.makrtesIds definition) 0 s
                Hwf Hfail)
      as (refs' & s1' & Hmap' & _ & Hfb).
    rewrite Hmap in Hmap'. injection Hmap' as <- <-.
    destruct (Hfb i marketId Hi) as (r & p & h & v & e & Hr & [Hu _]).
    exists r, p, h, v, e. split; [exact Hr|]. simpl heap. rewrite Hheap. exact Hu. }
  split; [|exact Hfresh].
  destruct (cachedIndexes s !! indexId) as [cached|] eqn:Hc.
  - exists cached. unfold getIndexWithData, try_catch, bind, get_state. rewrite Hc. reflexivity.
  - destruct (Hfresh eq_refl) as (index & s' & _ & -> & _). exists index. reflexivity.
Qed.

Lemma getIndexWithData_predefined_witness :
  getPredefinedIndex "90-percent-index"
  = Some (Index.define "90-percent-index" "90% Index of Yes and No"
            ["544924"; "543148"; "528716"; "528717"] [1; 1; 2; 2]%Z [""; ""; ""; ""]
            0 0 "Active" "0x2f583fa67768b4d0c092ce35455202602ec60c76" "3 days")
  /\ exists index s' refs,
       getIndexWithData exampleRuntime historylessSDK "90-percent-index" newService
       = (inl index, s')
       /\ Index.markets index = Some refs
       /\ List.length refs = 4%nat
       /\ forall i marketId,
            ["544924"; "543148"; "528716"; "528717"] !! i = Some marketId ->
            exists r market,
              refs !! i = Some r /\ heap s' !! r = Some market /\
              Market.name market = "Market " +:+ marketId /\
              Market.category market = "Unknown".
Proof.
  split; [reflexivity|].
  destruct (getIndexWithData_predefined exampleRuntime historylessSDK "90-percent-index" _
              newService eq_refl) as [_ H].
  destruct (H eq_refl)
    as (index & s' & refs & Hget & _ & _ & _ & Hmk & Hlen & _ & _ & _ & _ & _ & Hfb).
  exists index, s', refs. split; [exact Hget|]. split; [exact Hmk|]. split; [exact Hlen|].
  intros i marketId Hi.
  destruct (Hfb (fun k r Hk => match lookup_empty_Some k r Hk with end)
              (fun m _ => or_intror (or_introl (conj eq_refl (ex_intro _ _ eq_refl))))
              i marketId Hi)
    as (r & p & h & v & e & Hr & Hm).
  eexists r, _. split; [exact Hr|]. split; [exact Hm|]. split; reflexivity.
Defined.

(** C1, the claim as stated fails: for an id without a definition,
    [getIndexWithData] throws; the [catch] calls [createFallbackIndex], which
    throws for such an id. *)
Lemma getIndexWithData_unknown_throws :
  fst (getIndexWithData exampleRuntime failingSDK "no-such-index" newService)
  = inr "Index with ID no-such-index not found".
Proof. reflexivity. Qed.

(** ** Further properties of the service *)

(** X1: a market that [getMarket] returned is memoized: the next
    [getMarket] for the same provider and id returns the same Market object
    and leaves the state as it is, whatever the provider would answer. *)
Theorem getMarket_memoizes rt sdk provider marketId s market :
  fst (getMarket rt sdk provider marketId s) = inl market ->
  forall rt' sdk',
    getMarket rt' sdk' provider marketId (snd (getMarket rt sdk provider marketId s))
    = (inl market, snd (getMarket rt sdk provider marketId s)).
Proof.
  intros H rt' sdk'.
  assert (cachedMarkets (snd (getMarket rt sdk provider marketId s))
            !! (provider +:+ "-" +:+ marketId) = Some market) as Hc.
  { revert H. unfold getMarket, try_catch, bind, get_state, await, alloc, modify, ret, throw.
    destruct (cachedMarkets s !! _) eqn:Hc; simpl.
    - intros [= <-]. exact Hc.
    - destruct (getExchange sdk provider marketId) as [exchange|e]; simpl.
      + intros [= <-]. apply lookup_insert_eq.
      + discriminate. }
  set (s1 := snd (getMarket rt sdk provider marketId s)) in *.
  unfold getMarket, try_catch, bind, get_state, ret. rewrite Hc. reflexivity.
Qed.

Lemma getMarket_memoizes_witness :
  fst (getMarket exampleRuntime (exampleSDK 10) "polymarket" "534197" newService)
  = inl 0%nat
  /\ getMarket exampleRuntime failingSDK "polymarket" "534197"
       (snd (getMarket exampleRuntime (exampleSDK 10) "polymarket" "534197" newService))
     = (inl 0%nat,
        snd (getMarket exampleRuntime (exampleSDK 10) "polymarket" "534197" newService)).
Proof.
  split; [reflexivity|].
  apply (getMarket_memoizes exampleRuntime (exampleSDK 10) "polymarket" "534197"
           newService 0%nat eq_refl).
Defined.



(** X3: a lookup that is not in the cache and whose provider call fails
    throws an error that names the market and carries the provider's
    message, and leaves the state as it was; this holds for the market, the
    price history and the order book. *)
Theorem fetch_failure_is_rethrown rt sdk provider marketId s e :
  (cachedMarkets s !! (provider +:+ "-" +:+ marketId) = None ->
   getExchange sdk provider marketId = inr e ->
   getMarket rt sdk provider marketId s
   = (inr ("Failed to fetch market " +:+ marketId +:+ ": " +:+ e), s)) /\
  (cachedPriceHistories s !! (provider +:+ "-" +:+ marketId) = None ->
   getPriceHistory sdk provider marketId = inr e ->
   getMarketPriceHistory sdk provider marketId s
   = (inr ("Failed to fetch price history for market " +:+ marketId +:+ ": " +:+ e), s)) /\
  (cachedOrderbooks s !! (provider +:+ "-" +:+ marketId) = None ->
   getOrderbook sdk provider marketId = inr e ->
   getMarketOrderbook sdk provider marketId s
   = (inr ("Failed to fetch orderbook for market " +:+ marketId +:+ ": " +:+ e), s)).
Proof.
  split; [|split]; intros Hc He.
  - unfold getMarket, try_catch, bind, get_state, await, throw. rewrite Hc, He. reflexivity.
  - unfold getMarketPriceHistory, try_catch, bind, get_state, await, throw.
    rewrite Hc, He. reflexivity.
  - unfold getMarketOrderbook, try_catch, bind, get_state, await, throw.
    rewrite Hc, He. reflexivity.
Qed.

Lemma fetch_failure_is_rethrown_witness :
  getMarket exampleRuntime failingSDK "polymarket" "534197" newService
  = (inr "Failed to fetch market 534197: network error", newService)
  /\ getMarketPriceHistory failingSDK "polymarket" "534197" newService
     = (inr "Failed to fetch price history for market 534197: network error", newService)
  /\ getMarketOrderbook failingSDK "polymarket" "534197" newService
     = (inr "Failed to fetch orderbook for market 534197: network error", newService).
Proof.
  destruct (fetch_failure_is_rethrown exampleRuntime failingSDK "polymarket" "534197"
              newService "network error") as (H1 & H2 & H3).
  split; [|split].
  - exact (H1 eq_refl eq_refl).
  - exact (H2 eq_refl eq_refl).
  - exact (H3 eq_refl eq_refl).
Defined.

(** X4: an order book that [getMarketOrderbook] returned is memoized: the
    next lookup returns it and leaves the state as it is, whatever the
    provider would answer. *)
Theorem getMarketOrderbook_second_lookup sdk provider marketId s orderbook :
  fst (getMarketOrderbook sdk provider marketId s) = inl orderbook ->
  forall sdk',
    getMarketOrderbook sdk' provider marketId (snd (getMarketOrderbook sdk provider marketId s))
    = (inl orderbook, snd (getMarketOrderbook sdk provider marketId s)).
Proof.
  intros H sdk'. apply getMarketOrderbook_cached.
  apply getMarketOrderbook_memoizes, H.
Qed.

Lemma getMarketOrderbook_second_lookup_witness :
  fst (getMarketOrderbook (exampleSDK 10) "polymarket" "534197" newService) = inl []
  /\ getMarketOrderbook failingSDK "polymarket" "534197"
       (snd (getMarketOrderbook (exampleSDK 10) "polymarket" "534197" newService))
     = (inl [],
        snd (getMarketOrderbook (exampleSDK 10) "polymarket" "534197" newService)).
Proof.
  split; [reflexivity|].
  apply (getMarketOrderbook_second_lookup (exampleSDK 10) "polymarket" "534197"
           newService [] eq_refl).
Defined.

(** X5: for an end date that parses, [calculateRemainingHours] is a finite
    number that is never negative, positive when the end is still to come,
    and [0] when the end is now or in the past. *)
Theorem calculateRemainingHours_parseable rt endDateStr t :
  parseDate rt endDateStr = Some t ->
  exists hours,
    calculateRemainingHours rt endDateStr = Num hours /\
    (0 <= hours)%Q /\
    ((t <= now rt)%Z -> (hours == 0)%Q) /\
    ((now rt < t)%Z -> (0 < hours)%Q).
Proof.
  intros H. rewrite (calculateRemainingHours_parsed rt endDateStr t H).
  eexists. split; [reflexivity|].
  set (x := ((inject_Z t + - inject_Z (now rt)) / (1000 * 60 * 60))%Q).
  assert (x == inject_Z (t - now rt) / 3600000)%Q as Hx.
  { unfold x, Z.sub. rewrite inject_Z_plus, inject_Z_opp. field. }
  split; [apply Q.le_max_l|]. split.
  - intros Hle. apply Q.max_l. rewrite Hx.
    assert (inject_Z (t - now rt) <= 0)%Q by (rewrite <- (Zle_Qle _ 0); lia).
    apply Qle_shift_div_r; lra.
  - intros Hlt. apply Qlt_le_trans with x; [|apply Q.le_max_r].
    rewrite Hx.
    assert (0 < inject_Z (t - now rt))%Q by (rewrite <- (Zlt_Qlt 0); lia).
    apply Qlt_shift_div_l; lra.
Qed.

Lemma calculateRemainingHours_parseable_witness :
  parseDate exampleRuntime "2023-11-15T00:00:00.000Z" = Some 1700006400000%Z
  /\ exists hours,
       calculateRemainingHours exampleRuntime "2023-11-15T00:00:00.000Z" = Num hours
       /\ (0 < hours)%Q.
Proof.
  split; [reflexivity|].
  destruct (calculateRemainingHours_parseable exampleRuntime "2023-11-15T00:00:00.000Z"
              1700006400000%Z eq_refl) as (hours & H & _ & _ & Hpos).
  exists hours. split; [exact H|]. apply Hpos. reflexivity.
Defined.



(** X7: an Index that [getIndexWithData] resolved for a predefined id is
    memoized: the next call for the same id returns the same Index and
    leaves the state as it is, whatever the runtime and the provider would
    answer. *)
Theorem getIndexWithData_memoizes rt sdk indexId definition s :
  getPredefinedIndex indexId = Some definition ->
  exists index,
    fst (getIndexWithData rt sdk indexId s) = inl index /\
    forall rt' sdk',
      getIndexWithData rt' sdk' indexId (snd (getIndexWithData rt sdk indexId s))
      = (inl index, snd (getIndexWithData rt sdk indexId s)).
Proof.
  intros Hdef.
  assert (forall index s', cachedIndexes s' !! indexId = Some index ->
            forall rt' sdk', getIndexWithData rt' sdk' indexId s' = (inl index, s')) as Hhit.
  { intros index s' Hc rt' sdk'.
    unfold getIndexWithData, try_catch, bind, get_state. rewrite Hc. reflexivity. }
  destruct (cachedIndexes s !! indexId) as [cached|] eqn:Hc.
  - exists cached. rewrite (Hhit cached s Hc rt sdk). split; [reflexivity|].
    exact (Hhit cached s Hc).
  - destruct (getIndexWithData_fresh rt sdk indexId definition s Hdef Hc)
      as (refs & s1 & index & s2 & _ & _ & ->).
    exists index. split; [reflexivity|]. apply Hhit. apply lookup_insert_eq.
Qed.

Lemma getIndexWithData_memoizes_witness :
  exists index,
    fst (getIndexWithData exampleRuntime (exampleSDK 10) "90-percent-index" newService)
    = inl index
    /\ fst (getIndexWithData exampleRuntime failingSDK "90-percent-index"
              (snd (getIndexWithData exampleRuntime (exampleSDK 10) "90-percent-index"
                      newService)))
       = inl index.
Proof.
  destruct (getIndexWithData_memoizes exampleRuntime (exampleSDK 10) "90-percent-index" _
              newService eq_refl) as (index & H1 & H2).
  exists index. split; [exact H1|]. rewrite (H2 exampleRuntime failingSDK). reflexivity.
Defined.

Lemma wellFormed_createFallbackMarket rt marketId i totalMarkets positionType :
  keeps wellFormed (createFallbackMarket rt marketId i totalMarkets positionType).
Proof.
  unfold createFallbackMarket.
  do 4 (apply keeps_bind; [apply wellFormed_Math_random | intros ?]).
  eapply triple_weaken; [apply wellFormed_alloc | auto | intros ? ? [H _]; exact H | auto].
Qed.

Lemma wellFormed_fetchConstituent rt sdk index marketId i :
  keeps wellFormed (fetchConstituent rt sdk index marketId i).
Proof.
  unfold fetchConstituent.
  apply keeps_try_catch;
    [apply wellFormed_fetchMarketData | intros e; apply wellFormed_createFallbackMarket].
Qed.

Lemma wellFormed_mapM_i {A} (f : A -> nat -> M ref) l :
  (forall a i, keeps wellFormed (f a i)) ->
  forall i, keeps wellFormed (mapM_i f l i).
Proof.
  intros Hf. induction l as [|a l IH]; intros i; simpl mapM_i.
  - apply keeps_ret.
  - apply keeps_bind; [apply Hf|]. intros r.
    apply keeps_bind; [apply IH|]. intros rs. apply keeps_ret.
Qed.

Lemma wellFormed_calculateIndexFields rt index :
  keeps wellFormed (calculateIndexFields rt index).
Proof.
  intros s Hs.
  destruct (calculateIndexFields_returns rt index s)
    as (index' & s' & -> & Hh & _ & Hm & _).
  intros k r Hk. rewrite Hh. rewrite Hm in Hk. exact (Hs k r Hk).
Qed.

Lemma wellFormed_createFallbackIndex rt indexId :
  keeps wellFormed (createFallbackIndex rt indexId).
Proof.
  unfold createFallbackIndex.
  destruct (getPredefinedIndex indexId) as [index|]; [|apply keeps_throw].
  do 6 (apply keeps_bind; [apply wellFormed_Math_random | intros ?]).
  apply keeps_bind; [|intros ?; apply keeps_ret].
  apply wellFormed_mapM_i. intros marketId i. apply wellFormed_createFallbackMarket.
Qed.

(** X8: the market cache of a new service refers to no Market object, and
    [getIndexWithData] keeps every reference of the market cache one to a
    Market object that exists, whether it returns or throws. *)
Theorem getIndexWithData_wellFormed rt sdk indexId s :
  wellFormed newService /\
  (wellFormed s -> wellFormed (snd (getIndexWithData rt sdk indexId s))).
Proof.
  split.
  - intros k r Hk. exact (match lookup_empty_Some k r Hk with end).
  - apply keeps_snd. unfold getIndexWithData.
    apply keeps_try_catch; [|intros e; apply wellFormed_createFallbackIndex].
    apply keeps_bind; [apply keeps_get_state|]. intros s1.
    destruct (cachedIndexes s1 !! indexId); [apply keeps_ret|].
    destruct (getPredefinedIndex indexId) as [definition|]; [|apply keeps_throw].
    apply keeps_bind;
      [apply wellFormed_mapM_i; intros a i; apply wellFormed_fetchConstituent|].
    intros markets.
    apply keeps_bind; [apply wellFormed_calculateIndexFields|]. intros index.
    apply keeps_bind; [apply keeps_modify; intros s' Hs'; exact Hs'|].
    intros ?. apply keeps_ret.
Qed.

Lemma getIndexWithData_wellFormed_witness :
  wellFormed
    (snd (getIndexWithData exampleRuntime (exampleSDK 20) "reliable-forecast"
            (snd (getIndexWithData exampleRuntime historylessSDK "90-percent-index"
                    newService)))).
Proof.
  destruct (getIndexWithData_wellFormed exampleRuntime historylessSDK "90-percent-index"
              newService) as [H0 H1].
  destruct (getIndexWithData_wellFormed exampleRuntime (exampleSDK 20) "reliable-forecast"
              (snd (getIndexWithData exampleRuntime historylessSDK "90-percent-index"
                      newService))) as [_ H2].
  exact (H2 (H1 H0)).
Defined.

(** ** Further properties of the candles *)

(** X9: [generateCandleData] of an empty array, or of a reference to no
    array, returns no candle and leaves the arrays as they are, whatever the
    bucket width. *)
Theorem generateCandleData_empty fuel tradeRecords intervalHours (arrays : Arrays) :
  arrays !! tradeRecords = Some [] \/ arrays !! tradeRecords = None ->
  generateCandleData fuel tradeRecords intervalHours arrays = (Some [], arrays).
Proof.
  intros [H|H]; unfold generateCandleData; rewrite H; reflexivity.
Qed.

Lemma generateCandleData_empty_witness :
  generateCandleData 0 0 4 [[]] = (Some [], [[]]).
Proof.
  apply generateCandleData_empty. left. reflexivity.
Defined.

Lemma last_In {A} (l : list A) : forall x d, In (List.last (x :: l) d) (x :: l).
Proof.
  induction l as [|y l IH]; intros x d; [left; reflexivity|].
  right. apply IH.
Qed.

Lemma candleOf_shape time first others :
  (CandleData.low (candleOf time first others)
   <= CandleData.open (candleOf time first others)
   <= CandleData.high (candleOf time first others))%Q /\
  (CandleData.low (candleOf time first others)
   <= CandleData.close (candleOf time first others)
   <= CandleData.high (candleOf time first others))%Q.
Proof.
  unfold candleOf. simpl.
  destruct (maxOf_spec (map TradeRecord.price others) (TradeRecord.price first)) as [_ Hmax].
  destruct (minOf_spec (map TradeRecord.price others) (TradeRecord.price first)) as [_ Hmin].
  rewrite Forall_forall in Hmax, Hmin.
  assert (In (TradeRecord.price (List.last (first :: others) first))
             (TradeRecord.price first :: map TradeRecord.price others)) as Hlast.
  { change (TradeRecord.price first :: map TradeRecord.price others)
      with (map TradeRecord.price (first :: others)).
    apply in_map, last_In. }
  apply list_elem_of_In in Hlast.
  pose proof (Hmax _ Hlast). pose proof (Hmin _ Hlast).
  assert (TradeRecord.price first ∈ TradeRecord.price first :: map TradeRecord.price others)
    as Hfirst by (left).
  pose proof (Hmax _ Hfirst). pose proof (Hmin _ Hfirst).
  split; split; assumption.
Qed.

(** The open, high, low and close of the candle of an interval are prices of
    records of the interval. *)
Lemma candleOf_prices time first others :
  Forall (fun p => In p (map TradeRecord.price (first :: others)))
    [CandleData.open (candleOf time first others);
     CandleData.high (candleOf time first others);
     CandleData.low (candleOf time first others);
     CandleData.close (candleOf time first others)].
Proof.
  unfold candleOf. simpl CandleData.open. simpl CandleData.high.
  simpl CandleData.low. simpl CandleData.close.
  destruct (maxOf_spec (map TradeRecord.price others) (TradeRecord.price first)) as [Hmax _].
  destruct (minOf_spec (map TradeRecord.price others) (TradeRecord.price first)) as [Hmin _].
  constructor; [left; reflexivity|]. constructor; [exact Hmax|].
  constructor; [exact Hmin|]. constructor; [|constructor].
  apply in_map, last_In.
Qed.

Lemma candleLoop_Forall (P : CandleData.t -> Prop) sortedRecords intervalMs endTime :
  (forall time first others,
     intervalRecordsOf sortedRecords intervalMs time = first :: others ->
     P (candleOf time first others)) ->
  forall fuel time candles result,
    Forall P candles ->
    candleLoop fuel sortedRecords intervalMs endTime time candles = Some result ->
    Forall P result.
Proof.
  intros HP. induction fuel as [|fuel IH]; intros time candles result Hc; simpl.
  - destruct (JS.nleb time endTime); [discriminate|]. intros [= <-]. exact Hc.
  - destruct (JS.nleb time endTime); [|intros [= <-]; exact Hc].
    apply IH.
    destruct (intervalRecordsOf sortedRecords intervalMs time) as [|first others] eqn:Hi;
      [exact Hc|].
    apply Forall_app. split; [exact Hc|]. constructor; [|constructor].
    apply (HP time first others Hi).
Qed.

(** X10: every candle that [generateCandleData] returns, for whatever bucket
    width, is well shaped: its low is at most its open and its close, and
    they are at most its high; and its open, high, low and close are prices
    of trades of the series. *)
Theorem generateCandleData_well_shaped fuel tradeRecords intervalHours (arrays : Arrays)
    series candles :
  arrays !! tradeRecords = Some series ->
  fst (generateCandleData fuel tradeRecords intervalHours arrays) = Some candles ->
  Forall (fun c =>
            (CandleData.low c <= CandleData.open c <= CandleData.high c)%Q /\
            (CandleData.low c <= CandleData.close c <= CandleData.high c)%Q /\
            Forall (fun p => In p (map TradeRecord.price series))
              [CandleData.open c; CandleData.high c; CandleData.low c; CandleData.close c])
         candles.
Proof.
  intros Ha Hres. destruct series as [|x l].
  - unfold generateCandleData in Hres. rewrite Ha in Hres.
    injection Hres as <-. constructor.
  - destruct (generateCandleData_value fuel tradeRecords intervalHours arrays x l Ha)
      as (first & rest & Hsort & Hval).
    rewrite Hval in Hres. revert Hres.
    apply candleLoop_Forall; [|constructor].
    intros time first' others Hi.
    destruct (candleOf_shape time first' others) as [H1 H2].
    split; [exact H1|]. split; [exact H2|].
    eapply Forall_impl; [apply candleOf_prices|].
    intros p Hp. apply in_map_iff in Hp as (r & <- & Hr). apply in_map.
    assert (In r (first :: rest)) as Hin.
    { rewrite <- Hi in Hr. unfold intervalRecordsOf in Hr.
      apply filter_In in Hr as [Hr _]. exact Hr. }
    rewrite <- Hsort in Hin.
    eapply Permutation_in; [apply sort_perm | exact Hin].
Qed.

Lemma generateCandleData_well_shaped_witness :
  exists candles,
    fst (generateCandleData 3 0 4 exampleTrades) = Some candles
    /\ Forall (fun c => (CandleData.low c <= CandleData.high c)%Q) candles.
Proof.
  destruct (fst (generateCandleData 3 0 4 exampleTrades)) as [candles|] eqn:H;
    [|vm_compute in H; discriminate].
  exists candles. split; [reflexivity|].
  eapply Forall_impl;
    [exact (generateCandleData_well_shaped 3 0 4 exampleTrades _ candles eq_refl H)|].
  intros c [[H1 H2] _]. lra.
Defined.

(** Rounding to the nearest integer, and to the nearest double below
    [2^53], moves a number by a half at most. *)
Lemma roundHalfEven_lower x : (x - (1 # 2) <= inject_Z (JS.roundHalfEven x))%Q.
Proof.
  pose proof (Qlt_floor x) as Hlt. rewrite inject_Z_plus in Hlt.
  change (inject_Z 1) with 1%Q in Hlt.
  destruct (roundHalfEven_cases x) as [[-> H]|[-> H]].
  - lra.
  - rewrite inject_Z_plus. change (inject_Z 1) with 1%Q. lra.
Qed.

Lemma magnitude_lower a :
  (0 < a)%Q -> (a < JS.pow2 53)%Q -> (a - (1 # 2) <= JS.magnitude a)%Q.
Proof.
  intros Ha Hb. destruct (log2floor_spec a Ha) as [L U].
  assert (JS.log2floor a < 53)%Z as He by (apply pow2_lt_inv; lra).
  assert (JS.ulp a <= 1)%Q as Hu.
  { unfold JS.ulp. change 1%Q with (JS.pow2 0). apply pow2_le. lia. }
  pose proof (ulp_pos a) as Hp.
  pose proof (roundHalfEven_lower (a / JS.ulp a)) as Hr.
  assert (a / JS.ulp a * JS.ulp a == a)%Q as Hq by (field; lra).
  unfold JS.magnitude. nra.
Qed.

Lemma round64_lower x :
  (0 < x)%Q -> (x < 9007199254740992)%Q ->
  JS.nleb (Num (x - (1 # 2))) (JS.round64 x) = true.
Proof.
  intros H0 H1. rewrite (round64_positive x H0).
  destruct (Qle_bool _ _); [reflexivity|]. simpl. apply Qle_bool_iff.
  rewrite Qred_correct.
  pose proof (Qabs_pos x) as Ha.
  assert (Qabs x == x)%Q as E by (apply Ha; lra).
  pose proof (magnitude_lower (Qabs x)) as Hm.
  assert (JS.pow2 53 == 9007199254740992)%Q as E53 by reflexivity.
  lra.
Qed.

(** A width of a millisecond or more moves a time between [0] and [2^52]
    milliseconds forward, by half a millisecond at least. *)
Lemma fadd_progress t width :
  (0 <= t)%Q -> (t <= 4503599627370496)%Q ->
  JS.nleb (Num 1) width = true ->
  JS.nleb (Num (t + (1 # 2))) (JS.fadd (Num t) width) = true.
Proof.
  intros H0 H1. destruct width as [w| | |]; intros Hw;
    [|reflexivity | discriminate Hw | discriminate Hw].
  change (Qle_bool 1 w = true) in Hw. apply Qle_bool_iff in Hw.
  change (JS.fadd (Num t) (Num w)) with (JS.round64 (t + w)).
  eapply nleb_trans; [|apply (round64_mono (t + 1) (t + w)); lra].
  eapply nleb_trans; [|apply (round64_lower (t + 1)); lra].
  change (Qle_bool (t + (1 # 2)) (t + 1 - (1 # 2)) = true). apply Qle_bool_iff. lra.
Qed.

Lemma timeAt_progress s width e :
  (0 <= s)%Q -> (e <= 4503599627370496)%Q ->
  JS.nleb (Num 1) width = true ->
  forall k,
    (forall j, (j < k)%nat -> JS.nleb (timeAt (Num s) width j) (Num e) = true) ->
    JS.nleb (Num (s + inject_Z (Z.of_nat k) * (1 # 2))) (timeAt (Num s) width k) = true.
Proof.
  intros Hs He Hw. induction k as [|k IH]; intros Hin.
  - simpl. apply Qle_bool_iff. change (inject_Z (Z.of_nat 0)) with 0%Q. lra.
  - specialize (IH (fun j Hj => Hin j (Nat.lt_lt_succ_r _ _ Hj))).
    pose proof (Hin k (Nat.lt_succ_diag_r k)) as Hk.
    rewrite timeAt_succ.
    destruct (timeAt (Num s) width k) as [tk| | |]; simpl in IH, Hk; try discriminate.
    apply Qle_bool_iff in IH. apply Qle_bool_iff in Hk.
    assert (0 <= inject_Z (Z.of_nat k))%Q as Hk0 by (rewrite <- (Zle_Qle 0); lia).
    eapply nleb_trans; [|apply fadd_progress; [lra | lra | exact Hw]].
    change (Qle_bool (s + inject_Z (Z.of_nat (S k)) * (1 # 2)) (tk + (1 # 2)) = true).
    apply Qle_bool_iff.
    rewrite Nat2Z.inj_succ. unfold Z.succ. rewrite inject_Z_plus.
    change (inject_Z 1) with 1%Q. lra.
Qed.

(** A test that fails at [N] fails for a first time at or before [N]. *)
Lemma first_failure (p : nat -> bool) : forall N,
  (forall k, (k <= N)%nat -> p k = true) \/
  exists n, (n <= N)%nat /\ (forall k, (k < n)%nat -> p k = true) /\ p n = false.
Proof.
  induction N as [|N [IH|(n & Hn & Hlt & Hf)]].
  - destruct (p 0%nat) eqn:H0.
    + left. intros k Hk. replace k with 0%nat by lia. exact H0.
    + right. exists 0%nat. split; [lia|]. split; [intros k Hk; lia | exact H0].
  - destruct (p (S N)) eqn:HS.
    + left. intros k Hk. destruct (Nat.eq_dec k (S N)) as [->|Hne]; [exact HS|].
      apply IH. lia.
    + right. exists (S N). split; [lia|]. split; [intros k Hk; apply IH; lia | exact HS].
  - right. exists n. split; [lia|]. split; assumption.
Qed.

Lemma msOf_bounded r :
  (0 <= TradeRecord.timestamp r * 1000 <= 4503599627370496)%Q ->
  exists m, msOf r = Num m /\ (0 <= m <= 4503599627370496)%Q.
Proof.
  intros [H0 H1].
  pose proof (round64_mono 0 (TradeRecord.timestamp r * 1000) H0) as L.
  pose proof (round64_mono (TradeRecord.timestamp r * 1000) 4503599627370496 H1) as U.
  assert (JS.round64 0 = Num 0) as E0 by reflexivity.
  assert (JS.round64 4503599627370496 = Num 4503599627370496) as E1
    by (vm_compute; reflexivity).
  rewrite E0 in L. rewrite E1 in U.
  unfold msOf, JS.fmul.
  destruct (JS.round64 (TradeRecord.timestamp r * 1000)) as [m| | |];
    simpl in L, U; try discriminate.
  exists m. split; [reflexivity|]. split; apply Qle_bool_iff; assumption.
Qed.

(** X11: with time stamps from 1970 on and up to [2^52] milliseconds and a
    bucket width of a millisecond or more, the loop of [generateCandleData]
    ends: it makes a number [n >= 1] of rounds, no more than twice the span
    of the series in milliseconds plus one, and the call returns candles. *)
Theorem generateCandleData_ends tradeRecords intervalHours (arrays : Arrays) x l :
  arrays !! tradeRecords = Some (x :: l) ->
  Forall (fun r => (0 <= TradeRecord.timestamp r * 1000 <= 4503599627370496)%Q) (x :: l) ->
  JS.nleb (Num 1) (intervalMsOf intervalHours) = true ->
  exists n startMs endMs candles,
    let sorted := JS.sort TradeRecord.timestamp (x :: l) in
    msOf (List.hd x sorted) = Num startMs /\
    msOf (List.last sorted x) = Num endMs /\
    endsAfter (Num startMs) (intervalMsOf intervalHours) (Num endMs) n /\
    (1 <= n)%nat /\
    (inject_Z (Z.of_nat n) <= 2 * (endMs - startMs) + 1)%Q /\
    forall fuel, (n <= fuel)%nat ->
      fst (generateCandleData fuel tradeRecords intervalHours arrays) = Some candles.
Proof.
  intros Ha Hts Hw. cbv zeta.
  pose proof (sort_sorted TradeRecord.timestamp (x :: l)) as Hsorted.
  pose proof (sort_perm TradeRecord.timestamp (x :: l)) as Hperm.
  assert (forall fuel,
            exists first rest,
              JS.sort TradeRecord.timestamp (x :: l) = first :: rest /\
              fst (generateCandleData fuel tradeRecords intervalHours arrays)
              = candleLoop fuel (first :: rest) (intervalMsOf intervalHours)
                  (msOf (List.last (first :: rest) first)) (msOf first) []) as Hval
    by (intros fuel; apply generateCandleData_value, Ha).
  destruct (JS.sort TradeRecord.timestamp (x :: l)) as [|first rest] eqn:Hsort.
  { apply sort_nil_inv in Hsort. discriminate. }
  simpl List.hd. rewrite (last_default rest first x first).
  assert (forall r, In r (first :: rest) ->
            (0 <= TradeRecord.timestamp r * 1000 <= 4503599627370496)%Q) as Hb.
  { intros r Hr. rewrite Forall_forall in Hts. apply Hts, list_elem_of_In.
    eapply Permutation_in; [exact Hperm | exact Hr]. }
  destruct (msOf_bounded first (Hb first (or_introl eq_refl))) as (s & Es & Hs0 & Hs1).
  destruct (msOf_bounded (List.last (first :: rest) first) (Hb _ (last_In rest first first)))
    as (e & Ee & He0 & He1).
  assert (s <= e)%Q as Hse.
  { pose proof (msOf_mono first (List.last (first :: rest) first)
                  (sorted_last_greatest _ _ first _ Hsorted (or_introl eq_refl))) as H.
    rewrite Es, Ee in H. apply Qle_bool_iff in H. exact H. }
  set (width := intervalMsOf intervalHours) in *.
  set (N := S (Z.to_nat (Qfloor (2 * (e - s))))).
  assert (2 * (e - s) < inject_Z (Z.of_nat N))%Q as HN.
  { unfold N. rewrite Nat2Z.inj_succ, Z2Nat.id.
    - unfold Z.succ. apply Qlt_floor.
    - change 0%Z with (Qfloor 0). apply Qfloor_resp_le. lra. }
  destruct (first_failure (fun k => JS.nleb (timeAt (Num s) width k) (Num e)) N)
    as [Hall|(n & Hn & Hin & Hout)].
  { exfalso.
    pose proof (timeAt_progress s width e Hs0 He1 Hw N (fun j Hj => Hall j (Nat.lt_le_incl _ _ Hj)))
      as Hp.
    pose proof (nleb_trans _ _ _ Hp (Hall N (le_n N))) as Hc.
    simpl in Hc. apply Qle_bool_iff in Hc. lra. }
  cbv beta in Hin, Hout.
  exists n, s, e.
  eexists (flat_map (fun j => candlesAt (first :: rest) width (timeAt (Num s) width j))
             (seq 0 n)).
  split; [exact Es|]. split; [exact Ee|]. split; [split; assumption|].
  split; [|split].
  - destruct n as [|n]; [|lia]. simpl in Hout.
    assert (Qle_bool s e = true) as H by (apply Qle_bool_iff; exact Hse). congruence.
  - destruct n as [|n].
    + change (inject_Z (Z.of_nat 0)) with 0%Q. lra.
    + pose proof (timeAt_progress s width e Hs0 He1 Hw n
                    (fun j Hj => Hin j (Nat.lt_lt_succ_r _ _ Hj))) as Hp.
      pose proof (nleb_trans _ _ _ Hp (Hin n (Nat.lt_succ_diag_r n))) as Hc.
      simpl in Hc. apply Qle_bool_iff in Hc.
      rewrite Nat2Z.inj_succ. unfold Z.succ. rewrite inject_Z_plus.
      change (inject_Z 1) with 1%Q. lra.
  - intros fuel Hfuel. destruct (Hval fuel) as (first' & rest' & Hs' & Hv).
    injection Hs' as <- <-. rewrite Hv, Es, Ee.
    apply (candleLoop_unrolled (first :: rest) (Num s) width (Num e) n 0 fuel []).
    + intros j Hj. apply Hin. lia.
    + exact Hout.
    + exact Hfuel.
Qed.

Lemma generateCandleData_ends_witness :
  exists n candles,
    (Z.of_nat n <= 72000001)%Z /\
    forall fuel, (n <= fuel)%nat ->
      fst (generateCandleData fuel 0 4 exampleTrades) = Some candles.
Proof.
  destruct (generateCandleData_ends 0 4 exampleTrades
              (trade 0.5 10 3600) [trade 0.6 20 0; trade 0.7 1 36000] eq_refl)
    as (n & s & e & candles & Hs & He & _ & _ & Hbound & Hres).
  - repeat constructor; discriminate.
  - reflexivity.
  - exists n, candles. split; [|exact Hres].
    vm_compute in Hs. vm_compute in He. injection Hs as <-. injection He as <-.
    rewrite Zle_Qle. eapply Qle_trans; [exact Hbound|].
    change (inject_Z 72000001) with 72000001%Q. lra.
Defined.

(** ** A double rounds to itself *)

Lemma roundHalfEven_comp x y : (x == y)%Q -> JS.roundHalfEven x = JS.roundHalfEven y.
Proof.
  intros H. unfold JS.roundHalfEven. rewrite (Qfloor_comp x y H).
  assert ((x - inject_Z (Qfloor y) ?= 1 # 2) = (y - inject_Z (Qfloor y) ?= 1 # 2))%Q as ->
    by (rewrite H; reflexivity).
  reflexivity.
Qed.

Lemma log2floor_unique a e :
  (0 < a)%Q -> (JS.pow2 e <= a)%Q -> (a < JS.pow2 (e + 1))%Q -> JS.log2floor a = e.
Proof.
  intros Ha L U. destruct (log2floor_spec a Ha) as [L' U'].
  assert (e < JS.log2floor a + 1)%Z by (apply pow2_lt_inv; lra).
  assert (JS.log2floor a < e + 1)%Z by (apply pow2_lt_inv; lra).
  lia.
Qed.

(** The magnitude that rounding gives is a multiple of the weight of its own
    last bit. *)
Lemma magnitude_fixed a r :
  (0 < a)%Q -> (r == JS.magnitude a)%Q -> (0 < r)%Q -> (JS.magnitude r == r)%Q.
Proof.
  intros Ha Hr Hpos.
  destruct (log2floor_spec a Ha) as [La Ua].
  destruct (log2floor_spec r Hpos) as [Lr Ur].
  unfold JS.magnitude in Hr. unfold JS.ulp in Hr.
  set (e := JS.log2floor a) in *.
  set (E := Z.max (e - 52) (-1074)) in *.
  set (m := JS.roundHalfEven (a / JS.pow2 E)) in *.
  pose proof (pow2_pos E) as Pu.
  assert (forall k, (r / JS.pow2 E == inject_Z k)%Q ->
            JS.ulp r = JS.pow2 E -> (JS.magnitude r == r)%Q) as Hsame.
  { intros k Hk Hu. unfold JS.magnitude. rewrite Hu.
    rewrite (roundHalfEven_comp _ _ Hk), roundHalfEven_Z. rewrite <- Hk. field. lra. }
  assert (r / JS.pow2 E == inject_Z m)%Q as Hm by (rewrite Hr; field; lra).
  destruct (Z.le_gt_cases (-1074) (e - 52)) as [Hnormal|Hsub].
  - assert (E = e - 52)%Z as HE by (unfold E; lia).
    assert (JS.pow2 e == inject_Z (2 ^ 52) * JS.pow2 E)%Q as P1.
    { rewrite <- (pow2_nonneg_Z 52) by lia. rewrite <- pow2_add.
      replace (52 + E)%Z with e by lia. reflexivity. }
    assert (JS.pow2 (e + 1) == inject_Z (2 ^ 53) * JS.pow2 E)%Q as P2.
    { rewrite <- (pow2_nonneg_Z 53) by lia. rewrite <- pow2_add.
      replace (53 + E)%Z with (e + 1)%Z by lia. reflexivity. }
    assert (inject_Z (2 ^ 52) <= a / JS.pow2 E)%Q as Q1.
    { apply Qle_shift_div_l; [exact Pu|]. rewrite <- P1. exact La. }
    assert (a / JS.pow2 E <= inject_Z (2 ^ 53))%Q as Q2.
    { apply Qle_shift_div_r; [exact Pu|]. rewrite <- P2. lra. }
    apply roundHalfEven_ge in Q1. apply roundHalfEven_le in Q2. fold m in Q1, Q2.
    rewrite Zle_Qle in Q1, Q2.
    assert (JS.pow2 e <= r)%Q as R1 by (rewrite Hr, P1; apply Qmult_le_compat_r; lra).
    assert (r <= JS.pow2 (e + 1))%Q as R2 by (rewrite Hr, P2; apply Qmult_le_compat_r; lra).
    destruct (Qlt_le_dec r (JS.pow2 (e + 1))) as [Hlt|Hge].
    + apply (Hsame m Hm). unfold JS.ulp.
      rewrite (log2floor_unique r e Hpos R1 Hlt). reflexivity.
    + assert (r == JS.pow2 (e + 1))%Q as Req by lra.
      assert (JS.pow2 (e + 1 + 1) == 2 * JS.pow2 (e + 1))%Q as P3
        by (rewrite (Z.add_comm (e + 1) 1), pow2_add; reflexivity).
      pose proof (pow2_pos (e + 1)) as Pe.
      assert (JS.log2floor r = e + 1)%Z as Hl
        by (apply log2floor_unique; [exact Hpos | lra | lra]).
      assert (JS.ulp r = JS.pow2 (E + 1)) as Hu.
      { unfold JS.ulp. rewrite Hl. f_equal. lia. }
      pose proof (pow2_pos (E + 1)) as Pu1.
      assert (JS.pow2 (e + 1) == inject_Z (2 ^ 52) * JS.pow2 (E + 1))%Q as P4.
      { rewrite <- (pow2_nonneg_Z 52) by lia. rewrite <- pow2_add.
        replace (52 + (E + 1))%Z with (e + 1)%Z by lia. reflexivity. }
      unfold JS.magnitude. rewrite Hu.
      assert (r / JS.pow2 (E + 1) == inject_Z (2 ^ 52))%Q as Hk
        by (rewrite Req, P4; field; lra).
      rewrite (roundHalfEven_comp _ _ Hk), roundHalfEven_Z. rewrite <- Hk. field. lra.
  - assert (E = -1074)%Z as HE by (unfold E; lia).
    assert (JS.pow2 (-1022) == inject_Z (2 ^ 52) * JS.pow2 E)%Q as P1.
    { rewrite <- (pow2_nonneg_Z 52) by lia. rewrite <- pow2_add.
      replace (52 + E)%Z with (-1022)%Z by lia. reflexivity. }
    pose proof (pow2_le (e + 1) (-1022)) as P2.
    assert (a / JS.pow2 E <= inject_Z (2 ^ 52))%Q as Q2.
    { apply Qle_shift_div_r; [exact Pu|]. rewrite <- P1.
      assert (e + 1 <= -1022)%Z as H by lia. specialize (P2 H). lra. }
    apply roundHalfEven_le in Q2. fold m in Q2. rewrite Zle_Qle in Q2.
    assert (r <= JS.pow2 (-1022))%Q as R2 by (rewrite Hr, P1; apply Qmult_le_compat_r; lra).
    assert (JS.pow2 (-1022 + 1) == 2 * JS.pow2 (-1022))%Q as P3
      by (rewrite (Z.add_comm (-1022) 1), pow2_add; reflexivity).
    pose proof (pow2_pos (-1022)) as P4.
    assert (JS.log2floor r < -1022 + 1)%Z as Hl by (apply pow2_lt_inv; lra).
    apply (Hsame m Hm). unfold JS.ulp. f_equal. lia.
Qed.

(** What [round64] gives is a double: rounding it again gives it again. *)
Lemma round64_idem q s : JS.round64 q = Num s -> JS.round64 s = Num s.
Proof.
  intros H.
  destruct (Q_dec q 0) as [[N|P]|Z].
  - rewrite (round64_negative q N) in H.
    destruct (Qle_bool _ _) eqn:O; [discriminate|]. injection H as <-.
    apply Qle_bool_false in O.
    assert (0 < Qabs q)%Q as Ha by (pose proof (Qabs_neg q); lra).
    pose proof (magnitude_nonneg _ Ha) as Hr.
    set (r := JS.magnitude (Qabs q)) in *.
    destruct (Qle_lt_or_eq _ _ Hr) as [Hpos|Hzero].
    + assert (Qred (- r) < 0)%Q as Hs by (rewrite Qred_correct; lra).
      rewrite (round64_negative _ Hs).
      assert (Qabs (Qred (- r)) == r)%Q as Eabs.
      { rewrite Qred_correct. pose proof (Qabs_neg (- r)). lra. }
      assert (0 < Qabs (Qred (- r)))%Q as Hp' by lra.
      pose proof (magnitude_fixed (Qabs q) (Qabs (Qred (- r))) Ha Eabs Hp') as Hfix.
      assert (Qle_bool (JS.pow2 1024) (JS.magnitude (Qabs (Qred (- r)))) = false) as ->
        by (apply Qle_bool_false; lra).
      f_equal. apply Qred_complete. lra.
    + assert (Qred (- r) = 0%Q) as -> by (apply (Qred_complete (- r) 0); lra).
      reflexivity.
  - rewrite (round64_positive q P) in H.
    destruct (Qle_bool _ _) eqn:O; [discriminate|]. injection H as <-.
    apply Qle_bool_false in O.
    assert (0 < Qabs q)%Q as Ha by (pose proof (Qabs_pos q); lra).
    pose proof (magnitude_nonneg _ Ha) as Hr.
    set (r := JS.magnitude (Qabs q)) in *.
    destruct (Qle_lt_or_eq _ _ Hr) as [Hpos|Hzero].
    + assert (0 < Qred r)%Q as Hs by (rewrite Qred_correct; lra).
      rewrite (round64_positive _ Hs).
      assert (Qabs (Qred r) == r)%Q as Eabs.
      { rewrite Qred_correct. pose proof (Qabs_pos r). lra. }
      assert (0 < Qabs (Qred r))%Q as Hp' by lra.
      pose proof (magnitude_fixed (Qabs q) (Qabs (Qred r)) Ha Eabs Hp') as Hfix.
      assert (Qle_bool (JS.pow2 1024) (JS.magnitude (Qabs (Qred r))) = false) as ->
        by (apply Qle_bool_false; lra).
      f_equal. apply Qred_complete. lra.
    + assert (Qred r = 0%Q) as -> by (apply (Qred_complete r 0); lra).
      reflexivity.
  - rewrite (round64_zero q Z) in H. injection H as <-. reflexivity.
Qed.

(** A product with a positive number keeps a number at or below zero
    there. *)
Lemma fmul_nonpositive x c :
  JS.nleb x (Num 0) = true -> (0 < c)%Q -> JS.nleb (JS.fmul x (Num c)) (Num 0) = true.
Proof.
  intros Hx Hc. destruct x as [a| | |]; try discriminate Hx.
  - change (Qle_bool a 0 = true) in Hx. apply Qle_bool_iff in Hx.
    change (JS.fmul (Num a) (Num c)) with (JS.round64 (a * c)).
    change (Num 0) with (JS.round64 0). apply round64_mono. nra.
  - unfold JS.fmul.
    assert (Qeq_bool c 0 = false) as ->
      by (destruct (Qeq_bool c 0) eqn:E; [apply Qeq_bool_iff in E; lra | reflexivity]).
    unfold JS.negative.
    assert (JS.Qlt_bool c 0 = false) as -> by (apply Qlt_bool_false; lra).
    reflexivity.
Qed.

Lemma intervalMsOf_nonpositive intervalHours :
  (intervalHours <= 0)%Q -> JS.nleb (intervalMsOf intervalHours) (Num 0) = true.
Proof.
  intros H. unfold intervalMsOf.
  repeat (apply fmul_nonpositive; [|reflexivity]).
  apply Qle_bool_iff, H.
Qed.

(** X12: with a bucket width that is zero or negative and a series with a
    record whose time stamps are finite in milliseconds, the loop of
    [generateCandleData] does not end: whatever the number of rounds it is
    run for, its variable has not passed the last time stamp, and the call
    returns nothing. *)
Theorem generateCandleData_nonpositive_width fuel tradeRecords intervalHours (arrays : Arrays)
    x l :
  arrays !! tradeRecords = Some (x :: l) ->
  Forall (fun r => exists ms, msOf r = Num ms) (x :: l) ->
  (intervalHours <= 0)%Q ->
  fst (generateCandleData fuel tradeRecords intervalHours arrays) = None.
Proof.
  intros Ha Hfin Hw.
  destruct (generateCandleData_value fuel tradeRecords intervalHours arrays x l Ha)
    as (first & rest & Hsort & Hval).
  pose proof (sort_sorted TradeRecord.timestamp (x :: l)) as Hsorted.
  pose proof (sort_perm TradeRecord.timestamp (x :: l)) as Hperm.
  rewrite Hsort in Hsorted, Hperm.
  assert (exists s, msOf first = Num s) as [s Es].
  { rewrite Forall_forall in Hfin. apply Hfin, list_elem_of_In.
    eapply Permutation_in; [exact Hperm | left; reflexivity]. }
  pose proof (msOf_mono first (List.last (first :: rest) first)
                (sorted_last_greatest _ _ first _ Hsorted (or_introl eq_refl))) as Hse.
  pose proof (intervalMsOf_nonpositive intervalHours Hw) as Hims.
  rewrite Hval.
  set (width := intervalMsOf intervalHours) in *.
  set (endTime := msOf (List.last (first :: rest) first)) in *.
  assert (JS.nleb (JS.fadd (msOf first) width) (msOf first) = true) as Hdown.
  { rewrite Es. pose proof (round64_idem _ _ Es) as Hid.
    destruct width as [w| | |]; try discriminate Hims; [|reflexivity].
    change (Qle_bool w 0 = true) in Hims. apply Qle_bool_iff in Hims.
    change (JS.fadd (Num s) (Num w)) with (JS.round64 (s + w)).
    rewrite <- Hid. apply round64_mono. lra. }
  apply (candleLoop_short (first :: rest) (msOf first) width endTime fuel 0 []).
  intros j _. eapply nleb_trans; [apply (timeAt_stuck _ _ Hdown) | exact Hse].
Qed.

Lemma generateCandleData_nonpositive_width_witness :
  fst (generateCandleData 1000 0 0 exampleTrades) = None
  /\ fst (generateCandleData 1000 0 (- (4)) exampleTrades) = None.
Proof.
  split.
  - apply (generateCandleData_nonpositive_width 1000 0 0 exampleTrades
             (trade 0.5 10 3600) [trade 0.6 20 0; trade 0.7 1 36000] eq_refl).
    + repeat constructor; eexists; vm_compute; reflexivity.
    + discriminate.
  - apply (generateCandleData_nonpositive_width 1000 0 (- (4)) exampleTrades
             (trade 0.5 10 3600) [trade 0.6 20 0; trade 0.7 1 36000] eq_refl).
    + repeat constructor; eexists; vm_compute; reflexivity.
    + discriminate.
Defined.

(** ** The fallback index, the basic fields and the order book of an index *)

(** The fallback markets of the slots from [i] on: one new Market object per
    slot, in slot order, for four random numbers each. *)
Lemma mapM_i_createFallbackMarket rt totalMarkets (positionNames : list Z) ids : forall i s,
  exists fallbacks,
    mapM_i (fun marketId i =>
              createFallbackMarket rt marketId i totalMarkets (positionNames !! i)) ids i s
    = (inl (seq (List.length (heap s)) (List.length ids)),
       set_heap (heap s ++ fallbacks) (advance (4 * List.length ids) s)) /\
    List.length fallbacks = List.length ids /\
    forall j marketId, ids !! j = Some marketId ->
      exists p h v e,
        fallbacks !! j
        = Some (fallbackMarket rt marketId totalMarkets (positionNames !! (i + j)%nat) p h v e).
Proof.
  induction ids as [|marketId ids IH]; intros i s.
  - exists []. simpl. rewrite app_nil_r. split; [|split; [reflexivity|]].
    + destruct s. reflexivity.
    + intros j m Hj. discriminate.
  - simpl mapM_i. unfold bind at 1. rewrite createFallbackMarket_spec.
    unfold bind at 1.
    edestruct (IH (S i)) as (fallbacks & -> & Hlen & Hfb).
    eexists (_ :: fallbacks). split; [|split].
    + unfold ret. simpl heap. rewrite length_app. simpl List.length. simpl seq.
      replace (List.length (heap s) + 1)%nat with (S (List.length (heap s))) by lia.
      rewrite <- app_assoc. simpl app. unfold set_heap, advance. simpl.
      do 3 f_equal. lia.
    + simpl. rewrite Hlen. reflexivity.
    + intros [|j] m Hj.
      * injection Hj as <-. rewrite Nat.add_0_r. eauto.
      * simpl in Hj. destruct (Hfb j m Hj) as (p & h & v & e' & Hf).
        exists p, h, v, e'. simpl. rewrite Hf. do 3 f_equal. lia.
Qed.

(** X13: for a predefined id, [createFallbackIndex] returns an Index and
    does not throw; the Index keeps the definition, has one new fallback
    market per constituent slot, for the market id and the position code of
    the slot, is expired when the status is ["inactive"] in any casing, and
    has the days of [resolutionTime] or [3]; no cache and no existing Market
    object is written.  For any other id it throws and leaves the state as
    it was. *)
Theorem createFallbackIndex_spec rt indexId s :
  (forall definition, getPredefinedIndex indexId = Some definition ->
     exists index s',
       createFallbackIndex rt indexId s = (inl index, s') /\
       Index.id index = indexId /\
       Index.makrtesIds index = Index.makrtesIds definition /\
       Index.positionNames index = Index.positionNames definition /\
       Index.markets index
       = Some (seq (List.length (heap s)) (List.length (Index.makrtesIds definition))) /\
       take (List.length (heap s)) (heap s') = heap s /\
       (forall i marketId, Index.makrtesIds definition !! i = Some marketId ->
          exists p h v e,
            heap s' !! (List.length (heap s) + i)%nat
            = Some (fallbackMarket rt marketId (List.length (Index.makrtesIds definition))
                      (Index.positionNames definition !! i) p h v e)) /\
       Index.expired index
       = Some (String.eqb (JS.toLowerCase (Index.status definition)) "inactive") /\
       Index.daysRemaining index
       = Some (match parseInt (Index.resolutionTime definition) with
               | Some 0%Z | None => 3%Z
               | Some d => d
               end) /\
       cachedIndexes s' = cachedIndexes s /\ cachedMarkets s' = cachedMarkets s /\
       cachedPriceHistories s' = cachedPriceHistories s /\
       cachedOrderbooks s' = cachedOrderbooks s) /\
  (getPredefinedIndex indexId = None ->
   createFallbackIndex rt indexId s
   = (inr ("Index with ID " +:+ indexId +:+ " not found"), s)).
Proof.
  split.
  - intros definition Hdef. unfold createFallbackIndex. rewrite Hdef.
    unfold bind at 1. rewrite Math_random_advance.
    unfold bind at 1. rewrite Math_random_advance.
    unfold bind at 1. rewrite Math_random_advance.
    unfold bind at 1. rewrite Math_random_advance.
    unfold bind at 1. rewrite Math_random_advance.
    unfold bind at 1. rewrite Math_random_advance.
    rewrite !advance_advance. unfold bind at 1.
    destruct (mapM_i_createFallbackMarket rt (List.length (Index.makrtesIds definition))
                (Index.positionNames definition) (Index.makrtesIds definition) 0
                (advance (1 + (1 + (1 + (1 + (1 + 1))))) s))
      as (fallbacks & -> & Hlen & Hfb).
    eexists _, _. split; [reflexivity|]. simpl.
    split; [exact (getPredefinedIndex_id indexId definition Hdef)|].
    do 3 (split; [reflexivity|]).
    split; [apply take_app_length|].
    split; [|repeat split].
    intros i marketId Hi. destruct (Hfb i marketId Hi) as (p & h & v & e & Hf).
    exists p, h, v, e. rewrite lookup_app_r by lia.
    replace (List.length (heap s) + i - List.length (heap s))%nat with i by lia.
    exact Hf.
  - intros Hdef. unfold createFallbackIndex. rewrite Hdef. reflexivity.
Qed.

Lemma createFallbackIndex_spec_witness :
  exists index s',
    createFallbackIndex exampleRuntime "reliable-forecast" newService = (inl index, s')
    /\ Index.markets index = Some [0; 1; 2; 3]%nat
    /\ Index.expired index = Some true
    /\ Index.daysRemaining index = Some 4%Z.
Proof.
  destruct (createFallbackIndex_spec exampleRuntime "reliable-forecast" newService)
    as [H _].
  destruct (H _ eq_refl) as (index & s' & Hr & _ & _ & _ & Hm & _ & _ & He & Hd & _).
  exists index, s'. repeat split; assumption.
Defined.











(** X18: the predefined indexes have ids that differ from one another, so
    that [getPredefinedIndex] finds each of them by its id; each has as many
    position codes and icons as it has constituents, and every position code
    is [1] or [2]. *)
Theorem predefinedIndexes_consistent :
  NoDup (map Index.id getPredefinedIndexes) /\
  Forall (fun index =>
            getPredefinedIndex (Index.id index) = Some index /\
            List.length (Index.positionNames index) = List.length (Index.makrtesIds index) /\
            List.length (Index.icons index) = List.length (Index.makrtesIds index) /\
            Forall (fun code => code = 1%Z \/ code = 2%Z) (Index.positionNames index))
         getPredefinedIndexes.
Proof.
  split.
  - apply (bool_decide_unpack _). vm_compute. exact I.
  - unfold getPredefinedIndexes, predefinedIndexes.
    repeat (apply Forall_cons; split;
            [split; [reflexivity|]; split; [reflexivity|]; split; [reflexivity|];
             repeat (apply Forall_cons; split;
                     [(left; reflexivity) || (right; reflexivity)|]);
             constructor|]).
    constructor.
Qed.
